(** * browser-ai-agent: the orchestration core, embedded and verified

    A shallow embedding of the agent's TypeScript sources:

    - [Js], [Double], [Value]
                      the fragment of the JavaScript runtime the code relies
                      on: UTF-16 strings, Numbers, dynamic values, thrown
                      values;
    - [Re]            a backtracking matcher for the regular expressions the
                      sources contain;
    - [Extractor]     [PageExtractor.truncateToTokenBudget];
    - [Effects]       what the code asks of Playwright and of the user, as
                      programs over those operations;
    - [Actions]       [BrowserActions] with [resolveLocator];
    - [Guard]         [SecurityGuard];
    - [Context]       [ContextManager];
    - [Snapshot]      [PageExtractor.extract];
    - [Executor]      [ToolExecutor.execute];
    - [Manager]       [BrowserManager];
    - [Agent]         [BrowserAgent.isStuck] and the tool-call branch of
                      [BrowserAgent.run];
    - [Example]       a runtime, two environments and data to run the code
                      on;
    - [Prompts]       [formatObservation], [buildFinalSummaryPrompt];
    - [Loop]          [BrowserAgent.run] and [generateFinalSummary];
    - [Scenes]        more environments and data.

    The properties follow, one module for each part of the code.

    Logging ([logger.*]) only prints to the terminal and is left out. *)

From Stdlib Require Import String Ascii DecimalString SpecFloat.
From Stdlib Require Import List NArith ZArith QArith Qround Qabs Lia Bool.
Close Scope Q_scope.
Import ListNotations.

(* ================================================================== *)
(** * JavaScript strings and values *)
(* ================================================================== *)

Module Js.

(** A JavaScript string is a sequence of UTF-16 code units; [length],
    [slice], [lastIndexOf] and regular expressions all count code units. *)
Abbreviation codeunit := N (only parsing).
Abbreviation jsstring := (list N) (only parsing).

Local Open Scope N_scope.

(** String literals of the sources are written as Rocq strings (UTF-8
    bytes) and decoded to UTF-16 here. *)
Fixpoint utf16_of_utf8 (bs : list N) : jsstring :=
  match bs with
  | [] => []
  | b0 :: r0 =>
    if b0 <? 128 then b0 :: utf16_of_utf8 r0
    else match r0 with
    | [] => []
    | b1 :: r1 =>
      if b0 <? 224 then
        N.lor (N.shiftl (N.land b0 31) 6) (N.land b1 63) :: utf16_of_utf8 r1
      else match r1 with
      | [] => []
      | b2 :: r2 =>
        if b0 <? 240 then
          N.lor (N.shiftl (N.land b0 15) 12)
                (N.lor (N.shiftl (N.land b1 63) 6) (N.land b2 63))
            :: utf16_of_utf8 r2
        else match r2 with
        | [] => []
        | b3 :: r3 =>
          let cp := N.lor (N.shiftl (N.land b0 7) 18)
                   (N.lor (N.shiftl (N.land b1 63) 12)
                   (N.lor (N.shiftl (N.land b2 63) 6) (N.land b3 63))) in
          let v := cp - 65536 in
          (55296 + N.shiftr v 10) :: (56320 + N.land v 1023)
            :: utf16_of_utf8 r3
        end
      end
    end
  end.

Definition lit (s : string) : jsstring :=
  utf16_of_utf8 (map N_of_ascii (list_ascii_of_string s)).

Definition LF : jsstring := [10].
Definition DQ : jsstring := [34].

Local Close Scope N_scope.
Local Open Scope Z_scope.

(** [s.length] *)
Definition strlen (s : jsstring) : Z := Z.of_nat (length s).

(** [a === b] on strings *)
Fixpoint streq (a b : jsstring) : bool :=
  match a, b with
  | [], [] => true
  | x :: a', y :: b' => N.eqb x y && streq a' b'
  | _, _ => false
  end.

(** [s.startsWith(p)] *)
Fixpoint startsWith (s p : jsstring) {struct p} : bool :=
  match p, s with
  | [], _ => true
  | y :: p', x :: s' => N.eqb x y && startsWith s' p'
  | _ :: _, [] => false
  end.

(** [s.includes(p)] *)
Fixpoint includes (s p : jsstring) : bool :=
  startsWith s p ||
  match s with
  | [] => false
  | _ :: s' => includes s' p
  end.

(** [s.slice(start, end)]: negative indices count from the end, both are
    clamped to the string. *)
Definition slice (s : jsstring) (start end_ : Z) : jsstring :=
  let len := strlen s in
  let from := if start <? 0 then Z.max (len + start) 0 else Z.min start len in
  let to := if end_ <? 0 then Z.max (len + end_) 0 else Z.min end_ len in
  if to <=? from then []
  else firstn (Z.to_nat (to - from)) (skipn (Z.to_nat from) s).

(** [s.slice(start)] *)
Definition slice_from (s : jsstring) (start : Z) : jsstring :=
  slice s start (strlen s).

(** [s.lastIndexOf(p)], for [s] the suffix that starts at index [i] of the
    whole string: the greatest index where [p] occurs, or [-1]. *)
Fixpoint lastIndexOf_from (s p : jsstring) (i : Z) : Z :=
  match s with
  | [] => if startsWith [] p then i else -1
  | _ :: s' =>
    let r := lastIndexOf_from s' p (i + 1) in
    if 0 <=? r then r else if startsWith s p then i else -1
  end.

Definition lastIndexOf (s p : jsstring) : Z := lastIndexOf_from s p 0.

(** The decimal digits of an integer, with its sign: what [String(n)]
    prints for an integer [n] below [10^21] in magnitude. *)
Definition string_of_Z (n : Z) : jsstring :=
  lit (NilZero.string_of_int (Z.to_int n)).

(** [parts.join(sep)] *)
Fixpoint join (sep : jsstring) (parts : list jsstring) : jsstring :=
  match parts with
  | [] => []
  | [p] => p
  | p :: rest => p ++ sep ++ join sep rest
  end.

End Js.

Import Js.

(* ================================================================== *)
(** * JavaScript numbers *)
(* ================================================================== *)

Module Double.

Local Open Scope Z_scope.

(** A JavaScript Number is an IEEE 754 double: a [spec_float] of the
    Standard Library at precision 53 and maximal exponent 1024.  A term
    of that type is a Number when [valid] holds of it. *)
Definition number := spec_float.

Definition prec := 53.
Definition emax := 1024.

Definition valid (x : number) : bool := valid_binary prec emax x.

Definition NaN : number := S754_nan.

(** The Number nearest to [m * 2^e], ties to even. *)
Definition nearest (m e : Z) : number :=
  binary_normalize prec emax m e false.

(** The Number value of an integer. *)
Definition ofZ (n : Z) : number := nearest n 0.

(** The Number value of the decimal [d * 10^t]: the nearest Number,
    ties to even.  For [t < 0] the quotient is taken to 64 bits or
    more, with one more bit that tells whether anything was left, and
    rounded once.  Exponents beyond 400 either way are not computed:
    the value is an infinity or a zero. *)
Definition ofDecimal (d t : Z) : number :=
  let size := Z.log2 (Z.abs d) / 3 + 1 in
  if 400 <? t then nearest (d * 10 ^ 400) 0
  else if 0 <=? t then nearest (d * 10 ^ t) 0
  else if t + size <? -400 then S754_zero (d <? 0)
  else
    let den := 10 ^ (- t) in
    let shift := Z.log2 den + 64 in
    let num := Z.abs d * 2 ^ shift in
    let sticky := if num mod den =? 0 then 0 else 1 in
    nearest (Z.sgn d * (2 * (num / den) + sticky)) (- shift - 1).

(** [x + y], [x / y], [x < y] *)
Definition add (x y : number) : number := SFadd prec emax x y.
Definition div (x y : number) : number := SFdiv prec emax x y.
Definition ltb (x y : number) : bool := SFltb x y.

(** [Math.min(x, y)]: [NaN] if either is; [-0] is below [+0]. *)
Definition Math_min (x y : number) : number :=
  match SFcompare x y with
  | None => NaN
  | Some Lt => x
  | Some Gt => y
  | Some Eq => match y with S754_zero true => y | _ => x end
  end.

(** [Math.ceil(x)] *)
Definition Math_ceil (x : number) : number :=
  match x with
  | S754_finite s m e =>
    if 0 <=? e then x
    else
      let d := 2 ^ (- e) in
      if s then
        match Z.pos m / d with
        | 0 => S754_zero true
        | q => ofZ (- q)
        end
      else ofZ ((Z.pos m + d - 1) / d)
  | _ => x
  end.

(** [Math.round(x)]: the nearest integer, a half going up. *)
Definition Math_round (x : number) : number :=
  match x with
  | S754_finite s m e =>
    if 0 <=? e then x
    else
      let d := 2 ^ (- e) in
      match (2 * (if s then Z.neg m else Z.pos m) + d) / (2 * d) with
      | 0 => S754_zero s
      | q => ofZ q
      end
  | _ => x
  end.

(** ** [Number::toString] *)

Local Open Scope Q_scope.

Definition pow10 (t : Z) : Q := Qpower (10 # 1) t.
Definition pow2 (t : Z) : Q := Qpower (2 # 1) t.

(** The integer nearest to [x], a half going to the even one. *)
Definition roundHalfEven (x : Q) : Z :=
  let f := Qfloor x in
  match Qcompare (x - inject_Z f) (1 # 2) with
  | Lt => f
  | Gt => (f + 1)%Z
  | Eq => if Z.even f then f else (f + 1)%Z
  end.

(** The decade of [v > 0]: the [n] with [10^(n-1) <= v < 10^n], looked
    for from a first guess. *)
Fixpoint decadeFrom (fuel : nat) (v : Q) (n : Z) : Z :=
  match fuel with
  | O => n
  | S fuel' =>
    if Qle_bool (pow10 n) v then decadeFrom fuel' v (n + 1)
    else if Qle_bool (pow10 (n - 1)) v then n
    else decadeFrom fuel' v (n - 1)
  end.

Section Digits.

(** The Number is [v > 0]; the reals that round to it are those between
    [lo] and [hi], the two included when [closed]. *)
Variables (v lo hi : Q) (closed : bool).

(** Among the integers [s] of [k] digits with [s * 10^(n-k)] rounding
    to the Number, the one for which that is closest to [v], with its
    distance to [v]. *)
Definition candidate (k n : Z) : option (Z * Z * Q) :=
  let scale := pow10 (n - k) in
  let first :=
    if closed then Qceiling (lo / scale) else (Qfloor (lo / scale) + 1)%Z in
  let last :=
    if closed then Qfloor (hi / scale) else (Qceiling (hi / scale) - 1)%Z in
  let first := Z.max first (10 ^ (k - 1)) in
  let last := Z.min last (10 ^ k - 1) in
  if (last <? first)%Z then None
  else
    let s := Z.max first (Z.min last (roundHalfEven (v / scale))) in
    Some (s, n, Qabs (inject_Z s * scale - v)).

Definition closer (a b : option (Z * Z * Q)) : option (Z * Z * Q) :=
  match a, b with
  | Some (_, _, da), Some (_, _, db) => if Qle_bool da db then a else b
  | Some _, None => a
  | None, _ => b
  end.

(** The least [k] that has such an [s], with [s] and [n]. *)
Fixpoint shortest (fuel : nat) (decade k : Z) : Z * Z * Z :=
  match closer (candidate k decade) (candidate k (decade + 1)) with
  | Some (s, n, _) => (s, k, n)
  | None =>
    match fuel with
    | S fuel' => shortest fuel' decade (k + 1)
    | O => (roundHalfEven (v / pow10 (decade - k)), k, decade)
    end
  end.

End Digits.

Local Open Scope Z_scope.

Definition zeros (n : Z) : jsstring := repeat 48%N (Z.to_nat n).

(** Steps 6 to 10 of [Number::toString], radix 10. *)
Definition notation (s k n : Z) : jsstring :=
  let digits := string_of_Z s in
  if (-5 <=? n) && (n <=? 21) then
    if k <=? n then digits ++ zeros (n - k)
    else if 0 <? n then
      firstn (Z.to_nat n) digits ++ lit "." ++ skipn (Z.to_nat n) digits
    else lit "0." ++ zeros (- n) ++ digits
  else
    let exponent :=
      lit "e" ++ (if 0 <? n - 1 then lit "+" else lit "-")
      ++ string_of_Z (Z.abs (n - 1)) in
    if k =? 1 then digits ++ exponent
    else firstn 1 digits ++ lit "." ++ skipn 1 digits ++ exponent.

(** The positive Number [m * 2^e], [m] and [e] as [valid] has them.
    In units of [2^(e-2)] the Number is [4m], and the reals that round
    to it reach half-way to its neighbours: up to [4m + 2], and down to
    [4m - 2], or to [4m - 1] where the Number is a power of two and the
    Numbers below it lie twice as close.  A tie rounds to the even
    mantissa, so the two ends round to this Number when [m] is even.
    Seventeen digits tell any two Numbers apart. *)
Definition positiveToString (m : positive) (e : Z) : jsstring :=
  let unit_ := pow2 (e - 2) in
  let v := (inject_Z (4 * Z.pos m) * unit_)%Q in
  let below :=
    if (Z.pos m =? 2 ^ (prec - 1)) && (emin prec emax <? e) then 1 else 2 in
  let lo := (inject_Z (4 * Z.pos m - below) * unit_)%Q in
  let hi := (inject_Z (4 * Z.pos m + 2) * unit_)%Q in
  let decade :=
    decadeFrom 700 v ((Z.log2 (Z.pos m) + e) * 30103 / 100000) in
  let '(s, k, n) := shortest v lo hi (Z.even (Z.pos m)) 16 decade 1 in
  notation s k n.

(** [Number::toString(x)], and so [String(x)] and [`${x}`] of a Number.
    Where several digit strings of the least length denote the Number,
    the one nearest to it is taken, as V8 does. *)
Definition Number_toString (x : number) : jsstring :=
  match x with
  | S754_nan => lit "NaN"
  | S754_zero _ => lit "0"
  | S754_infinity s => (if s then lit "-" else []) ++ lit "Infinity"
  | S754_finite s m e =>
    (if s then lit "-" else [])
    ++ match nearest (Z.pos m) e with
       | S754_finite _ m' e' => positiveToString m' e'
       | S754_infinity _ => lit "Infinity"
       | _ => lit "0"
       end
  end.

End Double.

Import Double.

(* ================================================================== *)
(** * Dynamic values, thrown values, the runtime's built-ins *)
(* ================================================================== *)

Module Value.

(** Values that reach the code from [JSON.parse] or from a missing
    property. *)
#[warnings="-register-all"] Inductive jsval :=
| VUndefined
| VNull
| VBool (b : bool)
| VNum (n : number)
| VStr (s : jsstring)
| VArr (items : list jsval)
| VObj (fields : list (jsstring * jsval)).

(** [`${v}`] and [String(v)] *)
Fixpoint ToString (v : jsval) : jsstring :=
  match v with
  | VUndefined => lit "undefined"
  | VNull => lit "null"
  | VBool true => lit "true"
  | VBool false => lit "false"
  | VNum n => Number_toString n
  | VStr s => s
  | VArr items =>
    join (lit ",")
      (map (fun x => match x with
                     | VUndefined | VNull => []
                     | _ => ToString x
                     end) items)
  | VObj _ => lit "[object Object]"
  end.

(** What [throw] and a rejected promise carry: an [Error] with its message,
    or any other value. *)
Inductive thrown :=
| ErrorObj (message : jsstring)
| Thrown (v : jsval).

(** [error instanceof Error ? error.message : error], interpolated *)
Definition errorText (e : thrown) : jsstring :=
  match e with
  | ErrorObj m => m
  | Thrown v => ToString v
  end.

(** [error instanceof Error && error.message.includes(needle)] *)
Definition errorIncludes (e : thrown) (needle : jsstring) : bool :=
  match e with
  | ErrorObj m => includes m needle
  | Thrown _ => false
  end.

(** The [TypeError] Node raises when method [meth] is called on a value
    [v] that is not a string, [v] being the variable [var]. *)
Definition notAString (var meth : jsstring) (v : jsval) : thrown :=
  match v with
  | VUndefined | VNull =>
    ErrorObj (lit "Cannot read properties of " ++ ToString v
              ++ lit " (reading '" ++ meth ++ lit "')")
  | _ => ErrorObj (var ++ lit "." ++ meth ++ lit " is not a function")
  end.

(** The value of property [key] among the fields of an object; a missing
    key reads as [undefined]. *)
Fixpoint lookup (key : jsstring) (fields : list (jsstring * jsval))
  : jsval :=
  match fields with
  | [] => VUndefined
  | (k, v) :: rest => if streq k key then v else lookup key rest
  end.

(** Built-ins of the JavaScript runtime that the sources call and whose
    full definition (Unicode case mapping, number and JSON grammars) lies
    outside the repository. *)
Record Runtime := {
  (** [String.prototype.toLowerCase] *)
  toLowerCase : jsstring -> jsstring;
  (** [Canonicalize] of a code unit under the [i] flag of a RegExp *)
  canonicalize : codeunit -> codeunit;
  (** [ToNumber] of a string *)
  stringToNumber : jsstring -> number;
  (** [JSON.parse]; [None] is the [SyntaxError] *)
  JSON_parse : jsstring -> option jsval;
  (** [JSON.stringify] of a parsed value *)
  JSON_stringify : jsval -> jsstring
}.

(** [ToNumber(v)] *)
Definition ToNumber (rt : Runtime) (v : jsval) : number :=
  match v with
  | VUndefined => NaN
  | VNull => ofZ 0
  | VBool true => ofZ 1
  | VBool false => ofZ 0
  | VNum n => n
  | VStr s => stringToNumber rt s
  | VArr _ | VObj _ => stringToNumber rt (ToString v)
  end.

End Value.

Import Value.

(* ================================================================== *)
(** * Regular expressions *)
(* ================================================================== *)

Module Re.

Local Open Scope N_scope.

(** The syntax the sources use.  [Star true] is the greedy [*], [Star
    false] the lazy [*?]; [Grp n] is the [n]-th capturing group. *)
Inductive regex :=
| Eps
| Chr (p : codeunit -> bool)
| Seq (a b : regex)
| Alt (a b : regex)
| Star (greedy : bool) (a : regex)
| Grp (n : nat) (a : regex)
| Bol
| Eol
| WordB.

Definition Plus (greedy : bool) (a : regex) : regex :=
  Seq a (Star greedy a).
Definition Opt (a : regex) : regex := Alt a Eps.

(** Character classes *)
Definition is_digit (c : codeunit) : bool := (48 <=? c) && (c <=? 57).
Definition is_upper (c : codeunit) : bool := (65 <=? c) && (c <=? 90).
Definition is_lower (c : codeunit) : bool := (97 <=? c) && (c <=? 122).
(** [\w] *)
Definition is_word (c : codeunit) : bool :=
  is_upper c || is_lower c || is_digit c || (c =? 95).
(** [\s]: WhiteSpace and LineTerminator *)
Definition is_space (c : codeunit) : bool :=
  ((9 <=? c) && (c <=? 13)) || (c =? 32) || (c =? 160) || (c =? 5760)
  || ((8192 <=? c) && (c <=? 8202)) || (c =? 8232) || (c =? 8233)
  || (c =? 8239) || (c =? 8287) || (c =? 12288) || (c =? 65279).
(** [.]: anything but a line terminator *)
Definition is_dot (c : codeunit) : bool :=
  negb ((c =? 10) || (c =? 13) || (c =? 8232) || (c =? 8233)).
Definition is_char (x : codeunit) (c : codeunit) : bool := c =? x.
Definition one_of (xs : jsstring) (c : codeunit) : bool :=
  existsb (N.eqb c) xs.

(** A literal string *)
Fixpoint Lit (s : jsstring) : regex :=
  match s with
  | [] => Eps
  | c :: s' => Seq (Chr (is_char c)) (Lit s')
  end.

(** Under the [i] flag a code unit matches a set when its canonical form
    is the canonical form of a member. *)
Definition ci_char (canon : codeunit -> codeunit) (x : codeunit)
    (c : codeunit) : bool :=
  canon c =? canon x.
Definition ci_upper (canon : codeunit -> codeunit) (c : codeunit) : bool :=
  existsb (fun m => canon c =? canon m)
          (map N.of_nat (seq 65 26)).
Fixpoint LitCI (canon : codeunit -> codeunit) (s : jsstring) : regex :=
  match s with
  | [] => Eps
  | c :: s' => Seq (Chr (ci_char canon c)) (LitCI canon s')
  end.

(** Matcher state: the code unit before the current position ([None] at
    index 0), the input still to read, and the groups captured so far. *)
Record mstate := {
  prev : option codeunit;
  rest : jsstring;
  caps : list (nat * jsstring)
}.

Definition is_word_opt (c : option codeunit) : bool :=
  match c with
  | Some x => is_word x
  | None => false
  end.

(** One star: run [body] as often as it reads something, preferring more
    iterations when [greedy] and fewer otherwise.  An iteration that reads
    nothing is rejected, so the length of the input bounds the number of
    iterations and [fuel] never runs out. *)
Fixpoint star (body : mstate -> (mstate -> option mstate) -> option mstate)
    (greedy : bool) (k : mstate -> option mstate) (fuel : nat) (s : mstate)
  {struct fuel} : option mstate :=
  match fuel with
  | O => k s
  | S fuel' =>
    let more :=
      body s (fun s' =>
                if (length (rest s') <? length (rest s))%nat
                then star body greedy k fuel' s' else None) in
    if greedy then
      match more with
      | Some x => Some x
      | None => k s
      end
    else
      match k s with
      | Some x => Some x
      | None => more
      end
  end.

(** Backtracking matcher in continuation-passing style: alternatives are
    tried in the order the ECMAScript semantics prescribes.  No regular
    expression of the sources has a group under a star, so captures need
    no reset between iterations. *)
Fixpoint m (r : regex) (s : mstate) (k : mstate -> option mstate)
  {struct r} : option mstate :=
  match r with
  | Eps => k s
  | Chr p =>
    match rest s with
    | c :: t =>
      if p c then k {| prev := Some c; rest := t; caps := caps s |}
      else None
    | [] => None
    end
  | Seq a b => m a s (fun s' => m b s' k)
  | Alt a b =>
    match m a s k with
    | Some x => Some x
    | None => m b s k
    end
  | Star greedy a => star (m a) greedy k (S (length (rest s))) s
  | Grp n a =>
    m a s (fun s' =>
             k {| prev := prev s'; rest := rest s';
                  caps := (n, firstn (length (rest s) - length (rest s'))
                                     (rest s)) :: caps s' |})
  | Bol => match prev s with None => k s | Some _ => None end
  | Eol => match rest s with [] => k s | _ :: _ => None end
  | WordB =>
    if xorb (is_word_opt (prev s)) (is_word_opt (hd_error (rest s)))
    then k s else None
  end.

(** The result of a successful search: where the match starts, what
    follows it, and the captures. *)
Record found := {
  index : nat;
  after : jsstring;
  groups : list (nat * jsstring)
}.

(** The state a search starts a match attempt in. *)
Definition at_ (p : option codeunit) (s : jsstring) : mstate :=
  {| prev := p; rest := s; caps := [] |}.

(** Whether a search found a match. *)
Definition found_some (r : option found) : bool :=
  match r with Some _ => true | None => false end.

(** Try each start position from left to right. *)
Fixpoint search_from (r : regex) (i : nat) (p : option codeunit)
    (s : jsstring) : option found :=
  match m r (at_ p s) Some with
  | Some s' =>
    Some {| index := i; after := rest s'; groups := caps s' |}
  | None =>
    match s with
    | [] => None
    | c :: t => search_from r (S i) (Some c) t
    end
  end.

(** [re.exec(s)] *)
Definition exec (r : regex) (s : jsstring) : option found :=
  search_from r 0 None s.

(** [re.test(s)] *)
Definition test (r : regex) (s : jsstring) : bool :=
  found_some (exec r s).

(** Capture [n] of a match; [None] is [undefined]. *)
Fixpoint group (n : nat) (gs : list (nat * jsstring)) : option jsstring :=
  match gs with
  | [] => None
  | (k, v) :: gs' => if Nat.eqb k n then Some v else group n gs'
  end.

(** [s.replace(re, replacement)] for a regex without the [g] flag. *)
Definition replace (r : regex) (replacement : jsstring) (s : jsstring)
  : jsstring :=
  match exec r s with
  | Some f => firstn (index f) s ++ replacement ++ after f
  | None => s
  end.

(** [r'] is [r] with some character classes widened. *)
Inductive widens : regex -> regex -> Prop :=
| W_Eps : widens Eps Eps
| W_Chr p p' : (forall c, p c = true -> p' c = true) ->
    widens (Chr p) (Chr p')
| W_Seq a a' b b' : widens a a' -> widens b b' ->
    widens (Seq a b) (Seq a' b')
| W_Alt a a' b b' : widens a a' -> widens b b' ->
    widens (Alt a b) (Alt a' b')
| W_Star g a a' : widens a a' -> widens (Star g a) (Star g a')
| W_Grp n a a' : widens a a' -> widens (Grp n a) (Grp n a')
| W_Bol : widens Bol Bol
| W_Eol : widens Eol Eol
| W_WordB : widens WordB WordB.

(** Two states at the same place in the input. *)
Definition same_place (s s' : mstate) : Prop :=
  prev s = prev s' /\ rest s = rest s'.

(** Wherever [k] succeeds, [k'] succeeds. *)
Definition covers (k k' : mstate -> option mstate) : Prop :=
  forall s s', same_place s s' -> k s <> None -> k' s' <> None.

(** [r'] is [r] with classes widened and the end of a sequence left
    out. *)
Inductive trims : regex -> regex -> Prop :=
| T_widens r r' : widens r r' -> trims r r'
| T_drop a a' b : widens a a' -> trims (Seq a b) a'
| T_Seq a a' b b' : widens a a' -> trims b b' ->
    trims (Seq a b) (Seq a' b').

End Re.

(* ================================================================== *)
(** * Page extractor: truncation to the token budget *)
(* ================================================================== *)

Module Extractor.

Local Open Scope Z_scope.

(** The notice appended to a truncated tree. *)
Definition truncation_notice : jsstring :=
  LF ++ LF ++ lit "[... content truncated due to length ...]".

(** [PageExtractor.truncateToTokenBudget] *)
Definition truncateToTokenBudget (tokenBudget : Z) (content : jsstring)
  : jsstring :=
  let maxChars := tokenBudget * 4 in
  if strlen content <=? maxChars then content
  else
    let truncated := slice content 0 maxChars in
    let lastNewline := lastIndexOf truncated LF in
    let cleanTruncated :=
      if 0 <? lastNewline then slice truncated 0 lastNewline else truncated in
    cleanTruncated ++ truncation_notice.

End Extractor.

(* ================================================================== *)
(** * Effects: what the code asks of the browser and of the user *)
(* ================================================================== *)

Module Effects.

(** A handle on a Playwright page. *)
Definition Page := nat.

(** Locators are lazy descriptions of elements; building one touches
    nothing on the page. *)
Inductive Locator :=
| ByRole (role : jsstring) (name : option jsstring)
| ChildByRole (parent : Locator) (role : jsstring) (name : jsstring)
| ByText (text : jsstring)
| ByTextLoose (text : jsstring)
| ByLabel (text : jsstring)
| ByPlaceholder (text : jsstring)
| ByCss (selector : jsstring)
| First (l : Locator).

(** Synchronous reads; they never throw. *)
Inductive query :=
| PageUrl (p : Page)
| ContextPages
| PageIsClosed (p : Page).

Definition qresp (q : query) : Type :=
  match q with
  | PageUrl _ => jsstring
  | ContextPages => list Page
  | PageIsClosed _ => bool
  end.

(** Asynchronous operations; each may reject. *)
Inductive call :=
| Goto (p : Page) (url : jsstring) (timeout : Z)
| WaitForTimeout (p : Page) (ms : number)
| WaitForLoadState (p : Page)
| Title (p : Page)
| GoBack (p : Page) (timeout : Z)
| AriaSnapshot (p : Page) (timeout : Z)
| EvaluateScrollY (p : Page)
| EvaluateScrollInfo (p : Page)
| EvaluateWalk (p : Page)
| Screenshot (p : Page)
| MouseWheel (p : Page) (dx dy : Z)
| KeyboardPress (p : Page) (key : jsval)
| KeyboardType (p : Page) (text : jsval) (delay : Z)
| Click (p : Page) (l : Locator) (timeout : Z)
| Fill (p : Page) (l : Locator) (text : jsval) (timeout : Z)
| Hover (p : Page) (l : Locator) (timeout : Z)
| SelectOption (p : Page) (l : Locator) (value : jsval) (timeout : Z)
| ScrollIntoViewIfNeeded (p : Page) (l : Locator) (timeout : Z)
| DispatchEvent (p : Page) (l : Locator) (type : jsstring)
| EvaluateClick (p : Page) (l : Locator)
| ClosePage (p : Page)
| Confirm (question : jsstring)
| AskUser (question : jsval).

Definition cresp (c : call) : Type :=
  match c with
  | Title _ | AriaSnapshot _ _ | EvaluateScrollInfo _ | EvaluateWalk _
  | Confirm _ | AskUser _ => jsstring
  | EvaluateScrollY _ => number
  | Screenshot _ => Z
  | _ => unit
  end.

(** How a promise settles. *)
Inductive settled (X : Type) :=
| Resolved (x : X)
| Rejected (e : thrown).
Arguments Resolved {X} x.
Arguments Rejected {X} e.

(** Programs: return, throw, read, await an operation, or race an
    operation against a timer ([None]: the timer fired first). *)
Inductive prog (A : Type) : Type :=
| Ret (a : A)
| Throw (e : thrown)
| Get (q : query) (k : qresp q -> prog A)
| Call (c : call) (k : settled (cresp c) -> prog A)
| Race (ms : Z) (c : call) (k : option (settled (cresp c)) -> prog A).
Arguments Ret {A} a.
Arguments Throw {A} e.
Arguments Get {A} q k.
Arguments Call {A} c k.
Arguments Race {A} ms c k.

Fixpoint bind {A B} (p : prog A) (f : A -> prog B) : prog B :=
  match p with
  | Ret a => f a
  | Throw e => Throw e
  | Get q k => Get q (fun r => bind (k r) f)
  | Call c k => Call c (fun r => bind (k r) f)
  | Race ms c k => Race ms c (fun r => bind (k r) f)
  end.

(** [try { p } catch (e) { h e }] *)
Fixpoint try_catch {A} (p : prog A) (h : thrown -> prog A) : prog A :=
  match p with
  | Ret a => Ret a
  | Throw e => h e
  | Get q k => Get q (fun r => try_catch (k r) h)
  | Call c k => Call c (fun r => try_catch (k r) h)
  | Race ms c k => Race ms c (fun r => try_catch (k r) h)
  end.

Definition get (q : query) : prog (qresp q) := Get q Ret.

(** [await op] *)
Definition await (c : call) : prog (cresp c) :=
  Call c (fun r => match r with
                   | Resolved x => Ret x
                   | Rejected e => Throw e
                   end).

(** [await op.catch(() => {})] *)
Definition await_quiet (c : call) : prog unit :=
  Call c (fun _ => Ret tt).

(** [await withTimeout(op, ms, fallback)] *)
Definition withTimeout (c : call) (ms : Z) (fallback : cresp c)
  : prog (cresp c) :=
  Race ms c (fun r => match r with
                      | Some (Resolved x) => Ret x
                      | Some (Rejected e) => Throw e
                      | None => Ret fallback
                      end).

(** A function that returns or throws without touching the page. *)
Definition lift {A} (r : thrown + A) : prog A :=
  match r with
  | inl e => Throw e
  | inr a => Ret a
  end.

Declare Scope prog_scope.
Delimit Scope prog_scope with prog.
Bind Scope prog_scope with prog.
Notation "x <- p ;; q" := (bind p (fun x => q))
  (at level 61, p at next level, right associativity) : prog_scope.
Notation "p ;; q" := (bind p (fun _ => q))
  (at level 61, right associativity) : prog_scope.
Notation "'try' p 'catch' e => h" := (try_catch p (fun e => h))
  (at level 10, p at level 200, e name, h at level 200) : prog_scope.

(** ** Running a program against an environment *)

(** The environment answers reads and operations from its own state. *)
Record Env (W : Type) := {
  on_get : forall q : query, W -> qresp q;
  on_call : forall c : call, W -> settled (cresp c) * W;
  on_race : forall (ms : Z) (c : call), W -> option (settled (cresp c)) * W
}.
Arguments on_get {W} _ _ _.
Arguments on_call {W} _ _ _.
Arguments on_race {W} _ _ _ _.

(** The outcome of a run: the value returned or thrown, the
    environment's final state, and the operations issued, in order. *)
Record outcome (W A : Type) := {
  returned : thrown + A;
  world : W;
  trace : list call
}.
Arguments returned {W A} _.
Arguments world {W A} _.
Arguments trace {W A} _.

Definition logged {W A} (c : call) (o : outcome W A) : outcome W A :=
  {| returned := returned o; world := world o; trace := c :: trace o |}.

Fixpoint run {W A} (env : Env W) (p : prog A) (w : W) : outcome W A :=
  match p with
  | Ret a => {| returned := inr a; world := w; trace := [] |}
  | Throw e => {| returned := inl e; world := w; trace := [] |}
  | Get q k => run env (k (on_get env q w)) w
  | Call c k =>
    let '(r, w') := on_call env c w in logged c (run env (k r) w')
  | Race ms c k =>
    let '(r, w') := on_race env ms c w in logged c (run env (k r) w')
  end.

(** A program none of whose runs ends in an exception. *)
Inductive neverThrows {A} : prog A -> Prop :=
| NT_Ret a : neverThrows (Ret a)
| NT_Get q k : (forall r, neverThrows (k r)) -> neverThrows (Get q k)
| NT_Call c k : (forall r, neverThrows (k r)) -> neverThrows (Call c k)
| NT_Race ms c k :
    (forall r, neverThrows (k r)) -> neverThrows (Race ms c k).

(** Every value the program can return satisfies [P]. *)
Inductive always {A} (P : A -> Prop) : prog A -> Prop :=
| A_Ret a : P a -> always P (Ret a)
| A_Throw e : always P (Throw e)
| A_Get q k : (forall r, always P (k r)) -> always P (Get q k)
| A_Call c k : (forall r, always P (k r)) -> always P (Call c k)
| A_Race ms c k : (forall r, always P (k r)) -> always P (Race ms c k).

End Effects.

(* ================================================================== *)
(** * Browser actions and the selector resolver *)
(* ================================================================== *)

Module Actions.

Import Effects Re.
Local Open Scope prog_scope.

(** [BrowserActions.ARIA_ROLES] *)
Definition ARIA_ROLES : list jsstring := map lit [
  "alert"; "alertdialog"; "application"; "article"; "banner";
  "blockquote"; "button"; "caption"; "cell"; "checkbox";
  "code"; "columnheader"; "combobox"; "complementary";
  "contentinfo"; "definition"; "deletion"; "dialog";
  "directory"; "document"; "emphasis"; "feed"; "figure";
  "form"; "generic"; "grid"; "gridcell"; "group"; "heading";
  "img"; "insertion"; "link"; "list"; "listbox"; "listitem";
  "log"; "main"; "marquee"; "math"; "menu"; "menubar";
  "menuitem"; "menuitemcheckbox"; "menuitemradio"; "meter";
  "navigation"; "none"; "note"; "option"; "paragraph";
  "presentation"; "progressbar"; "radio"; "radiogroup";
  "region"; "row"; "rowgroup"; "rowheader"; "scrollbar";
  "search"; "searchbox"; "separator"; "slider"; "spinbutton";
  "status"; "strong"; "subscript"; "superscript"; "switch";
  "tab"; "table"; "tablist"; "tabpanel"; "term"; "textbox";
  "time"; "timer"; "toolbar"; "tooltip"; "tree"; "treegrid";
  "treeitem"
]%string.

(** [ARIA_ROLES.has(role)] *)
Definition isAriaRole (role : jsstring) : bool :=
  existsb (streq role) ARIA_ROLES.

Definition chr (s : string) : regex :=
  match lit s with
  | c :: _ => Chr (is_char c)
  | [] => Eps
  end.

(** [/^-\s+/] *)
Definition re_listPrefix : regex :=
  Seq Bol (Seq (chr "-") (Plus true (Chr is_space))).

(** [/[#.\[\]>:=@]/] *)
Definition re_cssChars : regex := Chr (one_of (lit "#.[]>:=@")).

(** [/\b\d+\b/] *)
Definition re_index : regex :=
  Seq WordB (Seq (Plus true (Chr is_digit)) WordB).

(** [/^(\w+)\s+"(.+?)"\s+(\w+)\s+"(.+)"$/] *)
Definition re_nested : regex :=
  Seq Bol (Seq (Grp 1 (Plus true (Chr is_word)))
  (Seq (Plus true (Chr is_space))
  (Seq (Lit DQ) (Seq (Grp 2 (Plus false (Chr is_dot))) (Seq (Lit DQ)
  (Seq (Plus true (Chr is_space))
  (Seq (Grp 3 (Plus true (Chr is_word)))
  (Seq (Plus true (Chr is_space))
  (Seq (Lit DQ) (Seq (Grp 4 (Plus true (Chr is_dot))) (Seq (Lit DQ)
   Eol))))))))))).

(** [/^(\w+)\s+"(.+)"(\s+\[.*\])?$/] *)
Definition re_aria : regex :=
  Seq Bol (Seq (Grp 1 (Plus true (Chr is_word)))
  (Seq (Plus true (Chr is_space))
  (Seq (Lit DQ) (Seq (Grp 2 (Plus true (Chr is_dot))) (Seq (Lit DQ)
  (Seq (Opt (Grp 3 (Seq (Plus true (Chr is_space))
                   (Seq (chr "[") (Seq (Star true (Chr is_dot)) (chr "]"))))))
   Eol)))))).

(** [/^(\w+)\s+(.+)$/] *)
Definition re_ariaNoQuote : regex :=
  Seq Bol (Seq (Grp 1 (Plus true (Chr is_word)))
  (Seq (Plus true (Chr is_space))
  (Seq (Grp 2 (Plus true (Chr is_dot))) Eol))).

(** [/^role=(\w+)(?:\[name=['"](.+)['"]\])?$/] *)
Definition re_rolePrefix : regex :=
  let quote := Chr (one_of (lit "'" ++ DQ)) in
  Seq Bol (Seq (Lit (lit "role=")) (Seq (Grp 1 (Plus true (Chr is_word)))
  (Seq (Opt (Seq (Lit (lit "[name=")) (Seq quote
            (Seq (Grp 2 (Plus true (Chr is_dot))) (Seq quote (chr "]"))))))
   Eol))).

Section WithRuntime.

Variable rt : Runtime.

(** [/\bROOT\b/i] *)
Definition re_root : regex :=
  Seq WordB (Seq (LitCI (canonicalize rt) (lit "ROOT")) WordB).

(** [/^[A-Z]+\s*>\s*[A-Z]+/i] *)
Definition re_treePath : regex :=
  let letters := Plus true (Chr (ci_upper (canonicalize rt))) in
  Seq Bol (Seq letters (Seq (Star true (Chr is_space))
  (Seq (chr ">") (Seq (Star true (Chr is_space)) letters)))).

(** The message of the error thrown for a tree-path selector. *)
Definition invalidSelector (selector : jsstring) : thrown :=
  ErrorObj
    (lit "Invalid selector " ++ DQ ++ selector ++ DQ
     ++ lit " — this looks like a tree hierarchy path, not a valid selector. "
     ++ lit "Use ARIA role+name format instead (e.g., button "
     ++ DQ ++ lit "Submit" ++ DQ ++ lit ", link " ++ DQ ++ lit "Home" ++ DQ
     ++ lit "). "
     ++ lit "Use read_page to see the actual element labels on the page.").

Definition lower (s : jsstring) : jsstring := toLowerCase rt s.

(** The resolution steps after the rejection test, each returning the
    locator it builds or [None] to fall through. *)

Definition nestedAria (selector : jsstring) : option Locator :=
  match exec re_nested selector with
  | Some f =>
    match group 1 (groups f), group 2 (groups f),
          group 3 (groups f), group 4 (groups f) with
    | Some parentRole, Some parentName, Some childRole, Some childName =>
      if isAriaRole (lower parentRole) && isAriaRole (lower childRole)
      then Some (ChildByRole (ByRole (lower parentRole) (Some parentName))
                             (lower childRole) childName)
      else None
    | _, _, _, _ => None
    end
  | None => None
  end.

Definition quotedAria (selector : jsstring) : option Locator :=
  match exec re_aria selector with
  | Some f =>
    match group 1 (groups f), group 2 (groups f) with
    | Some role, Some name =>
      if isAriaRole (lower role)
      then Some (ByRole (lower role) (Some name)) else None
    | _, _ => None
    end
  | None => None
  end.

Definition unquotedAria (selector : jsstring) : option Locator :=
  match exec re_ariaNoQuote selector with
  | Some f =>
    match group 1 (groups f), group 2 (groups f) with
    | Some role, Some name =>
      if isAriaRole (lower role) && negb (includes name (lit "="))
      then Some (ByRole (lower role) (Some name)) else None
    | _, _ => None
    end
  | None => None
  end.

Definition rolePrefix (selector : jsstring) : option Locator :=
  if startsWith selector (lit "role=") then
    match exec re_rolePrefix selector with
    | Some f =>
      match group 1 (groups f) with
      | Some role => Some (ByRole role (group 2 (groups f)))
      | None => None
      end
    | None => None
    end
  else None.

Definition orElse {A} (x : option A) (y : A) : A :=
  match x with
  | Some a => a
  | None => y
  end.

(** [BrowserActions.resolveLocator]: the locator, or the error thrown. *)
Definition resolveLocator (selector : jsval) : thrown + Locator :=
  match selector with
  | VStr selector0 =>
    let selector := replace re_listPrefix [] selector0 in
    if test re_root selector
       || test re_treePath selector && test re_index selector
    then inl (invalidSelector selector)
    else inr (
      orElse (nestedAria selector) (
      orElse (quotedAria selector) (
      orElse (unquotedAria selector) (
      orElse (rolePrefix selector) (
      if startsWith selector (lit "text=")
      then ByText (slice_from selector 5)
      else if startsWith selector (lit "label=")
      then ByLabel (slice_from selector 6)
      else if startsWith selector (lit "placeholder=")
      then ByPlaceholder (slice_from selector 12)
      else if test re_cssChars selector
      then ByCss selector
      else ByTextLoose selector)))))
  | v => inl (notAString (lit "selector") (lit "replace") v)
  end.

(** [selector.toLowerCase().includes('button')] *)
Definition mentionsButton (selector : jsval) : prog bool :=
  match selector with
  | VStr s => Ret (includes (lower s) (lit "button"))
  | v => Throw (notAString (lit "selector") (lit "toLowerCase") v)
  end.

Definition quoted (v : jsval) : jsstring := DQ ++ ToString v ++ DQ.

(** [BrowserActions.navigate] *)
Definition navigate (page : Page) (url : jsval) : prog jsstring :=
  try
    match url with
    | VStr u =>
      let url :=
        if negb (startsWith u (lit "http://"))
           && negb (startsWith u (lit "https://"))
        then lit "https://" ++ u else u in
      await (Goto page url 30000);;
      await (WaitForTimeout page (ofZ 1000));;
      title <- await (Title page);;
      Ret (lit "Navigated to " ++ url ++ lit " — page title: "
           ++ DQ ++ title ++ DQ)
    | v => Throw (notAString (lit "url") (lit "startsWith") v)
    end
  catch error =>
    Ret (lit "Navigation failed: " ++ errorText error).

(** [BrowserActions.click] *)
Definition click (page : Page) (selector : jsval) : prog jsstring :=
  try
    locator <- lift (resolveLocator selector);;
    await (Click page locator 7000);;
    await (WaitForTimeout page (ofZ 800));;
    Ret (lit "Clicked on " ++ quoted selector ++ lit " successfully")
  catch error =>
    if errorIncludes error (lit "strict mode violation") then
      try
        locator <- lift (resolveLocator selector);;
        await (Click page (First locator) 7000);;
        await (WaitForTimeout page (ofZ 800));;
        Ret (lit "Clicked on the FIRST match for " ++ quoted selector
             ++ lit " (multiple elements found). TIP: For listing pages with many identical buttons, navigate to the individual item page first, then perform the action there.")
      catch retryError =>
        Ret (lit "Click failed on " ++ quoted selector
             ++ lit " (strict mode, first() also failed): "
             ++ errorText retryError)
    else if errorIncludes error (lit "Timeout") then
      urlBefore <- get (PageUrl page);;
      try
        locator <- lift (resolveLocator selector);;
        await (WaitForTimeout page (ofZ 500));;
        await_quiet (ScrollIntoViewIfNeeded page locator 2000);;
        await (DispatchEvent page locator (lit "click"));;
        await (WaitForTimeout page (ofZ 1000));;
        urlAfter <- get (PageUrl page);;
        if negb (streq urlAfter urlBefore) then
          Ret (lit "Clicked on " ++ quoted selector
               ++ lit " successfully (dispatchEvent fallback)")
        else
          await (EvaluateClick page locator);;
          await (WaitForTimeout page (ofZ 1000));;
          urlFinal <- get (PageUrl page);;
          if negb (streq urlFinal urlBefore) then
            Ret (lit "Clicked on " ++ quoted selector
                 ++ lit " successfully (evaluate fallback)")
          else
            isButton <- mentionsButton selector;;
            if isButton : bool then
              Ret (lit "Clicked on " ++ quoted selector
                   ++ lit " successfully (dispatchEvent on button)")
            else
              Ret (lit "Click on " ++ quoted selector
                   ++ lit " was dispatched but the page did NOT change. The element may be covered by an overlay or the selector is wrong. Try a different selector (e.g., text= with the visible text, or use read_page to find the correct element).")
      catch dispatchError =>
        try
          locator <- lift (resolveLocator selector);;
          await (DispatchEvent page (First locator) (lit "click"));;
          await (WaitForTimeout page (ofZ 1000));;
          isButton <- mentionsButton selector;;
          if isButton : bool then
            Ret (lit "Clicked on " ++ quoted selector
                 ++ lit " successfully (dispatchEvent on first match)")
          else
            urlCheck <- get (PageUrl page);;
            if negb (streq urlCheck urlBefore) then
              Ret (lit "Clicked on " ++ quoted selector
                   ++ lit " successfully (dispatchEvent on first match)")
            else
              Ret (lit "Click on " ++ quoted selector
                   ++ lit " was dispatched but the page did NOT change. Try a different selector.")
        catch lastError =>
          Ret (lit "Click failed on " ++ quoted selector ++ lit ": "
               ++ errorText error)
    else
      Ret (lit "Click failed on " ++ quoted selector ++ lit ": "
           ++ errorText error).

(** [BrowserActions.type] *)
Definition type (page : Page) (selector text : jsval) : prog jsstring :=
  try
    locator <- lift (resolveLocator selector);;
    await (Fill page locator text 5000);;
    Ret (lit "Typed " ++ quoted text ++ lit " into " ++ quoted selector)
  catch error =>
    if errorIncludes error (lit "strict mode violation") then
      try
        locator <- lift (resolveLocator selector);;
        await (Fill page (First locator) text 5000);;
        Ret (lit "Typed " ++ quoted text ++ lit " into the FIRST match for "
             ++ quoted selector
             ++ lit " (multiple elements found). TIP: Use a more specific selector.")
      catch retryError =>
        Ret (lit "Type failed on " ++ quoted selector
             ++ lit " (strict mode, first() also failed): "
             ++ errorText retryError)
    else
      try
        locator <- lift (resolveLocator selector);;
        await (Click page locator 5000);;
        await (KeyboardType page text 30);;
        Ret (lit "Typed " ++ quoted text ++ lit " into " ++ quoted selector
             ++ lit " (via keyboard)")
      catch retryError =>
        Ret (lit "Type failed on " ++ quoted selector ++ lit ": "
             ++ errorText error).

(** [BrowserActions.scroll] *)
Definition scroll (page : Page) (direction : jsval) : prog jsstring :=
  try
    let delta :=
      match direction with
      | VStr d => if streq d (lit "down") then 600%Z else (-600)%Z
      | _ => (-600)%Z
      end in
    await (MouseWheel page 0 delta);;
    await (WaitForTimeout page (ofZ 500));;
    scrollY <- await (EvaluateScrollY page);;
    Ret (lit "Scrolled " ++ ToString direction
         ++ lit ". Current scroll position: "
         ++ Number_toString (Math_round scrollY) ++ lit "px")
  catch error =>
    Ret (lit "Scroll failed: " ++ errorText error).

(** [BrowserActions.goBack] *)
Definition goBack (page : Page) : prog jsstring :=
  try
    urlBefore <- get (PageUrl page);;
    await (GoBack page 10000);;
    await (WaitForTimeout page (ofZ 800));;
    urlAfter <- get (PageUrl page);;
    title <- await (Title page);;
    if streq urlAfter urlBefore then
      Ret (lit "go_back did NOT work — the page is still " ++ DQ ++ title
           ++ DQ ++ lit " (" ++ urlAfter
           ++ lit "). This site uses client-side routing. Use navigate() with the target URL, or click a link/button to go where you need.")
    else
      Ret (lit "Navigated back to " ++ DQ ++ title ++ DQ ++ lit " ("
           ++ urlAfter ++ lit ")")
  catch error =>
    Ret (lit "Go back failed: " ++ errorText error).

(** [BrowserActions.selectOption] *)
Definition selectOption (page : Page) (selector value : jsval)
  : prog jsstring :=
  try
    locator <- lift (resolveLocator selector);;
    await (SelectOption page locator value 5000);;
    Ret (lit "Selected " ++ quoted value ++ lit " in " ++ quoted selector)
  catch error =>
    Ret (lit "Select option failed on " ++ quoted selector ++ lit ": "
         ++ errorText error).

(** [BrowserActions.pressKey] *)
Definition pressKey (page : Page) (key : jsval) : prog jsstring :=
  try
    await (KeyboardPress page key);;
    await (WaitForTimeout page (ofZ 500));;
    Ret (lit "Pressed key " ++ quoted key)
  catch error =>
    Ret (lit "Press key failed: " ++ errorText error).

(** [BrowserActions.hover] *)
Definition hover (page : Page) (selector : jsval) : prog jsstring :=
  try
    locator <- lift (resolveLocator selector);;
    await (Hover page locator 5000);;
    Ret (lit "Hovered over " ++ quoted selector)
  catch error =>
    if errorIncludes error (lit "strict mode violation") then
      try
        locator <- lift (resolveLocator selector);;
        await (Hover page (First locator) 5000);;
        Ret (lit "Hovered over the FIRST match for " ++ quoted selector
             ++ lit " (multiple elements found). TIP: Use a more specific selector.")
      catch retryError =>
        Ret (lit "Hover failed on " ++ quoted selector
             ++ lit " (strict mode, first() also failed): "
             ++ errorText retryError)
    else
      Ret (lit "Hover failed on " ++ quoted selector ++ lit ": "
           ++ errorText error).

(** [BrowserActions.wait] *)
Definition wait (page : Page) (ms : jsval) : prog jsstring :=
  let cappedMs := Math_min (ToNumber rt ms) (ofZ 10000) in
  await (WaitForTimeout page cappedMs);;
  Ret (lit "Waited " ++ Number_toString cappedMs ++ lit "ms").

(** [BrowserActions.screenshot]; the operation answers with the length
    of the PNG buffer. *)
Definition screenshot (page : Page) : prog jsstring :=
  try
    bufferLength <- await (Screenshot page);;
    let sizeKb := Math_round (div (ofZ bufferLength) (ofZ 1024)) in
    Ret (lit "Screenshot taken (" ++ Number_toString sizeKb
         ++ lit "KB). The page is visible in the browser window.")
  catch error =>
    Ret (lit "Screenshot failed: " ++ errorText error).

End WithRuntime.

(** The tree-path pattern as the specification words it,
    [^[A-Z]+\s*>\s*[A-Z]+.*\d]: upper case only, and any digit after. *)
Definition claimed_treePath : regex :=
  Seq Bol (Seq (Plus true (Chr is_upper)) (Seq (Star true (Chr is_space))
  (Seq (chr ">") (Seq (Star true (Chr is_space))
  (Seq (Plus true (Chr is_upper))
  (Seq (Star true (Chr is_dot)) (Chr is_digit))))))).

(** Under the [i] flag [[A-Z]] matches the ASCII letters and nothing
    else: [Canonicalize] never takes a code unit outside ASCII to one
    inside. *)
Definition lettersOnly (rt : Runtime) : Prop :=
  forall c, ci_upper (canonicalize rt) c = true ->
            is_upper c || is_lower c = true.

End Actions.

(* ================================================================== *)
(** * Messages exchanged with the model *)
(* ================================================================== *)

Module Llm.

Record FunctionCall := { name : jsstring; arguments : jsstring }.

(** [ToolCall]; the constant [type: 'function'] is left out. *)
Record ToolCall := { id : jsstring; function : FunctionCall }.

(** [Message].  A tool result carries whatever value the executor
    produced; the type annotation [string] is not enforced at run time. *)
Inductive Message :=
| SystemMessage (content : jsstring)
| UserMessage (content : jsstring)
| AssistantMessage (content : option jsstring)
                   (tool_calls : option (list ToolCall))
| ToolResultMessage (tool_call_id : jsstring) (content : jsval).

End Llm.

Import Llm.

(* ================================================================== *)
(** * Security guard *)
(* ================================================================== *)

Module Guard.

Import Effects Re.
Local Open Scope prog_scope.

(** [DESTRUCTIVE_KEYWORDS] *)
Definition DESTRUCTIVE_KEYWORDS : list jsstring := map lit [
  "удалить"; "удаление"; "оплатить"; "оплата"; "отправить"; "подтвердить";
  "купить"; "заказать"; "отменить"; "отписаться"; "перевести"; "перевод";
  "подписать"; "согласиться"; "удалить аккаунт"; "сбросить";
  "delete"; "remove"; "pay"; "payment"; "checkout"; "submit"; "send";
  "purchase"; "buy"; "order"; "confirm"; "cancel"; "unsubscribe";
  "transfer"; "sign"; "agree"; "delete account"; "reset"
]%string.

(** The tools [checkAction] approves without looking further. *)
Definition META_TOOLS : list jsstring := map lit [
  "read_page"; "scroll"; "wait"; "ask_user"; "done"; "hover"; "go_back";
  "navigate"
]%string.

(** The tools whose arguments and page context are searched for
    keywords. *)
Definition CONTEXT_TOOLS : list jsstring := map lit [
  "click"; "type"; "press_key"; "select_option"
]%string.

Section WithRuntime.

Variable rt : Runtime.

(** An alternation of literals under the [i] flag. *)
Definition anyOfCI (alts : list string) : regex :=
  fold_right (fun a r => Alt (LitCI (canonicalize rt) (lit a)) r)
             (Chr (fun _ => false)) alts.

(** [DESTRUCTIVE_TOOL_PATTERNS] *)
Definition DESTRUCTIVE_TOOL_PATTERNS : list (jsstring * regex) := [
  (lit "click",
   anyOfCI ["удалить"; "delete"; "pay"; "оплат"; "submit"; "отправ";
            "купить"; "buy"; "checkout"; "заказ"; "order"; "confirm";
            "подтверд"]%string);
  (lit "press_key", anyOfCI ["Enter"]%string)
].

(** [SecurityGuard.isDestructiveAction] *)
Definition isDestructiveAction (toolName argsStr pageContext : jsstring)
  : bool :=
  if existsb (fun pattern =>
                streq toolName (fst pattern) && test (snd pattern) argsStr)
             DESTRUCTIVE_TOOL_PATTERNS
  then true
  else if existsb (streq toolName) CONTEXT_TOOLS then
    let contextLower := toLowerCase rt pageContext in
    let argsLower := toLowerCase rt argsStr in
    existsb (fun keyword =>
               includes argsLower keyword
               || (includes contextLower keyword
                   && streq toolName (lit "click")
                   && (includes contextLower (lit "checkout")
                       || includes contextLower (lit "оплат")
                       || includes contextLower (lit "корзин")
                       || includes contextLower (lit "удален")
                       || includes contextLower (lit "подтвержд"))))
            DESTRUCTIVE_KEYWORDS
  else false.

(** The prompt shown to the user. *)
Definition confirmPrompt (name argsStr pageContext : jsstring) : jsstring :=
  lit "⚠️  This action may be destructive (payment, deletion, submission)."
  ++ LF ++ lit "   Action: " ++ name ++ lit "(" ++ argsStr ++ lit ")"
  ++ LF ++ lit "   Page: " ++ pageContext
  ++ LF ++ lit "   Allow this action? (y/n)".

(** [SecurityGuard.checkAction]: [true] allows the action. *)
Definition checkAction (toolCall : ToolCall) (pageContext : jsstring)
  : prog bool :=
  let name := name (function toolCall) in
  let argsStr := arguments (function toolCall) in
  if existsb (streq name) META_TOOLS then Ret true
  else
    let isDestructive := isDestructiveAction name argsStr pageContext in
    if isDestructive then
      answer <- await (Confirm (confirmPrompt name argsStr pageContext));;
      let allowed := startsWith (toLowerCase rt answer) (lit "y") in
      Ret allowed
    else Ret true.

End WithRuntime.

End Guard.

(* ================================================================== *)
(** * Context manager *)
(* ================================================================== *)

Module Context.

Local Open Scope Z_scope.

Record ContextManager := {
  messages : list Message;
  task : jsstring;
  actionHistory : list jsstring;
  maxHistoryMessages : Z;
  tokenBudget : Z
}.

(** [new ContextManager(maxHistoryMessages, tokenBudget)] *)
Definition create (maxHistoryMessages tokenBudget : Z) : ContextManager :=
  {| messages := []; task := []; actionHistory := [];
     maxHistoryMessages := maxHistoryMessages; tokenBudget := tokenBudget |}.

(** [new ContextManager()] *)
Definition default : ContextManager := create 10 8000.

Definition withMessages (c : ContextManager) (ms : list Message)
  : ContextManager :=
  {| messages := ms; task := task c; actionHistory := actionHistory c;
     maxHistoryMessages := maxHistoryMessages c;
     tokenBudget := tokenBudget c |}.

Definition withHistory (c : ContextManager) (h : list jsstring)
  : ContextManager :=
  {| messages := messages c; task := task c; actionHistory := h;
     maxHistoryMessages := maxHistoryMessages c;
     tokenBudget := tokenBudget c |}.

(** A method's effect on the manager: its state afterwards, and the
    exception it raised, if any.  What was written before a [throw]
    stays written. *)
Record effect := { state : ContextManager; raised : option thrown }.

Definition ok (c : ContextManager) : effect :=
  {| state := c; raised := None |}.
Definition raise (c : ContextManager) (e : thrown) : effect :=
  {| state := c; raised := Some e |}.

(** [ContextManager.setTask] *)
Definition setTask (task : jsstring) (c : ContextManager) : ContextManager :=
  {| messages := []; task := task; actionHistory := [];
     maxHistoryMessages := maxHistoryMessages c;
     tokenBudget := tokenBudget c |}.

(** [ContextManager.clear] *)
Definition clear (c : ContextManager) : ContextManager :=
  {| messages := []; task := []; actionHistory := [];
     maxHistoryMessages := maxHistoryMessages c;
     tokenBudget := tokenBudget c |}.

(** [msg.role === 'tool'] and [msg.role === 'user'] *)
Definition isTool (msg : Message) : bool :=
  match msg with ToolResultMessage _ _ => true | _ => false end.
Definition isUser (msg : Message) : bool :=
  match msg with UserMessage _ => true | _ => false end.

(** Reading property [prop] of [undefined] or [null]. *)
Definition cannotRead (v : jsval) (prop : jsstring) : thrown :=
  notAString [] prop v.

(** [ContextManager.findSafeWindowStart]: the loop
    [while (start > 0 && messages[start].role === 'tool') start--].
    An index past the end reads [undefined], whose [.role] throws. *)
Fixpoint findSafeWindowStart (messages : list Message) (start : nat)
  : thrown + nat :=
  match start with
  | O => inr O
  | S start' =>
    match nth_error messages start with
    | None => inl (cannotRead VUndefined (lit "role"))
    | Some msg =>
      if isTool msg then findSafeWindowStart messages start'
      else inr start
    end
  end.

Definition messageCount (c : ContextManager) : Z :=
  Z.of_nat (length (messages c)).

(** [ContextManager.getRecentMessages] *)
Definition getRecentMessages (c : ContextManager)
  : thrown + list Message :=
  if messageCount c <=? maxHistoryMessages c then inr (messages c)
  else
    let targetStart := messageCount c - maxHistoryMessages c in
    match findSafeWindowStart (messages c) (Z.to_nat targetStart) with
    | inl e => inl e
    | inr safeStart => inr (skipn safeStart (messages c))
    end.

(** [summarizeActions] of [prompts.ts] *)
Definition summarizeActions (actionDescriptions : list jsstring)
  : jsstring :=
  match actionDescriptions with
  | [] => []
  | _ =>
    lit "Previous actions taken:" ++ LF
    ++ join LF
         (map (fun ia => string_of_Z (Z.of_nat (fst ia)) ++ lit ". "
                         ++ snd ia)
              (combine (seq 1 (length actionDescriptions))
                       actionDescriptions))
  end.

(** [ContextManager.addAssistantMessage] *)
Definition addAssistantMessage (content : option jsstring)
    (toolCalls : option (list ToolCall)) (c : ContextManager)
  : ContextManager :=
  withMessages c (messages c ++ [AssistantMessage content toolCalls]).

(** [ContextManager.removeLastObservation]: the messages without their
    last user message, or [None] when there is none. *)
Fixpoint removeLastUser (ms : list Message) : option (list Message) :=
  match ms with
  | [] => None
  | msg :: rest =>
    match removeLastUser rest with
    | Some rest' => Some (msg :: rest')
    | None => if isUser msg then Some rest else None
    end
  end.

Definition removeLastObservation (c : ContextManager) : ContextManager :=
  match removeLastUser (messages c) with
  | Some ms => withMessages c ms
  | None => c
  end.

(** [Math.ceil(n / 4)] *)
Definition ceilQuarter (n : number) : number := Math_ceil (div n (ofZ 4)).

(** [v.length] of a value that is neither [undefined] nor [null] *)
Definition lengthProperty (v : jsval) : jsval :=
  match v with
  | VStr s => VNum (ofZ (strlen s))
  | VArr items => VNum (ofZ (Z.of_nat (length items)))
  | VObj fields => lookup (lit "length") fields
  | _ => VUndefined
  end.

(** Truthiness *)
Definition truthy (v : jsval) : bool :=
  match v with
  | VUndefined | VNull => false
  | VBool b => b
  | VNum n =>
    match n with
    | S754_zero _ | S754_nan => false
    | _ => true
    end
  | VStr s => negb (streq s [])
  | VArr _ | VObj _ => true
  end.

(** [Object.entries(v)] *)
Definition entries (v : jsval) : thrown + list (jsstring * jsval) :=
  match v with
  | VUndefined | VNull =>
    inl (ErrorObj (lit "Cannot convert undefined or null to object"))
  | VObj fields => inr fields
  | VArr items =>
    inr (combine (map (fun i => string_of_Z (Z.of_nat i))
                      (seq 0 (length items))) items)
  | VStr s =>
    inr (combine (map (fun i => string_of_Z (Z.of_nat i))
                      (seq 0 (length s)))
                 (map (fun c => VStr [c]) s))
  | VBool _ | VNum _ => inr []
  end.

(** [`${result.slice(0, n)}`] *)
Definition sliceText (result : jsval) (n : Z) : thrown + jsstring :=
  match result with
  | VStr s => inr (slice s 0 n)
  | VArr items => inr (ToString (VArr (firstn (Z.to_nat n) items)))
  | v => inl (notAString (lit "result") (lit "slice") v)
  end.

(** [tcs] includes a tool call with id [i]. *)
Definition carries (tcs : option (list ToolCall)) (i : jsstring) : Prop :=
  exists calls tc, tcs = Some calls /\ In tc calls /\ id tc = i.

(** The property of the claim: each tool result in [ms] comes after an
    assistant message of [ms] whose tool calls include its id. *)
Definition answered (ms : list Message) : Prop :=
  forall k i v,
    nth_error ms k = Some (ToolResultMessage i v) ->
    exists j content tcs,
      (j < k)%nat /\
      nth_error ms j = Some (AssistantMessage content tcs) /\
      carries tcs i.

(** The discipline of the log, read from left to right: [owner] is the
    tool-call list of the assistant message whose results are being
    collected, if any; a tool result must belong to it, and any other
    message closes the collection. *)
Fixpoint paired (owner : option (list ToolCall)) (ms : list Message)
  : Prop :=
  match ms with
  | [] => True
  | ToolResultMessage i _ :: rest => carries owner i /\ paired owner rest
  | AssistantMessage _ tcs :: rest => paired tcs rest
  | _ :: rest => paired None rest
  end.

(** The owner in force after [ms]. *)
Fixpoint ownerAfter (owner : option (list ToolCall)) (ms : list Message)
  : option (list ToolCall) :=
  match ms with
  | [] => owner
  | ToolResultMessage _ _ :: rest => ownerAfter owner rest
  | AssistantMessage _ tcs :: rest => ownerAfter tcs rest
  | _ :: rest => ownerAfter None rest
  end.

(** The log is waiting for the result of [tc]: it ends with an assistant
    message that carries [tc], followed by tool results only. *)
Definition awaiting (ms : list Message) (tc : ToolCall) : Prop :=
  exists before content calls results,
    ms = before ++ AssistantMessage content (Some calls) :: results /\
    forallb isTool results = true /\
    In tc calls.

Section WithRuntime.

Variable rt : Runtime.

(** [buildSystemPrompt] of [prompts.ts]: the task set in the fixed prompt
    text.  The wording of the prompt plays no part in what follows. *)
Variable buildSystemPrompt : jsstring -> jsstring.

(** [ContextManager.getMessages] *)
Definition getMessages (c : ContextManager) : thrown + list Message :=
  let systemMessage := SystemMessage (buildSystemPrompt (task c)) in
  let summary :=
    if (0 <? Z.of_nat (length (actionHistory c)))
    then [UserMessage (summarizeActions (actionHistory c))]
    else [] in
  match getRecentMessages c with
  | inl e => inl e
  | inr recentMessages => inr ([systemMessage] ++ summary ++ recentMessages)
  end.

(** The two steps of the loop of [estimateTokens]: what the content of
    a message adds to [total], then what its tool calls add. *)
Definition addContent (total : number) (msg : Message) : number :=
  match msg with
  | SystemMessage s | UserMessage s | AssistantMessage (Some s) _ =>
    if streq s [] then total
    else add total (ceilQuarter (ofZ (strlen s)))
  | AssistantMessage None _ => total
  | ToolResultMessage _ v =>
    if truthy v
    then add total (ceilQuarter (ToNumber rt (lengthProperty v)))
    else total
  end.

Definition addToolCalls (total : number) (msg : Message) : number :=
  match msg with
  | AssistantMessage _ (Some tcs) =>
    fold_left (fun total tc =>
      add total
        (add (ceilQuarter (ofZ (strlen (arguments (function tc)))))
             (ofZ 10)))
      tcs total
  | _ => total
  end.

(** [ContextManager.estimateTokens] *)
Definition estimateTokens (ms : list Message) : number :=
  fold_left (fun total msg => addToolCalls (addContent total msg) msg)
            ms (ofZ 0).

(** [a > b] *)
Definition gt (a : number) (b : Z) : bool := ltb (ofZ b) a.

(** [ContextManager.compressIfNeeded] *)
Definition compressIfNeeded (c : ContextManager) : effect :=
  let totalTokens := estimateTokens (messages c) in
  if gt totalTokens (tokenBudget c)
     && (maxHistoryMessages c <? messageCount c)
  then
    let targetStart := messageCount c - maxHistoryMessages c in
    match findSafeWindowStart (messages c) (Z.to_nat targetStart) with
    | inl e => raise c e
    | inr safeStart => ok (withMessages c (skipn safeStart (messages c)))
    end
  else ok c.

(** [ContextManager.addObservation] *)
Definition addObservation (content : jsstring) (c : ContextManager)
  : effect :=
  compressIfNeeded (withMessages c (messages c ++ [UserMessage content])).

(** [ContextManager.addToolResult] *)
Definition addToolResult (toolCall : ToolCall) (result : jsval)
    (c : ContextManager) : effect :=
  let c1 :=
    withMessages c
      (messages c ++ [ToolResultMessage (id toolCall) result]) in
  match result with
  | VUndefined | VNull => raise c1 (cannotRead result (lit "length"))
  | _ =>
    let summaryLen :=
      if gt (ToNumber rt (lengthProperty result)) 1000 then 300 else 100 in
    let name := name (function toolCall) in
    let withArgs : option jsstring :=
      match JSON_parse rt (arguments (function toolCall)) with
      | None => None
      | Some args =>
        match entries args with
        | inl _ => None
        | inr es =>
          let argStr :=
            join (lit ", ")
                 (map (fun kv => fst kv ++ lit "="
                                 ++ JSON_stringify rt (snd kv)) es) in
          match sliceText result summaryLen with
          | inl _ => None
          | inr cut => Some (name ++ lit "(" ++ argStr ++ lit ") → " ++ cut)
          end
        end
      end in
    match withArgs with
    | Some entry => ok (withHistory c1 (actionHistory c1 ++ [entry]))
    | None =>
      match sliceText result summaryLen with
      | inl e => raise c1 e
      | inr cut =>
        ok (withHistory c1 (actionHistory c1 ++ [name ++ lit " → " ++ cut]))
      end
    end
  end.

(** The managers that the operations of the class produce, a tool result
    being added only while the log is waiting for it. *)
Inductive produced : ContextManager -> Prop :=
| P_create maxHistoryMessages tokenBudget :
    produced (create maxHistoryMessages tokenBudget)
| P_setTask task c : produced c -> produced (setTask task c)
| P_clear c : produced c -> produced (clear c)
| P_addObservation content c :
    produced c -> produced (state (addObservation content c))
| P_addAssistantMessage content toolCalls c :
    produced c -> produced (addAssistantMessage content toolCalls c)
| P_addToolResult toolCall result c :
    produced c -> awaiting (messages c) toolCall ->
    produced (state (addToolResult toolCall result c))
| P_removeLastObservation c :
    produced c -> produced (removeLastObservation c).

(** The invariant of the loop over the tool calls: the log is produced
    and is waiting for each call still to come. *)
Definition waitingFor (calls : list ToolCall) (c : ContextManager) : Prop :=
  produced c /\ forall tc, In tc calls -> awaiting (messages c) tc.

End WithRuntime.

End Context.

(* ================================================================== *)
(** * Page extractor: the snapshot *)
(* ================================================================== *)

Module Snapshot.

Import Effects Extractor.
Local Open Scope prog_scope.

(** [PageExtractor.extract].  [fallbackExtract] and the scroll arithmetic
    run inside the page; each is one operation answering with the string
    it built. *)
Definition extract (tokenBudget : Z) (page : Page) : prog jsstring :=
  try
    Race 10000 (WaitForLoadState page) (fun _ => Ret tt);;
    url <- get (PageUrl page);;
    title <- withTimeout (Title page) 5000 (lit "Loading...");;
    ariaTree <-
      (try
         ariaTree <- withTimeout (AriaSnapshot page 10000) 15000 [];;
         if streq ariaTree [] then
           Throw (ErrorObj (lit "ARIA snapshot returned empty"))
         else Ret ariaTree
       catch _e =>
         withTimeout (EvaluateWalk page) 10000
                     (lit "[Page content unavailable]"));;
    let truncated := truncateToTokenBudget tokenBudget ariaTree in
    scrollInfo <-
      withTimeout (EvaluateScrollInfo page) 5000 (lit "Scroll: unknown");;
    Ret (join LF [lit "Page: " ++ title; lit "URL: " ++ url; scrollInfo;
                  []; lit "Accessibility Tree:"; truncated])
  catch error =>
    Ret (lit "Error extracting page content: " ++ errorText error).

End Snapshot.

(* ================================================================== *)
(** * Tool executor *)
(* ================================================================== *)

Module Executor.

Import Effects.
Local Open Scope prog_scope.

(** [ToolExecutionResult]; an absent optional field is [None]. *)
Record ToolExecutionResult := {
  result : jsval;
  isDone : bool;
  doneSummary : option jsval;
  needsUserInput : bool;
  userQuestion : option jsval
}.

Definition plainResult (result : jsstring) : ToolExecutionResult :=
  {| result := VStr result; isDone := false; doneSummary := None;
     needsUserInput := false; userQuestion := None |}.

(** The executor's own fields: the page its [BrowserActions] holds and
    the extractor's token budget. *)
Record ToolExecutor := {
  actionsPage : Page;
  extractorBudget : Z
}.

(** [ToolExecutor.updatePage] *)
Definition updatePage (page : Page) (ex : ToolExecutor) : ToolExecutor :=
  {| actionsPage := page; extractorBudget := extractorBudget ex |}.

(** The names of [toolDefinitions], in order. *)
Definition toolNames : list jsstring := map lit [
  "navigate"; "click"; "type"; "scroll"; "read_page"; "go_back";
  "select_option"; "press_key"; "hover"; "wait"; "ask_user"; "done"
]%string.

(** [args.key] *)
Definition prop (args : jsval) (key : string) : prog jsval :=
  match args with
  | VUndefined | VNull => Throw (Context.cannotRead args (lit key))
  | VObj fields => Ret (lookup (lit key) fields)
  | _ => Ret VUndefined
  end.

(** [ToolExecutor.getPageContextForSecurity] *)
Definition getPageContextForSecurity (page : Page) : prog jsstring :=
  try
    title <- await (Title page);;
    url <- get (PageUrl page);;
    Ret (title ++ lit " (" ++ url ++ lit ")")
  catch _e => Ret (lit "unknown page").

Section WithRuntime.

Variable rt : Runtime.

Definition named (name : jsstring) (tool : string) : bool :=
  streq name (lit tool).

(** The [switch (name)] of [execute]. *)
Definition dispatch (ex : ToolExecutor) (name : jsstring) (args : jsval)
    (page : Page) : prog ToolExecutionResult :=
  let actions := actionsPage ex in
  if named name "navigate" then
    url <- prop args "url";;
    result <- Actions.navigate actions url;;
    Ret (plainResult result)
  else if named name "click" then
    selector <- prop args "selector";;
    result <- Actions.click rt actions selector;;
    Ret (plainResult result)
  else if named name "type" then
    selector <- prop args "selector";;
    text <- prop args "text";;
    result <- Actions.type rt actions selector text;;
    Ret (plainResult result)
  else if named name "scroll" then
    direction <- prop args "direction";;
    result <- Actions.scroll actions direction;;
    Ret (plainResult result)
  else if named name "read_page" then
    content <- Snapshot.extract (extractorBudget ex) page;;
    Ret (plainResult content)
  else if named name "go_back" then
    result <- Actions.goBack actions;;
    Ret (plainResult result)
  else if named name "select_option" then
    selector <- prop args "selector";;
    value <- prop args "value";;
    result <- Actions.selectOption rt actions selector value;;
    Ret (plainResult result)
  else if named name "press_key" then
    key <- prop args "key";;
    result <- Actions.pressKey actions key;;
    Ret (plainResult result)
  else if named name "hover" then
    selector <- prop args "selector";;
    result <- Actions.hover rt actions selector;;
    Ret (plainResult result)
  else if named name "wait" then
    ms <- prop args "ms";;
    result <- Actions.wait rt actions ms;;
    Ret (plainResult result)
  else if named name "ask_user" then
    question <- prop args "question";;
    answer <- await (AskUser question);;
    Ret {| result := VStr (lit "User answered: " ++ answer);
           isDone := false; doneSummary := None;
           needsUserInput := true; userQuestion := Some question |}
  else if named name "done" then
    summary <- prop args "summary";;
    Ret {| result := summary; isDone := true;
           doneSummary := Some summary;
           needsUserInput := false; userQuestion := None |}
  else
    Ret (plainResult
           (lit "Unknown tool: " ++ DQ ++ name ++ DQ
            ++ lit ". Available tools: " ++ join (lit ", ") toolNames)).

(** [ToolExecutor.execute] *)
Definition execute (ex : ToolExecutor) (toolCall : ToolCall) (page : Page)
  : prog ToolExecutionResult :=
  let name := name (function toolCall) in
  let argsStr := arguments (function toolCall) in
  match JSON_parse rt argsStr with
  | None =>
    Ret (plainResult
           (lit "Error: Invalid JSON arguments for tool " ++ DQ ++ name
            ++ DQ ++ lit ": " ++ argsStr))
  | Some args =>
    pageContext <- getPageContextForSecurity page;;
    allowed <- Guard.checkAction rt toolCall pageContext;;
    if negb allowed then
      Ret (plainResult
             (lit "Action was blocked by user (security check). Try a different approach or ask the user."))
    else
      try dispatch ex name args page
      catch error =>
        Ret (plainResult
               (lit "Tool " ++ DQ ++ name ++ DQ ++ lit " execution error: "
                ++ errorText error))
  end.

End WithRuntime.

End Executor.

(* ================================================================== *)
(** * Browser manager *)
(* ================================================================== *)

Module Manager.

Import Effects.
Local Open Scope prog_scope.

(** [BrowserManager]: [launched] says that [context] is not [null]. *)
Record BrowserManager := { launched : bool }.

(** [this.context.pages().filter(p => !p.isClosed())] *)
Fixpoint keepOpen (pages : list Page) : prog (list Page) :=
  match pages with
  | [] => Ret []
  | p :: rest =>
    closed <- get (PageIsClosed p);;
    open <- keepOpen rest;;
    Ret (if closed : bool then open else p :: open)
  end.

Definition openPages : prog (list Page) :=
  pages <- get ContextPages;;
  keepOpen pages.

(** [BrowserManager.getActivePage] *)
Definition getActivePage (bm : BrowserManager) : prog Page :=
  if negb (launched bm) then Throw (ErrorObj (lit "Browser not launched"))
  else
    pages <- openPages;;
    match rev pages with
    | [] => Throw (ErrorObj (lit "No pages open in browser"))
    | active :: _ => Ret active
    end.

Fixpoint closeAllBut (activePage : Page) (pages : list Page) : prog unit :=
  match pages with
  | [] => Ret tt
  | page :: rest =>
    (if negb (Nat.eqb page activePage) then await_quiet (ClosePage page)
     else Ret tt);;
    closeAllBut activePage rest
  end.

(** [BrowserManager.closeExtraTabs] *)
Definition closeExtraTabs (bm : BrowserManager) : prog unit :=
  if negb (launched bm) then Ret tt
  else
    pages <- openPages;;
    match rev pages with
    | [] | [_] => Ret tt
    | activePage :: _ => closeAllBut activePage pages
    end.

End Manager.

(* ================================================================== *)
(** * Agent loop *)
(* ================================================================== *)

Module Agent.

Import Effects Context Executor Manager.
Local Open Scope prog_scope.

(** One entry of [recentActions]. *)
Record ActionEntry := { action : jsstring; url : jsstring }.

(** The body of the oscillation loop of [isStuck] at index [i]. *)
Definition visitStep (allActions : list ActionEntry) (currentUrl : jsstring)
    (visits : nat) (i : nat) : nat :=
  match nth_error allActions i with
  | Some e =>
    if streq (url e) currentUrl then
      if (i =? 0)%nat
         || match nth_error allActions (i - 1) with
            | Some p => negb (streq (url p) currentUrl)
            | None => false
            end
      then S visits else visits
    else visits
  | None => visits
  end.

(** [BrowserAgent.isStuck] *)
Definition isStuck (recentActions : list ActionEntry)
    (currentAction currentUrl : jsstring) : bool :=
  let n := length recentActions in
  if (2 <=? n)%nat
     && match nth_error recentActions (n - 1),
              nth_error recentActions (n - 2) with
        | Some last, Some secondLast =>
          streq (action last) currentAction && streq (url last) currentUrl
          && streq (action secondLast) currentAction
          && streq (url secondLast) currentUrl
        | _, _ => false
        end
  then true
  else
    let allActions :=
      recentActions ++ [{| action := currentAction; url := currentUrl |}] in
    let visits :=
      fold_left (visitStep allActions currentUrl)
                (seq 0 (length allActions)) 0%nat in
    if (3 <=? visits)%nat then true else false.

(** The entry of [l] at index [i] is a visit to [u]: it is on [u], and it
    is the first entry or its predecessor is on another url. *)
Definition is_visit (l : list ActionEntry) (u : jsstring) (i : nat) : Prop :=
  exists e, nth_error l i = Some e /\ url e = u /\
    (i = 0%nat \/ exists p, nth_error l (i - 1) = Some p /\ url p <> u).

(** The fields of [BrowserAgent] and the locals of [run] that the
    tool-call branch reads or writes. *)
Record RunState := {
  context : ContextManager;
  toolExecutor : ToolExecutor;
  browserManager : BrowserManager;
  page : Page;
  isDone : bool;
  summary : jsval;
  consecutiveFailures : Z;
  textOnlyRetries : Z;
  recentActions : list ActionEntry
}.

Definition withContext (st : RunState) (c : ContextManager) : RunState :=
  {| context := c; toolExecutor := toolExecutor st;
     browserManager := browserManager st; page := page st;
     isDone := isDone st; summary := summary st;
     consecutiveFailures := consecutiveFailures st;
     textOnlyRetries := textOnlyRetries st;
     recentActions := recentActions st |}.

Definition withRecentActions (st : RunState) (r : list ActionEntry)
  : RunState :=
  {| context := context st; toolExecutor := toolExecutor st;
     browserManager := browserManager st; page := page st;
     isDone := isDone st; summary := summary st;
     consecutiveFailures := consecutiveFailures st;
     textOnlyRetries := textOnlyRetries st;
     recentActions := r |}.

Definition withPage (st : RunState) (p : Page) : RunState :=
  {| context := context st;
     toolExecutor := updatePage p (toolExecutor st);
     browserManager := browserManager st; page := p;
     isDone := isDone st; summary := summary st;
     consecutiveFailures := consecutiveFailures st;
     textOnlyRetries := textOnlyRetries st;
     recentActions := recentActions st |}.

Definition finished (st : RunState) (s : jsval) : RunState :=
  {| context := context st; toolExecutor := toolExecutor st;
     browserManager := browserManager st; page := page st;
     isDone := true; summary := s;
     consecutiveFailures := consecutiveFailures st;
     textOnlyRetries := textOnlyRetries st;
     recentActions := recentActions st |}.

Definition withCounters (st : RunState) (failures retries : Z) : RunState :=
  {| context := context st; toolExecutor := toolExecutor st;
     browserManager := browserManager st; page := page st;
     isDone := isDone st; summary := summary st;
     consecutiveFailures := failures;
     textOnlyRetries := retries;
     recentActions := recentActions st |}.

(** How one pass through the body of [for (const toolCall of ...)] ends:
    with the next call, with [break], or with an exception that leaves
    the loop for the [catch] of the iteration. *)
Inductive flow :=
| Next
| Break
| Raise (e : thrown).

Section WithRuntime.

Variable rt : Runtime.

(** The warning injected instead of a repeated action. *)
Definition stuckMsg (toolCall : ToolCall) : jsstring :=
  lit "You are repeating the action " ++ DQ ++ name (function toolCall)
  ++ DQ
  ++ lit " with the same arguments on the same page, which seems ineffective. STOP. Try a different approach (search, tab navigation, or ask_user).".

(** [`${name}(${arguments})`] *)
Definition toolDescription (toolCall : ToolCall) : jsstring :=
  name (function toolCall) ++ lit "(" ++ arguments (function toolCall)
  ++ lit ")".

(** [recentActions.push(e); if (recentActions.length > 10)
    recentActions.shift()] *)
Definition remember (recent : list ActionEntry) (e : ActionEntry)
  : list ActionEntry :=
  let pushed := recent ++ [e] in
  if (10 <? length pushed)%nat then tl pushed else pushed.

(** [result.doneSummary || 'Task completed'] *)
Definition summaryOr (doneSummary : option jsval) : jsval :=
  match doneSummary with
  | Some v => if truthy v then v else VStr (lit "Task completed")
  | None => VStr (lit "Task completed")
  end.

(** The body of the loop over the tool calls of one response. *)
Definition processToolCall (toolCall : ToolCall) (st : RunState)
  : prog (RunState * flow) :=
  let toolDesc := toolDescription toolCall in
  currentUrl <- get (PageUrl (page st));;
  if isStuck (recentActions st) toolDesc currentUrl then
    let added :=
      addToolResult rt toolCall (VStr (stuckMsg toolCall)) (context st) in
    let st := withContext st (state added) in
    match raised added with
    | Some e => Ret (st, Raise e)
    | None => Ret (st, Next)
    end
  else
    let st :=
      withRecentActions st
        (remember (recentActions st)
                  {| action := toolDesc; url := currentUrl |}) in
    executed <-
      (try
         result <- execute rt (toolExecutor st) toolCall (page st);;
         Ret (inr result)
       catch e => Ret (inl e));;
    match executed with
    | inl e => Ret (st, Raise e)
    | inr result =>
      st <-
        (try
           closeExtraTabs (browserManager st);;
           active <- getActivePage (browserManager st);;
           Ret (withPage st active)
         catch _e => Ret st);;
      let added :=
        addToolResult rt toolCall (Executor.result result) (context st) in
      let st := withContext st (state added) in
      match raised added with
      | Some e => Ret (st, Raise e)
      | None =>
        if Executor.isDone result then
          Ret (finished st (summaryOr (doneSummary result)), Break)
        else Ret (st, Next)
      end
    end.

(** [for (const toolCall of response.toolCalls) { ... }] *)
Fixpoint processToolCalls (toolCalls : list ToolCall) (st : RunState)
  : prog (RunState * option thrown) :=
  match toolCalls with
  | [] => Ret (st, None)
  | toolCall :: rest =>
    step <- processToolCall toolCall st;;
    match snd step with
    | Next => processToolCalls rest (fst step)
    | Break => Ret (fst step, None)
    | Raise e => Ret (fst step, Some e)
    end
  end.

(** The branch of [run] taken when the response carries tool calls; an
    exception, returned with the state it leaves, goes to the [catch] of
    the iteration. *)
Definition actOnToolCalls (content : option jsstring)
    (toolCalls : list ToolCall) (st : RunState)
  : prog (RunState * option thrown) :=
  let st := withCounters st (consecutiveFailures st) 0 in
  let st :=
    withContext st
      (addAssistantMessage content (Some toolCalls) (context st)) in
  done <- processToolCalls toolCalls st;;
  match snd done with
  | None =>
    Ret (withCounters (fst done) 0 (textOnlyRetries (fst done)), None)
  | Some e => Ret done
  end.

End WithRuntime.

End Agent.

(* ================================================================== *)
(** * A runtime and two environments to run the code on *)
(* ================================================================== *)

Module Example.

Import Effects Re.

Local Open Scope N_scope.

(** Case mapping of one code unit, for ASCII and the basic Cyrillic
    block; Node maps these the same way. *)
Definition lowerUnit (c : codeunit) : codeunit :=
  if is_upper c then c + 32
  else if (1040 <=? c) && (c <=? 1071) then c + 32
  else if (1024 <=? c) && (c <=? 1039) then c + 80
  else c.

Definition upperUnit (c : codeunit) : codeunit :=
  if is_lower c then c - 32
  else if (1072 <=? c) && (c <=? 1103) then c - 32
  else if (1104 <=? c) && (c <=? 1119) then c - 80
  else c.

Local Close Scope N_scope.
Local Open Scope Z_scope.

(** The value of a run of decimal digits; [None] on any other string. *)
Fixpoint digits (s : jsstring) (acc : Z) : option Z :=
  match s with
  | [] => Some acc
  | c :: t =>
    if is_digit c then digits t (10 * acc + (Z.of_N c - 48)) else None
  end.

Fixpoint spanDigits (s : jsstring) : jsstring * jsstring :=
  match s with
  | c :: t =>
    if is_digit c then let (d, r) := spanDigits t in (c :: d, r)
    else ([], s)
  | [] => ([], [])
  end.

Definition digitsValue (d : jsstring) : Z :=
  fold_left (fun acc c => 10 * acc + (Z.of_N c - 48)) d 0.

(** An exponent part, [e] or [E], a sign and digits: its value and what
    follows it; [0] where the text has none. *)
Definition readExponent (r : jsstring) : option (Z * jsstring) :=
  match r with
  | x :: r1 =>
    if N.eqb x 101 || N.eqb x 69 then
      let (negative, r2) :=
        match r1 with
        | y :: r2 =>
          if N.eqb y 45 then (true, r2)
          else if N.eqb y 43 then (false, r2) else (false, r1)
        | [] => (false, r1)
        end in
      let (d, r3) := spanDigits r2 in
      match d with
      | [] => None
      | _ => Some (if negative then - digitsValue d else digitsValue d, r3)
      end
    else Some (0, r)
  | [] => Some (0, r)
  end.

(** [StrUnsignedDecimalLiteral] *)
Definition unsignedDecimal (s : jsstring) : number :=
  if streq s (lit "Infinity") then S754_infinity false
  else
    let (int, r) := spanDigits s in
    let (frac, r') :=
      match r with
      | x :: r1 => if N.eqb x 46 then spanDigits r1 else ([], r)
      | [] => ([], r)
      end in
    match int ++ frac with
    | [] => NaN
    | mantissa =>
      match readExponent r' with
      | Some (t, []) =>
        ofDecimal (digitsValue mantissa) (t - Z.of_nat (length frac))
      | _ => NaN
      end
    end.

(** [NonDecimalIntegerLiteral]: the digits after [0x], [0o] or [0b]. *)
Definition digitOf (radix : Z) (c : codeunit) : option Z :=
  let v :=
    if is_digit c then Z.of_N c - 48
    else if (N.leb 97 c && N.leb c 102)%N then Z.of_N c - 87
    else if (N.leb 65 c && N.leb c 70)%N then Z.of_N c - 55
    else radix in
  if v <? radix then Some v else None.

Fixpoint radixValue (radix : Z) (s : jsstring) (acc : Z) : option Z :=
  match s with
  | [] => Some acc
  | c :: t =>
    match digitOf radix c with
    | Some v => radixValue radix t (radix * acc + v)
    | None => None
    end
  end.

Definition nonDecimal (s : jsstring) : option number :=
  match s with
  | zero :: x :: body =>
    let radix :=
      if N.eqb x 120 || N.eqb x 88 then 16
      else if N.eqb x 111 || N.eqb x 79 then 8
      else if N.eqb x 98 || N.eqb x 66 then 2 else 0 in
    if N.eqb zero 48 && negb (radix =? 0) then
      Some match body, radixValue radix body 0 with
           | _ :: _, Some n => ofZ n
           | _, _ => NaN
           end
    else None
  | _ => None
  end.

(** White space and line terminators, as [StringToNumber] trims them. *)
Definition isSpace (c : codeunit) : bool :=
  existsb (N.eqb c)
    [9; 10; 11; 12; 13; 32; 160; 5760; 8192; 8193; 8194; 8195; 8196; 8197;
     8198; 8199; 8200; 8201; 8202; 8232; 8233; 8239; 8287; 12288; 65279]%N.

Fixpoint trimStart (s : jsstring) : jsstring :=
  match s with
  | c :: t => if isSpace c then trimStart t else s
  | [] => []
  end.

(** [StringToNumber] *)
Definition decimal (s : jsstring) : number :=
  let text := rev (trimStart (rev (trimStart s))) in
  match text with
  | [] => ofZ 0
  | c :: t =>
    if N.eqb c 45 then SFopp (unsignedDecimal t)
    else if N.eqb c 43 then unsignedDecimal t
    else match nonDecimal text with
         | Some n => n
         | None => unsignedDecimal text
         end
  end.

(** A reader for flat JSON objects whose values are strings without
    escapes, numbers, [true], [false] or [null].  It answers [None] on
    every text that is not JSON. *)
Fixpoint skipWs (s : jsstring) : jsstring :=
  match s with
  | c :: t =>
    if N.eqb c 32 || N.eqb c 9 || N.eqb c 10 || N.eqb c 13 then skipWs t
    else s
  | [] => []
  end.

Fixpoint readString (s : jsstring) (acc : jsstring)
  : option (jsstring * jsstring) :=
  match s with
  | [] => None
  | c :: t =>
    if N.eqb c 34 then Some (rev acc, t)
    else if N.eqb c 92 || N.ltb c 32 then None
    else readString t (c :: acc)
  end.

(** A JSON number: [-]? then [0] or a run of digits that does not
    start with [0], then a fraction and an exponent, if any. *)
Definition readNumber (s : jsstring) : option (jsval * jsstring) :=
  let (negative, body) :=
    match s with
    | c :: t => if N.eqb c 45 then (true, t) else (false, s)
    | [] => (false, s)
    end in
  let (int, r) := spanDigits body in
  let fraction : option (jsstring * jsstring) :=
    match r with
    | x :: r1 =>
      if N.eqb x 46 then
        match spanDigits r1 with
        | ([], _) => None
        | found => Some found
        end
      else Some ([], r)
    | [] => Some ([], r)
    end in
  match int, fraction with
  | [], _ | _, None => None
  | c :: more, Some (frac, r') =>
    if N.eqb c 48 && negb (streq more []) then None
    else
      match readExponent r' with
      | Some (t, rest) =>
        let n :=
          ofDecimal (digitsValue (int ++ frac))
                    (t - Z.of_nat (length frac)) in
        Some (VNum (if negative then SFopp n else n), rest)
      | None => None
      end
  end.

Definition readValue (s : jsstring) : option (jsval * jsstring) :=
  match s with
  | c :: t =>
    if N.eqb c 34 then
      option_map (fun p => (VStr (fst p), snd p)) (readString t [])
    else if startsWith s (lit "true") then Some (VBool true, skipn 4 s)
    else if startsWith s (lit "false") then Some (VBool false, skipn 5 s)
    else if startsWith s (lit "null") then Some (VNull, skipn 4 s)
    else readNumber s
  | [] => None
  end.

(** The members of an object, read after its opening brace;
    [fuel] bounds their number. *)
Fixpoint readMembers (fuel : nat) (s : jsstring)
  : option (list (jsstring * jsval) * jsstring) :=
  match fuel with
  | O => None
  | S fuel' =>
    match skipWs s with
    | c :: t =>
      if N.eqb c 34 then
        match readString t [] with
        | Some (key, r) =>
          match skipWs r with
          | colon :: r1 =>
            if N.eqb colon 58 then
              match readValue (skipWs r1) with
              | Some (v, r2) =>
                match skipWs r2 with
                | d :: r3 =>
                  if N.eqb d 125 then Some ([(key, v)], r3)
                  else if N.eqb d 44 then
                    match readMembers fuel' r3 with
                    | Some (more, r4) =>
                      if existsb (fun kv => streq (fst kv) key) more
                      then None
                      else Some ((key, v) :: more, r4)
                    | None => None
                    end
                  else None
                | [] => None
                end
              | None => None
              end
            else None
          | [] => None
          end
        | None => None
        end
      else None
    | [] => None
    end
  end.

Definition parseFlat (s : jsstring) : option jsval :=
  match skipWs s with
  | c :: t =>
    if N.eqb c 123 then
      match skipWs t with
      | d :: r =>
        if N.eqb d 125 then
          match skipWs r with [] => Some (VObj []) | _ => None end
        else
          match readMembers (length s) t with
          | Some (fields, r') =>
            match skipWs r' with
            | [] =>
              if existsb (fun kv => match digits (fst kv) 0 with
                                    | Some _ => true
                                    | None => false
                                    end) fields
              then None else Some (VObj fields)
            | _ => None
            end
          | None => None
          end
      | [] => None
      end
    else
      match readValue (skipWs s) with
      | Some (v, r) => match skipWs r with [] => Some v | _ => None end
      | None => None
      end
  | [] => None
  end.

(** [JSON.stringify] of such values. *)
Definition escapeUnit (c : codeunit) : jsstring :=
  if N.eqb c 34 then [92; 34]%N
  else if N.eqb c 92 then [92; 92]%N
  else if N.eqb c 10 then [92; 110]%N
  else [c].

Definition quote (s : jsstring) : jsstring :=
  DQ ++ flat_map escapeUnit s ++ DQ.

Fixpoint stringify (v : jsval) : jsstring :=
  match v with
  | VStr s => quote s
  | VNum n =>
    match n with
    | S754_nan | S754_infinity _ => lit "null"
    | _ => Number_toString n
    end
  | VBool true => lit "true"
  | VBool false => lit "false"
  | VNull | VUndefined => lit "null"
  | VArr items => lit "[" ++ join (lit ",") (map stringify items) ++ lit "]"
  | VObj fields =>
    lit "{"
    ++ join (lit ",")
         (map (fun kv : jsstring * jsval =>
                 let (k, x) := kv in quote k ++ lit ":" ++ stringify x)
              fields)
    ++ lit "}"
  end.

(** The runtime: it agrees with Node on ASCII and basic Cyrillic text,
    on numeric strings, and on the JSON texts it reads. *)
Definition runtime : Runtime := {|
  toLowerCase := map lowerUnit;
  canonicalize := upperUnit;
  stringToNumber := decimal;
  JSON_parse := parseFlat;
  JSON_stringify := stringify
|}.

(** A page that answers every operation. *)
Definition answer (title : jsstring) (c : call) : cresp c :=
  match c with
  | Title _ => title
  | AriaSnapshot _ _ => lit "- heading " ++ DQ ++ title ++ DQ
  | EvaluateScrollInfo _ => lit "Scroll: 0% (0px / 900px total)"
  | EvaluateWalk _ => lit "- body"
  | Confirm _ => lit "n"
  | AskUser _ => lit "yes"
  | EvaluateScrollY _ => ofZ 0
  | Screenshot _ => 2048
  | _ => tt
  end.

(** The environment of a page that stays on [url]; its state counts the
    operations it has served. *)
Definition steadyPage (url title : jsstring) : Env nat := {|
  on_get q _ :=
    match q with
    | PageUrl _ => url
    | ContextPages => [0%nat]
    | PageIsClosed _ => false
    end;
  on_call c w := (Resolved (answer title c), S w);
  on_race _ c w := (Some (Resolved (answer title c)), S w)
|}.

(** The environment of a page that has been closed: every operation
    rejects. *)
Definition pageClosed : thrown :=
  ErrorObj (lit "Target page, context or browser has been closed").

Definition closedPage (url : jsstring) : Env nat := {|
  on_get q _ :=
    match q with
    | PageUrl _ => url
    | ContextPages => [0%nat]
    | PageIsClosed _ => true
    end;
  on_call c w := (Rejected pageClosed, S w);
  on_race _ c w := (Some (Rejected pageClosed), S w)
|}.

(** ** Concrete data for the examples *)

Definition toolCall (i n a : string) : ToolCall :=
  {| id := lit i; function := {| name := lit n; arguments := lit a |} |}.

(** A stand-in for the prompt text. *)
Definition prompt (task : jsstring) : jsstring :=
  lit "You are an autonomous AI browser agent. Task: " ++ task.

Definition scrollCall : ToolCall := toolCall "call_1" "scroll" "{}".
Definition readCall : ToolCall := toolCall "call_2" "read_page" "{}".

(** A manager with a window of two messages, after one observation and
    one assistant turn whose two tool calls have both been answered. *)
Definition answeredTwice : Context.ContextManager :=
  let c0 := Context.setTask (lit "open example.com") (Context.create 2 8000) in
  let c1 := Context.state (Context.addObservation runtime (lit "[Step 1/50]") c0) in
  let c2 := Context.addAssistantMessage None (Some [scrollCall; readCall]) c1 in
  let c3 := Context.state
              (Context.addToolResult runtime scrollCall
                 (VStr (lit "Scrolled down.")) c2) in
  Context.state
    (Context.addToolResult runtime readCall (VStr (lit "Page: Example")) c3).

(** A run that has clicked the same thing on the same page twice. *)
Definition clickedTwice : Agent.RunState :=
  let e := {| Agent.action := lit "click({})";
              Agent.url := lit "https://example.com/" |} in
  {| Agent.context := Context.default;
     Agent.toolExecutor :=
       {| Executor.actionsPage := 0%nat; Executor.extractorBudget := 6000 |};
     Agent.browserManager := {| Manager.launched := true |};
     Agent.page := 0%nat;
     Agent.isDone := false;
     Agent.summary := VStr [];
     Agent.consecutiveFailures := 0;
     Agent.textOnlyRetries := 0;
     Agent.recentActions := [e; e] |}.

(** Five actions that go back and forth between two pages. *)
Definition backAndForth : list Agent.ActionEntry :=
  [ {| Agent.action := lit "click(a)"; Agent.url := lit "https://a/" |};
    {| Agent.action := lit "click(b)"; Agent.url := lit "https://b/" |};
    {| Agent.action := lit "go_back()"; Agent.url := lit "https://a/" |};
    {| Agent.action := lit "click(c)"; Agent.url := lit "https://b/" |} ].

End Example.

(* ================================================================== *)
(** * Prompt templates *)
(* ================================================================== *)

Module Prompts.

(** [formatObservation] of [prompts.ts] *)
Definition formatObservation (pageContent : jsstring)
    (iteration maxIterations : number) : jsstring :=
  lit "[Step " ++ Number_toString iteration ++ lit "/"
  ++ Number_toString maxIterations ++ lit "]" ++ LF ++ LF
  ++ lit "Current page state:" ++ LF ++ pageContent.

(** [buildFinalSummaryPrompt] of [prompts.ts] *)
Definition buildFinalSummaryPrompt (task : jsstring) : jsstring :=
  lit "You have reached the maximum number of iterations for this task."
  ++ LF ++ LF
  ++ lit "Original task: " ++ DQ ++ task ++ DQ ++ LF ++ LF
  ++ lit "You MUST now call the " ++ DQ ++ lit "done" ++ DQ
  ++ lit " tool with a comprehensive summary that includes:" ++ LF
  ++ lit "1. What you accomplished so far" ++ LF
  ++ lit "2. What remains to be done" ++ LF
  ++ lit "3. Specific suggestions for how the user can continue (e.g., re-run with a more specific task, or what to do manually)"
  ++ LF ++ LF
  ++ lit "Do NOT try any more browser actions. Just summarize and call "
  ++ DQ ++ lit "done" ++ DQ ++ lit ".".

End Prompts.

(* ================================================================== *)
(** * The run of the agent *)
(* ================================================================== *)

Module Loop.

Import Re Effects Llm Context Executor Manager Agent Prompts.

(** [LLMResponse] *)
Record LLMResponse := {
  content : option jsstring;
  toolCalls : option (list ToolCall);
  finishReason : option jsstring
}.

(** What [run] does to the world: it runs a program on the browser to
    its end, or it awaits [llm.chat(messages, tools)].  A tool
    definition is written as the name of its tool. *)
Inductive agent (A : Type) : Type :=
| Done (a : A)
| Browser {X : Type} (p : prog X) (k : thrown + X -> agent A)
| Chat (messages : list Message) (tools : list jsstring)
       (k : settled LLMResponse -> agent A).
Arguments Done {A} a.
Arguments Browser {A X} p k.
Arguments Chat {A} messages tools k.

Fixpoint andThen {A B} (p : agent A) (f : A -> agent B) : agent B :=
  match p with
  | Done a => f a
  | Browser q k => Browser q (fun r => andThen (k r) f)
  | Chat ms ts k => Chat ms ts (fun r => andThen (k r) f)
  end.

(** A method of [BrowserAgent]: from the fields of the agent and the
    locals of [run] it reaches new ones, and returns or throws.  What
    was assigned before a [throw] stays assigned. *)
Definition method (A : Type) : Type :=
  RunState -> agent (RunState * (thrown + A)).

Definition ret {A} (a : A) : method A := fun st => Done (st, inr a).

Definition throw {A} (e : thrown) : method A := fun st => Done (st, inl e).

Definition seq_ {A B} (p : method A) (f : A -> method B) : method B :=
  fun st =>
    andThen (p st) (fun r =>
      match snd r with
      | inl e => Done (fst r, inl e)
      | inr a => f a (fst r)
      end).

(** [try { p } catch (e) { h e }] *)
Definition attempt {A} (p : method A) (h : thrown -> method A) : method A :=
  fun st =>
    andThen (p st) (fun r =>
      match snd r with
      | inl e => h e (fst r)
      | inr a => Done (fst r, inr a)
      end).

Definition read : method RunState := fun st => Done (st, inr st).

Definition assign (f : RunState -> RunState) : method unit :=
  fun st => Done (f st, inr tt).

(** A function that returns or throws. *)
Definition pure {A} (r : thrown + A) : method A := fun st => Done (st, r).

(** [await] of a program on the browser *)
Definition browser {X} (p : prog X) : method X :=
  fun st => Browser p (fun r => Done (st, r)).

(** [await this.llm.chat(messages, tools)] *)
Definition chat (messages : list Message) (tools : list jsstring)
  : method LLMResponse :=
  fun st =>
    Chat messages tools (fun r =>
      Done (st, match r with
                | Resolved response => inr response
                | Rejected e => inl e
                end)).

Declare Scope method_scope.
Delimit Scope method_scope with method.
Bind Scope method_scope with method.
Notation "x <- p ;; q" := (seq_ p (fun x => q))
  (at level 61, p at next level, right associativity) : method_scope.
Notation "p ;; q" := (seq_ p (fun _ => q))
  (at level 61, right associativity) : method_scope.
Local Open Scope method_scope.

(** ** Running the agent against a browser and a model *)

(** The model answers from its own state. *)
Record Model (L : Type) := {
  on_chat : list Message -> list jsstring -> L -> settled LLMResponse * L
}.
Arguments on_chat {L} _ _ _ _.

(** What the world sees of a run: the operations on the browser and the
    requests to the model, in order. *)
Inductive event :=
| Op (c : call)
| Asked (messages : list Message) (tools : list jsstring).

Record ending (W L A : Type) := {
  value : A;
  browserState : W;
  modelState : L;
  events : list event
}.
Arguments value {W L A} _.
Arguments browserState {W L A} _.
Arguments modelState {W L A} _.
Arguments events {W L A} _.

Fixpoint perform {W L A} (env : Env W) (llm : Model L) (p : agent A)
    (w : W) (l : L) : ending W L A :=
  match p with
  | Done a => {| value := a; browserState := w; modelState := l;
                 events := [] |}
  | Browser q k =>
    let o := run env q w in
    let rest := perform env llm (k (returned o)) (world o) l in
    {| value := value rest; browserState := browserState rest;
       modelState := modelState rest;
       events := map Op (trace o) ++ events rest |}
  | Chat ms ts k =>
    let '(r, l') := on_chat llm ms ts l in
    let rest := perform env llm (k r) w l' in
    {| value := value rest; browserState := browserState rest;
       modelState := modelState rest;
       events := Asked ms ts :: events rest |}
  end.

(** The requests to the model among the events. *)
Definition isRequest (e : event) : bool :=
  match e with Asked _ _ => true | Op _ => false end.

(** Every run of the program asks the model only for what [Ask]
    allows and ends with a value in [P].  For a program on the browser,
    [Q] is what it is known to return; the case of its exception is
    left out when it is known not to throw. *)
Inductive holds {A} (Ask : list Message -> list jsstring -> Prop)
    (P : A -> Prop) : agent A -> Prop :=
| H_Done a : P a -> holds Ask P (Done a)
| H_Browser X (p : prog X) k (Q : X -> Prop) :
    always Q p ->
    (forall e, holds Ask P (k (inl e))) ->
    (forall x, Q x -> holds Ask P (k (inr x))) ->
    holds Ask P (Browser p k)
| H_Quiet X (p : prog X) k (Q : X -> Prop) :
    always Q p -> neverThrows p ->
    (forall x, Q x -> holds Ask P (k (inr x))) ->
    holds Ask P (Browser p k)
| H_Chat ms ts k :
    Ask ms ts -> (forall r, holds Ask P (k r)) -> holds Ask P (Chat ms ts k).

(** No run of the program asks the model more than [n] times. *)
Inductive asks {A} : nat -> agent A -> Prop :=
| K_Done n a : asks n (Done a)
| K_Browser n X (p : prog X) k :
    (forall r, asks n (k r)) -> asks n (Browser p k)
| K_Chat n ms ts k :
    (forall r, asks n (k r)) -> asks (S n) (Chat ms ts k).

(** A method that ends, from a state in [Pre], in a state and an
    outcome in [Post]. *)
Definition ensures {A} (Ask : list Message -> list jsstring -> Prop)
    (Pre : RunState -> Prop) (m : method A)
    (Post : RunState -> thrown + A -> Prop) : Prop :=
  forall st, Pre st -> holds Ask (fun r => Post (fst r) (snd r)) (m st).

(** A method that does not throw. *)
Definition returns {A} (m : method A) : Prop :=
  ensures (fun _ _ => True) (fun _ => True) m
          (fun _ r => exists a, r = inr a).

(** No condition on the state. *)
Definition anyState (st : RunState) : Prop := True.

(** What may be asked of the model where the log is at stake: a paired
    list of messages. *)
Definition pairedRequest (ms : list Message) (ts : list jsstring) : Prop :=
  paired None ms.

(** The limit [this.maxIterations] is given as an integer.  It stands
    for a Number when a Number holds it exactly, and the counter of
    [run] reaches it when every integer up to it is one: that is, up to
    [2^53]. *)
Definition countable (maxIterations : Z) : Prop :=
  (Z.abs maxIterations <= 9007199254740992)%Z.

(** What [run] says when it gives up. *)
Definition gaveUp : jsval :=
  VStr (lit "Task failed: Too many consecutive errors.").

Section WithRuntime.

Variable rt : Runtime.
Variable buildSystemPrompt : jsstring -> jsstring.

(** [this.toolExecutor.getDefinitions()] *)
Definition getDefinitions : list jsstring := toolNames.

(** [this.context.addObservation(content)] *)
Definition addObservation (content : jsstring) : method unit :=
  fun st =>
    let added := Context.addObservation rt content (context st) in
    Done (withContext st (state added),
          match raised added with
          | Some e => inl e
          | None => inr tt
          end).

(** [this.context.getMessages()] *)
Definition getMessages : method (list Message) :=
  fun st => Done (st, Context.getMessages buildSystemPrompt (context st)).

(** The tool-call branch: the state [actOnToolCalls] leaves, and the
    exception it ended with, if any. *)
Definition act (content : option jsstring) (toolCalls : list ToolCall)
  : method unit :=
  fun st =>
    Browser (actOnToolCalls rt content toolCalls st) (fun r =>
      match r with
      | inl e => Done (st, inl e)
      | inr (st', Some e) => Done (st', inl e)
      | inr (st', None) => Done (st', inr tt)
      end).

Definition textOnlyWarning : jsstring :=
  lit "You sent a text response but did not call a tool. If you need to ask the user a question, you MUST use the `ask_user` tool. Do not just write text. Please try again.".

Definition callATool : jsstring :=
  lit "Please call a tool to proceed. Use `ask_user` if you need input, or `done` if finished.".

Definition retryText : method unit :=
  assign (fun st =>
            withCounters st (consecutiveFailures st) (textOnlyRetries st + 1)).

(** The branch of [run] taken when the response is text without tool
    calls. *)
Definition actOnText (text : jsstring) (finishReason : option jsstring)
  : method unit :=
  assign (fun st =>
            withContext st
              (addAssistantMessage (Some text) None (context st)));;
  st <- read;;
  if includes text (lit "?") && (textOnlyRetries st <? 2)%Z then
    retryText;;
    addObservation textOnlyWarning
  else if match finishReason with
          | Some reason => streq reason (lit "stop")
          | None => false
          end
          && existsb (fun kw => includes (toLowerCase rt text) kw)
                     (map lit ["task"; "complete"; "finished"; "done"]%string)
  then assign (fun st => finished st (VStr text))
  else if (textOnlyRetries st <? 2)%Z then
    retryText;;
    addObservation callATool
  else ret tt.

(** The body of the [try] of one iteration; [Some v] is [return v]. *)
Definition observeThinkAct (iteration maxIterations : Z)
  : method (option jsval) :=
  recovered <-
    attempt
      (st <- read;;
       active <- browser (getActivePage (browserManager st));;
       assign (fun st => withPage st active);;
       ret true)
      (fun _ => ret false);;
  if negb recovered then
    ret (Some (VStr (lit "Task aborted: Browser windows closed.")))
  else
    st <- read;;
    pageContent <-
      browser (Snapshot.extract (extractorBudget (toolExecutor st))
                                (page st));;
    let observation :=
      formatObservation pageContent (ofZ iteration) (ofZ maxIterations) in
    browser (Race 5000 (Title (page st)) (fun _ => Ret tt));;
    addObservation observation;;
    messages <- getMessages;;
    response <- chat messages getDefinitions;;
    match toolCalls response, content response with
    | Some (toolCall :: more), _ =>
      act (content response) (toolCall :: more);;
      ret None
    | _, Some (c :: text) =>
      actOnText (c :: text) (finishReason response);;
      ret None
    | _, _ =>
      assign (fun st =>
                withCounters st (consecutiveFailures st + 1)
                             (textOnlyRetries st));;
      ret None
    end.

(** One pass of the loop of [run]: the [try] and its [catch]. *)
Definition iterate (iteration maxIterations : Z) : method (option jsval) :=
  attempt (observeThinkAct iteration maxIterations)
    (fun error =>
       assign (fun st =>
                 withCounters st (consecutiveFailures st + 1)
                              (textOnlyRetries st));;
       assign (fun st =>
                 withContext st (removeLastObservation (context st)));;
       st <- read;;
       (if (3 <? consecutiveFailures st)%Z then
          assign (fun st => finished st gaveUp)
        else ret tt);;
       ret None).

(** [for (let iteration = 1; iteration <= this.maxIterations;
    iteration++)], [count] passes being left. *)
Fixpoint iterations (count : nat) (iteration maxIterations : Z)
  : method (option jsval) :=
  match count with
  | O => ret None
  | S count' =>
    st <- read;;
    if isDone st then ret None
    else
      returned <- iterate iteration maxIterations;;
      match returned with
      | Some v => ret (Some v)
      | None => iterations count' (iteration + 1) maxIterations
      end
  end.

(** [JSON.parse(text)]; the message of the [SyntaxError] is left out. *)
Definition parse (text : jsstring) : thrown + jsval :=
  match JSON_parse rt text with
  | Some v => inr v
  | None => inl (ErrorObj (lit "SyntaxError"))
  end.

(** [args.summary] *)
Definition summaryOf (args : jsval) : thrown + jsval :=
  match args with
  | VUndefined | VNull => inl (cannotRead args (lit "summary"))
  | VObj fields => inr (lookup (lit "summary") fields)
  | _ => inr VUndefined
  end.

Definition incomplete (maxIterations : Z) : jsval :=
  VStr (lit "Task incomplete: reached "
        ++ Number_toString (ofZ maxIterations)
        ++ lit " iterations. Re-run to continue.").

(** [BrowserAgent.generateFinalSummary] *)
Definition generateFinalSummary (maxIterations : Z) (task : jsstring)
  : method jsval :=
  attempt
    (let summaryPrompt := buildFinalSummaryPrompt task in
     messages <- getMessages;;
     let messages := messages ++ [UserMessage summaryPrompt] in
     let doneToolOnly :=
       filter (fun t => streq t (lit "done")) getDefinitions in
     response <- chat messages doneToolOnly;;
     match toolCalls response, content response with
     | Some (first :: _), _ =>
       args <- pure (parse (arguments (function first)));;
       summary <- pure (summaryOf args);;
       ret (if truthy summary then summary
            else VStr (lit "Task incomplete — max iterations reached."))
     | _, Some (c :: text) => ret (VStr (c :: text))
     | _, _ => ret (incomplete maxIterations)
     end)
    (fun error => ret (incomplete maxIterations)).

(** [BrowserAgent.run] *)
Definition run (maxIterations : Z) (task : jsstring) : method jsval :=
  assign (fun st =>
            {| context := setTask task (context st);
               toolExecutor := toolExecutor st;
               browserManager := browserManager st;
               page := page st;
               isDone := false;
               summary := VStr [];
               consecutiveFailures := 0;
               textOnlyRetries := 0;
               recentActions := [] |});;
  returned <- iterations (Z.to_nat maxIterations) 1 maxIterations;;
  match returned with
  | Some v => ret v
  | None =>
    st <- read;;
    (if negb (isDone st) then
       summary <- generateFinalSummary maxIterations task;;
       assign (fun st =>
                 {| context := context st;
                    toolExecutor := toolExecutor st;
                    browserManager := browserManager st;
                    page := page st;
                    isDone := isDone st;
                    summary := summary;
                    consecutiveFailures := consecutiveFailures st;
                    textOnlyRetries := textOnlyRetries st;
                    recentActions := recentActions st |})
     else ret tt);;
    st <- read;;
    ret (summary st)
  end.

(** The invariant of the run: the log is one the manager's operations
    produce. *)
Definition logged (st : RunState) : Prop := produced rt (context st).

(** A method that keeps the invariant, whether it returns or throws,
    and asks the model with paired messages only. *)
Definition keeps {A} (m : method A) : Prop :=
  ensures pairedRequest logged m (fun st _ => logged st).

(** What [run] asks for: the next step, after an observation and with
    all the tools; or the final summary, with [done] alone. *)
Definition addressed (maxIterations : Z) (task : jsstring)
    (ms : list Message) (ts : list jsstring) : Prop :=
  (exists before pageContent iteration,
     ms = before
          ++ [UserMessage (formatObservation pageContent (ofZ iteration)
                                             (ofZ maxIterations))]
     /\ ts = toolNames) \/
  (exists before,
     ms = before ++ [UserMessage (buildFinalSummaryPrompt task)]
     /\ ts = [lit "done"]).

End WithRuntime.

End Loop.

(* ================================================================== *)
(** * More environments and data *)
(* ================================================================== *)

Module Scenes.

Import Re Effects Llm Example.

(** The environment of a page that hangs: whatever is raced against a
    timer loses to it; what is awaited alone is answered. *)
Definition hangingPage (url title : jsstring) : Env nat := {|
  on_get := on_get (steadyPage url title);
  on_call := on_call (steadyPage url title);
  on_race _ c w := (None, S w)
|}.

(** The JSON text of an object with one string member. *)
Definition jsonField (key value : string) : jsstring :=
  lit "{" ++ DQ ++ lit key ++ DQ ++ lit ":" ++ DQ ++ lit value ++ DQ
  ++ lit "}".

Definition executor : Executor.ToolExecutor :=
  {| Executor.actionsPage := 0%nat; Executor.extractorBudget := 6000 |}.

(** A click on a button that deletes, a finished task, a tool that does
    not exist. *)
Definition deleteCall : ToolCall :=
  {| id := lit "call_6";
     function := {| name := lit "click";
                    arguments := jsonField "selector" "text=Delete" |} |}.

Definition doneCall : ToolCall :=
  {| id := lit "call_7";
     function := {| name := lit "done";
                    arguments := jsonField "summary" "Found 3 flights." |} |}.

Definition zoomCall : ToolCall := toolCall "call_8" "zoom" "{}".

(** A run that has not begun. *)
Definition fresh : Agent.RunState :=
  {| Agent.context := Context.default;
     Agent.toolExecutor := executor;
     Agent.browserManager := {| Manager.launched := true |};
     Agent.page := 0%nat;
     Agent.isDone := false;
     Agent.summary := VStr [];
     Agent.consecutiveFailures := 0;
     Agent.textOnlyRetries := 0;
     Agent.recentActions := [] |}.

(** A model that cannot be reached. *)
Definition deafModel : Loop.Model nat :=
  {| Loop.on_chat _ _ n := (Rejected (ErrorObj (lit "fetch failed")), S n) |}.

(** A model that answers from a script, and fails once the script is
    over. *)
Definition scripted : Loop.Model (list Loop.LLMResponse) :=
  {| Loop.on_chat _ _ script :=
       match script with
       | response :: rest => (Resolved response, rest)
       | [] => (Rejected (ErrorObj (lit "fetch failed")), [])
       end |}.

(** An answer that calls tools. *)
Definition calling (toolCalls : list ToolCall) : Loop.LLMResponse :=
  {| Loop.content := None; Loop.toolCalls := Some toolCalls;
     Loop.finishReason := Some (lit "tool_calls") |}.

(** A [done] call that forgot its summary. *)
Definition bareDoneCall : ToolCall := toolCall "call_9" "done" "{}".

End Scenes.

(* ================================================================== *)
(** * Facts about strings *)
(* ================================================================== *)

Module JsFacts.

Local Open Scope Z_scope.

Lemma streq_refl (a : jsstring) : streq a a = true.
Proof. induction a; simpl; auto. now rewrite N.eqb_refl. Qed.

Lemma streq_eq (a b : jsstring) : streq a b = true <-> a = b.
Proof.
  split; [|intros ->; apply streq_refl].
  revert b. induction a as [|x a IH]; destruct b as [|y b]; simpl;
    try discriminate; auto.
  intros H. apply andb_prop in H as [H1 H2]. apply N.eqb_eq in H1.
  f_equal; auto.
Qed.

Lemma streq_neq (a b : jsstring) : streq a b = false <-> a <> b.
Proof.
  rewrite <- streq_eq. destruct (streq a b); split; congruence.
Qed.

Lemma startsWith_app (p s : jsstring) : startsWith (p ++ s) p = true.
Proof. induction p as [|c p IH]; cbn; auto. now rewrite N.eqb_refl. Qed.

Lemma strlen_app (a b : jsstring) : strlen (a ++ b) = strlen a + strlen b.
Proof. unfold strlen. rewrite length_app. lia. Qed.

(** [s.slice(0, e)] is the prefix of length [e]. *)
Lemma slice_prefix (s : jsstring) (e : Z) :
  0 <= e -> slice s 0 e = firstn (Z.to_nat e) s.
Proof.
  intros He. unfold slice, strlen.
  replace (0 <? 0) with false by reflexivity.
  destruct (e <? 0) eqn:E; [apply Z.ltb_lt in E; lia|].
  rewrite (Z.min_l 0) by lia.
  destruct (Z.min e (Z.of_nat (length s)) <=? 0) eqn:L.
  - apply Z.leb_le in L.
    assert (e = 0 \/ length s = 0%nat) as [->| H0] by lia.
    + reflexivity.
    + destruct s; [now rewrite firstn_nil | discriminate].
  - apply Z.leb_gt in L. rewrite Z.sub_0_r. simpl skipn.
    destruct (Z.le_ge_cases e (Z.of_nat (length s))).
    + now rewrite Z.min_l by lia.
    + rewrite Z.min_r by lia. rewrite Nat2Z.id.
      rewrite !firstn_all2; auto; lia.
Qed.

(** [lastIndexOf] of one code unit: it is absent, or the string splits at
    its last occurrence. *)
Lemma lastIndexOf_from_char (c : codeunit) (s : jsstring) (i : Z) :
  0 <= i ->
  (lastIndexOf_from s [c] i = -1 /\ ~ In c s) \/
  (exists a b, s = a ++ c :: b /\
     lastIndexOf_from s [c] i = i + Z.of_nat (length a) /\ ~ In c b).
Proof.
  revert i. induction s as [|x s IH]; intros i Hi.
  - left. split; [reflexivity | intros []].
  - cbn [lastIndexOf_from].
    destruct (IH (i + 1)) as [[E N]|(a & b & -> & E & N)]; [lia| |].
    + rewrite E. replace (0 <=? -1) with false by reflexivity.
      cbn [startsWith]. rewrite andb_true_r.
      destruct (N.eqb x c) eqn:X.
      * apply N.eqb_eq in X. subst x. right. exists [], s.
        repeat split; auto. simpl. lia.
      * left. split; auto. intros [->|H]; auto.
        now rewrite N.eqb_refl in X.
    + rewrite E.
      destruct (0 <=? i + 1 + Z.of_nat (length a)) eqn:L;
        [|apply Z.leb_gt in L; lia].
      right. exists (x :: a), b. repeat split; auto.
      cbn [length]. lia.
Qed.

End JsFacts.

(* ================================================================== *)
(** * The truncated snapshot *)
(* ================================================================== *)

Module ExtractorSpec.

Import Extractor JsFacts.
Local Open Scope Z_scope.

Lemma truncation_notice_length : strlen truncation_notice = 43.
Proof. reflexivity. Qed.

(** C1, as the code has it: content within the budget comes back as it
    is.  Longer content comes back as a prefix [kept] of at most
    [tokenBudget * 4] characters followed by the notice.  When a line
    feed stands past index 0 among the first [tokenBudget * 4]
    characters, [kept] is not empty and stops just before the last of
    them: a line feed follows it inside those characters and none
    comes after that one there.  When there is none, [kept] is those
    [tokenBudget * 4] characters themselves. *)
Theorem truncate_within_budget (tokenBudget : Z) (content : jsstring) :
  0 <= tokenBudget ->
  let maxChars := tokenBudget * 4 in
  let out := truncateToTokenBudget tokenBudget content in
  (strlen content <= maxChars -> out = content) /\
  (maxChars < strlen content ->
   exists kept dropped,
     content = kept ++ dropped /\
     out = kept ++ truncation_notice /\
     strlen kept <= maxChars /\
     ((0 < strlen kept < maxChars /\
       exists rest, dropped = LF ++ rest /\
         ~ In 10%N (firstn (Z.to_nat (maxChars - strlen kept - 1)) rest))
      \/ (strlen kept = maxChars /\ ~ In 10%N (tl kept)))).
Proof.
  intros Hb maxChars out. subst out. unfold truncateToTokenBudget.
  fold maxChars. split.
  - intros H. apply Z.leb_le in H. now rewrite H.
  - intros H. pose proof H as H'. apply Z.leb_gt in H'. rewrite H'.
    clear H'. assert (0 <= maxChars) by (subst maxChars; lia).
    rewrite slice_prefix by assumption.
    set (n := Z.to_nat maxChars).
    assert (Hn : (n < length content)%nat) by (unfold strlen in H; lia).
    assert (Hlen : length (firstn n content) = n)
      by (rewrite length_firstn; lia).
    pose proof (firstn_skipn n content) as Hsplit.
    unfold lastIndexOf. change LF with [10%N].
    destruct (lastIndexOf_from_char 10%N (firstn n content) 0)
      as [[E N]|(a & b & Eab & E & N)]; [lia| |].
    + rewrite E. replace (0 <? -1) with false by reflexivity.
      exists (firstn n content), (skipn n content).
      repeat split; auto.
      * unfold strlen. lia.
      * right. split; [unfold strlen; lia|].
        intros HIn. apply N. destruct (firstn n content); [destruct HIn|].
        now right.
    + rewrite E, Z.add_0_l.
      destruct (0 <? Z.of_nat (length a)) eqn:L.
      * apply Z.ltb_lt in L.
        rewrite slice_prefix by lia. rewrite Nat2Z.id.
        rewrite Eab in Hlen |- *.
        rewrite firstn_app, firstn_all, Nat.sub_diag, firstn_O, app_nil_r.
        exists a, (LF ++ b ++ skipn n content).
        rewrite length_app in Hlen. cbn [length] in Hlen.
        repeat split.
        -- rewrite <- Hsplit at 1. rewrite Eab, <- app_assoc. reflexivity.
        -- unfold strlen. lia.
        -- left. split; [unfold strlen; lia|].
           exists (b ++ skipn n content). split; [reflexivity|].
           replace (Z.to_nat (maxChars - strlen a - 1)) with (length b)
             by (unfold strlen; lia).
           rewrite firstn_app, firstn_all, Nat.sub_diag, firstn_O, app_nil_r.
           exact N.
      * apply Z.ltb_ge in L. assert (a = []) by (destruct a; [auto | simpl in L; lia]).
        subst a. exists (firstn n content), (skipn n content).
        repeat split; auto.
        -- unfold strlen. lia.
        -- right. split; [unfold strlen; lia|].
           rewrite Eab. exact N.
Qed.

Lemma truncate_within_budget_witness :
  let content := lit "ab" ++ LF ++ lit "cdefghij" in
  0 <= 2 /\
  exists kept dropped,
    content = kept ++ dropped /\
    truncateToTokenBudget 2 content = kept ++ truncation_notice /\
    strlen kept <= 2 * 4 /\
    ((0 < strlen kept < 2 * 4 /\
      exists rest, dropped = LF ++ rest /\
        ~ In 10%N (firstn (Z.to_nat (2 * 4 - strlen kept - 1)) rest))
     \/ (strlen kept = 2 * 4 /\ ~ In 10%N (tl kept))).
Proof.
  intros content. split; [lia|].
  apply (truncate_within_budget 2 content); [lia | vm_compute; reflexivity].
Defined.

(** C1 fails as stated: ten characters without a line feed, under a
    budget of two tokens, come back as 51 characters, the line cut in the
    middle. *)
Lemma truncate_exceeds_budget :
  let content := lit "abcdefghij" in
  let out := truncateToTokenBudget 2 content in
  out = lit "abcdefgh" ++ truncation_notice /\
  strlen out = 51 /\ ~ (strlen out <= 2 * 4).
Proof. vm_compute. repeat split; congruence. Qed.

(** The unit at index [length a] of [a ++ c :: b], read in another
    splitting of the same string. *)
Lemma unit_of_split (a b k d : jsstring) (c : codeunit) :
  a ++ c :: b = k ++ d ->
  (length a < length k)%nat -> In c (skipn (length a) k).
Proof.
  revert k. induction a as [|x a IH]; intros [|y k] H L;
    cbn [length] in L; try lia.
  - cbn in H. inversion H. now left.
  - cbn in H. inversion H. subst. cbn [length skipn].
    apply IH with (1 := H2). lia.
Qed.

Lemma unit_after_split (a b k d : jsstring) (c : codeunit) :
  a ++ c :: b = k ++ d ->
  (length k <= length a)%nat ->
  exists d1, d = d1 ++ c :: b /\ length d1 = (length a - length k)%nat.
Proof.
  revert a. induction k as [|y k IH]; intros a H L.
  - exists a. cbn in H. split; [now symmetry in H|cbn; lia].
  - destruct a as [|x a]; [cbn in L; lia|].
    cbn in H. inversion H. subst.
    destruct (IH a H2) as (d1 & E & Ld); [cbn in L; lia|].
    exists d1. split; [exact E|cbn; lia].
Qed.

(** What [truncate_within_budget] says of the kept prefix holds of one
    prefix only. *)
Lemma kept_prefix_unique (maxChars : Z) (content k1 d1 k2 d2 : jsstring) :
  let shape (kept dropped : jsstring) :=
    content = kept ++ dropped /\
    ((0 < strlen kept < maxChars /\
      exists rest, dropped = LF ++ rest /\
        ~ In 10%N (firstn (Z.to_nat (maxChars - strlen kept - 1)) rest))
     \/ (strlen kept = maxChars /\ ~ In 10%N (tl kept))) in
  shape k1 d1 -> shape k2 d2 -> k1 = k2.
Proof.
  intros shape [E1 S1] [E2 S2].
  assert (same : length k1 = length k2 -> k1 = k2).
  { intros L. rewrite E1 in E2. clear - E2 L.
    revert k2 E2 L. induction k1 as [|x k1 IH]; intros [|y k2] E L;
      try discriminate; auto.
    cbn in E. inversion E. f_equal. apply IH; auto. }
  assert (order : forall ka da kb db,
            content = ka ++ da -> content = kb ++ db ->
            (length ka < length kb)%nat ->
            (0 < strlen ka /\
             exists rest, da = LF ++ rest /\
               ~ In 10%N (firstn (Z.to_nat (maxChars - strlen ka - 1)) rest)) ->
            (strlen kb < maxChars /\ exists rest, db = LF ++ rest)
            \/ ~ In 10%N (tl kb) ->
            False).
  { intros ka da kb db Ea Eb L (Pa & ra & -> & Na) [[Lb [rb ->]]|Nb].
    - (* the line feed after [kb] lies among the units after [ka] *)
      rewrite Ea in Eb. symmetry in Eb.
      change (LF ++ rb) with (10%N :: rb) in Eb.
      destruct (unit_after_split kb rb ka (LF ++ ra) 10%N Eb)
        as (skipped & E & Ls); [lia|].
      destruct skipped as [|z skipped]; [cbn in Ls; lia|].
      cbn in E. inversion E as [[Ez Er]]. apply Na. rewrite Er.
      rewrite firstn_app. apply in_or_app. right.
      cbn [length] in Ls.
      replace (Z.to_nat (maxChars - strlen ka - 1) - length skipped)%nat
        with (S (Z.to_nat (maxChars - strlen ka - 1) - length skipped - 1))
        by (unfold strlen in *; lia).
      now left.
    - apply Nb. rewrite Ea in Eb. change (LF ++ ra) with (10%N :: ra) in Eb.
      pose proof (unit_of_split ka ra kb db 10%N Eb L) as H.
      destruct ka as [|x ka]; [unfold strlen in Pa; cbn in Pa; lia|].
      destruct kb as [|y kb]; [cbn in L; lia|].
      cbn [length skipn] in H. cbn [tl].
      clear - H. revert H. generalize (length ka). intros n.
      revert kb. induction n; intros kb H; [exact H|].
      destruct kb; [destruct H|]. right. now apply IHn. }
  destruct (Nat.lt_trichotomy (length k1) (length k2)) as [L|[L|L]];
    [exfalso| now apply same | exfalso].
  - destruct S1 as [[[P1 Q1] R1]|[P1 N1]].
    + apply (order k1 d1 k2 d2 E1 E2 L); [split; assumption|].
      destruct S2 as [[[_ ?] (r & -> & _)]|[_ N2]];
        [left; eauto|right; auto].
    + destruct S2 as [[[? ?] _]|[? _]]; unfold strlen in *; lia.
  - destruct S2 as [[[P2 Q2] R2]|[P2 N2]].
    + apply (order k2 d2 k1 d1 E2 E1 L); [split; assumption|].
      destruct S1 as [[[_ ?] (r & -> & _)]|[_ N1]];
        [left; eauto|right; auto].
    + destruct S1 as [[[? ?] _]|[? _]]; unfold strlen in *; lia.
Qed.

(** The last complete line is kept even where a line feed stands right
    after the first [tokenBudget * 4] characters. *)
Lemma truncate_keeps_last_complete_line :
  truncateToTokenBudget 2
    (lit "ab" ++ LF ++ lit "cdefg" ++ LF ++ lit "xyz")
  = lit "ab" ++ truncation_notice.
Proof. reflexivity. Qed.

End ExtractorSpec.

(* ================================================================== *)
(** * Facts about programs *)
(* ================================================================== *)

Module ProgFacts.

Import Effects.

(** A handler that never throws makes the whole [try] safe. *)
Lemma try_catch_neverThrows {A} (p : prog A) (h : thrown -> prog A) :
  (forall e, neverThrows (h e)) -> neverThrows (try_catch p h).
Proof.
  intros Hh. induction p; simpl; auto; constructor; auto.
Qed.

Lemma bind_neverThrows {A B} (p : prog A) (f : A -> prog B) :
  neverThrows p -> (forall a, neverThrows (f a)) -> neverThrows (bind p f).
Proof.
  intros Hp Hf. induction Hp; simpl; auto; constructor; auto.
Qed.

Lemma neverThrows_run {W A} (env : Env W) (p : prog A) (w : W) :
  neverThrows p -> exists a, returned (run env p w) = inr a.
Proof.
  intros Hp. revert w. induction Hp; intros w; simpl; eauto.
  - destruct (on_call env c w) as [r w']. simpl. auto.
  - destruct (on_race env ms c w) as [r w']. simpl. auto.
Qed.

Lemma always_True {A} (p : prog A) : always (fun _ => True) p.
Proof. induction p; constructor; auto. Qed.

Lemma always_bind {A B} (Q : A -> Prop) (P : B -> Prop) (p : prog A)
    (f : A -> prog B) :
  always Q p -> (forall a, Q a -> always P (f a)) -> always P (bind p f).
Proof. induction 1; intros Hf; simpl; auto; constructor; auto. Qed.

Lemma always_try_catch {A} (P : A -> Prop) (p : prog A)
    (h : thrown -> prog A) :
  always P p -> (forall e, always P (h e)) -> always P (try_catch p h).
Proof. induction 1; intros Hh; simpl; auto; constructor; auto. Qed.

Lemma always_run {W A} (P : A -> Prop) (env : Env W) (p : prog A) (w : W)
    (a : A) :
  always P p -> returned (run env p w) = inr a -> P a.
Proof.
  intros H. revert w. induction H as [a0 Ha|e|q k _ IH|c k _ IH|ms c k _ IH];
    intros w; cbn [run returned].
  - intros E. inversion E; subst. exact Ha.
  - discriminate.
  - apply IH.
  - destruct (on_call env c w) as [r w']. cbn [logged returned]. apply IH.
  - destruct (on_race env ms c w) as [r w']. cbn [logged returned].
    apply IH.
Qed.

End ProgFacts.

(* ================================================================== *)
(** * The actions return strings *)
(* ================================================================== *)

Module ActionsSafe.

Import Effects Actions ProgFacts.

Ltac safe :=
  repeat first
    [ apply NT_Ret
    | apply try_catch_neverThrows; intros
    | match goal with
      | |- neverThrows (if ?b then _ else _) => destruct b
      end
    | progress cbn [bind get]; constructor; intros ].

Section WithRuntime.

Variable rt : Runtime.

Lemma navigate_neverThrows page url : neverThrows (navigate page url).
Proof. unfold navigate. safe. Qed.

Lemma click_neverThrows page selector :
  neverThrows (click rt page selector).
Proof. unfold click. safe. Qed.

Lemma type_neverThrows page selector text :
  neverThrows (type rt page selector text).
Proof. unfold type. safe. Qed.

Lemma scroll_neverThrows page direction :
  neverThrows (scroll page direction).
Proof. unfold scroll. safe. Qed.

Lemma goBack_neverThrows page : neverThrows (goBack page).
Proof. unfold goBack. safe. Qed.

Lemma selectOption_neverThrows page selector value :
  neverThrows (selectOption rt page selector value).
Proof. unfold selectOption. safe. Qed.

Lemma pressKey_neverThrows page key : neverThrows (pressKey page key).
Proof. unfold pressKey. safe. Qed.

Lemma hover_neverThrows page selector :
  neverThrows (hover rt page selector).
Proof. unfold hover. safe. Qed.

Lemma screenshot_neverThrows page : neverThrows (screenshot page).
Proof. unfold screenshot. safe. Qed.


End WithRuntime.

End ActionsSafe.

(* ================================================================== *)
(** * Facts about Numbers *)
(* ================================================================== *)

Module DoubleFacts.

Lemma SFcompare_antisym (x y : number) :
  SFcompare y x = option_map CompOpp (SFcompare x y).
Proof.
  destruct x as [s|s| |s m e], y as [t|t| |t n f]; cbn;
    try reflexivity; try (destruct s; reflexivity);
    try (destruct t; reflexivity);
    try (destruct s, t; reflexivity).
  destruct s, t; try reflexivity;
    rewrite (Z.compare_antisym e f); destruct (e ?= f)%Z; cbn;
    try reflexivity;
    now rewrite (Pos.compare_cont_antisym m n Eq).
Qed.

(** [Math.min] against a bound that is neither [NaN] nor a zero: the
    bound when it is below [x], and [x] otherwise. *)
Lemma Math_min_bound (x y : number) :
  match y with S754_nan | S754_zero _ => False | _ => True end ->
  Math_min x y = if ltb y x then y else x.
Proof.
  intros Hy. unfold Math_min, ltb, SFltb.
  rewrite (SFcompare_antisym x y).
  destruct (SFcompare x y) as [[| |]|] eqn:E; cbn.
  - destruct y as [| | |]; try reflexivity; destruct Hy.
  - reflexivity.
  - reflexivity.
  - destruct x as [| | |], y as [| | |]; cbn in E;
      try discriminate; try reflexivity; destruct Hy.
Qed.

End DoubleFacts.

(* ================================================================== *)
(** * [wait] *)
(* ================================================================== *)

Module WaitSpec.

Import Effects Actions Example DoubleFacts.
Local Open Scope Z_scope.

(** [wait] has no [try]: what the sleep rejects with reaches the
    caller. *)
Lemma wait_rethrows {W} (rt : Runtime) (env : Env W) (w : W) (page : Page)
    (ms : jsval) (e : thrown) :
  fst (on_call env
         (WaitForTimeout page (Math_min (ToNumber rt ms) (ofZ 10000))) w)
    = Rejected e ->
  returned (run env (wait rt page ms) w) = inl e.
Proof.
  intros H. unfold wait. cbn [bind await run].
  destruct (on_call env _ w) as [r w']. simpl in H. subst r. reflexivity.
Qed.

(** Whatever [ms] is, [wait] asks the page for one sleep, of
    [Math.min(ms, 10000)] milliseconds. *)
Lemma wait_sleeps_once {W} (rt : Runtime) (env : Env W) (w : W)
    (page : Page) (ms : jsval) :
  trace (run env (wait rt page ms) w)
  = [WaitForTimeout page (Math_min (ToNumber rt ms) (ofZ 10000))].
Proof.
  unfold wait. cbn [bind await run].
  destruct (on_call env _ w) as [[x|e] w']; reflexivity.
Qed.

(** C2 (the code breaks it): on a page that has been closed the sleep
    rejects, and [wait], alone among the actions, lets the exception
    through instead of returning a string. *)
Theorem wait_propagates_rejection :
  returned (run (closedPage []) (wait runtime 0%nat (VNum (ofZ 1000)))
                0%nat)
  = inl pageClosed.
Proof. reflexivity. Qed.

(** C8: for every Number [ms], a double, an infinity or [NaN], [wait]
    asks the page for one sleep, of [min(ms, 10000)] milliseconds: of
    10000 when [ms] is above 10000 and of [ms] itself otherwise.  Once
    that sleep is over it returns the string that reports the clamped
    duration, printed as JavaScript prints a Number. *)
Theorem wait_clamps {W} (rt : Runtime) (env : Env W) (w : W) (page : Page)
    (ms : number) :
  valid ms = true ->
  let cappedMs := if ltb (ofZ 10000) ms then ofZ 10000 else ms in
  fst (on_call env (WaitForTimeout page cappedMs) w) = Resolved tt ->
  let o := run env (wait rt page (VNum ms)) w in
  trace o = [WaitForTimeout page cappedMs] /\
  returned o
  = inr (lit "Waited " ++ Number_toString cappedMs ++ lit "ms").
Proof.
  intros _ cappedMs H o. subst o. unfold wait. cbn [bind await run].
  cbn [ToNumber]. rewrite (Math_min_bound ms (ofZ 10000) I).
  fold cappedMs.
  destruct (on_call env _ w) as [r w']. simpl in H. subst r.
  split; reflexivity.
Qed.

Lemma wait_clamps_witness :
  let quiet := steadyPage (lit "https://example.com/") (lit "Example") in
  let ms := ofZ 25000 in
  (valid ms = true /\
   fst (on_call quiet (WaitForTimeout 0%nat (ofZ 10000)) 0%nat)
   = Resolved tt) /\
  trace (run quiet (wait runtime 0%nat (VNum ms)) 0%nat)
    = [WaitForTimeout 0%nat (ofZ 10000)] /\
  returned (run quiet (wait runtime 0%nat (VNum ms)) 0%nat)
    = inr (lit "Waited 10000ms").
Proof.
  intros quiet ms.
  assert (V : valid ms = true) by reflexivity.
  assert (R : fst (on_call quiet (WaitForTimeout 0%nat (ofZ 10000)) 0%nat)
              = Resolved tt) by reflexivity.
  split; [split; [exact V | exact R]|].
  exact (wait_clamps runtime quiet 0%nat 0%nat ms V R).
Defined.

(** A duration with a fraction is slept and reported as it is, and a
    large one in the exponent form of JavaScript. *)
Lemma wait_reports_as_JavaScript_prints :
  let quiet := steadyPage (lit "https://example.com/") (lit "Example") in
  returned (run quiet (wait runtime 0%nat (VNum (div (ofZ 3001) (ofZ 2))))
                0%nat)
    = inr (lit "Waited 1500.5ms") /\
  returned (run quiet (wait runtime 0%nat (VNum (ofZ (- 10 ^ 21)))) 0%nat)
    = inr (lit "Waited -1e+21ms") /\
  returned (run quiet (wait runtime 0%nat (VNum NaN)) 0%nat)
    = inr (lit "Waited NaNms").
Proof. vm_compute. repeat split. Qed.

End WaitSpec.

(* ================================================================== *)
(** * Facts about the matcher *)
(* ================================================================== *)

Module ReFacts.

Import Re.

(** An anchored expression matches at index 0 or nowhere. *)
Lemma search_from_anchored r i c s :
  search_from (Seq Bol r) i (Some c) s = None.
Proof.
  revert i c. induction s as [|x s IH]; intros i c; cbn; auto.
Qed.

Lemma exec_anchored r s :
  exec (Seq Bol r) s
  = match m r (at_ None s) Some with
    | Some s' => Some {| index := 0; after := rest s'; groups := caps s' |}
    | None => None
    end.
Proof.
  unfold exec. destruct s as [|x s]; cbn [search_from m at_ prev].
  - destruct (m r _ Some); reflexivity.
  - destruct (m r _ Some); auto.
    apply search_from_anchored.
Qed.

(** A greedy star over one character class, with nothing to satisfy
    afterwards, reads a run of that class. *)
Lemma star_run body p :
  (forall s k, body s k = m (Chr p) s k) ->
  forall fuel s s',
  star body true Some fuel s = Some s' ->
  exists run, rest s = run ++ rest s' /\ forallb p run = true.
Proof.
  intros Hbody. induction fuel as [|fuel IH]; intros s s' H.
  - cbn in H. inversion H; subst. exists []. auto.
  - cbn [star] in H. rewrite Hbody in H. cbn [m] in H.
    assert (Hstop : Some s = Some s' ->
              exists run, rest s = run ++ rest s' /\ forallb p run = true).
    { intros E. inversion E; subst. exists []. auto. }
    destruct (rest s) as [|c t] eqn:R; auto.
    destruct (p c) eqn:P; auto.
    cbn [rest] in H.
    destruct (length t <? length (c :: t))%nat; auto.
    destruct (star body true Some fuel _) as [x|] eqn:E; auto.
    inversion H; subst x.
    destruct (IH _ _ E) as (run & Hr & Hp). cbn [rest] in Hr.
    exists (c :: run). split; [now rewrite Hr|].
    cbn. now rewrite P.
Qed.

Lemma star_class_run p fuel s s' :
  star (m (Chr p)) true Some fuel s = Some s' ->
  exists run, rest s = run ++ rest s' /\ forallb p run = true.
Proof. apply star_run. reflexivity. Qed.

Lemma star_covers body body' g k k' :
  (forall s s' c c', same_place s s' -> covers c c' ->
     body s c <> None -> body' s' c' <> None) ->
  covers k k' ->
  forall fuel, covers (star body g k fuel) (star body' g k' fuel).
Proof.
  intros Hb Hk. induction fuel as [|fuel IH]; intros s s' P H.
  - cbn in *. eapply Hk; eauto.
  - cbn [star] in *.
    set (more := body s _) in *. set (more' := body' s' _).
    assert (Hm : more <> None -> more' <> None).
    { apply Hb; auto. intros t t' Pt. destruct P as [_ Pr].
      destruct Pt as [Pp Ptr]. rewrite <- Ptr, <- Pr.
      destruct (_ <? _)%nat; [|congruence].
      apply IH. split; auto. }
    assert (Hks : k s <> None -> k' s' <> None) by (apply Hk; auto).
    destruct g.
    + destruct more; destruct more'; try congruence; auto.
      exfalso. apply Hm; congruence.
    + destruct (k s); destruct (k' s'); try congruence; auto.
      exfalso. apply Hks; congruence.
Qed.

(** Widening the classes and the continuation keeps every success. *)
Lemma m_covers r r' :
  widens r r' ->
  forall s s' k k', same_place s s' -> covers k k' ->
    m r s k <> None -> m r' s' k' <> None.
Proof.
  induction 1; intros s s' k k' P Hk Hm; cbn [m] in *.
  - eapply Hk; eauto.
  - destruct P as [Pp Pr]. rewrite <- Pr.
    destruct (rest s) as [|c t]; auto.
    destruct (p c) eqn:E; [|congruence].
    rewrite (H c E). refine (Hk _ _ _ Hm). split; auto.
  - refine (IHwidens1 s s' _ _ P _ Hm).
    intros t t' Pt. apply IHwidens2; auto.
  - destruct (m a s k) eqn:E.
    + assert (m a' s' k' <> None) by (eapply IHwidens1; eauto; congruence).
      destruct (m a' s' k'); congruence.
    + assert (m b' s' k' <> None) by (eapply IHwidens2; eauto).
      destruct (m a' s' k'); congruence.
  - destruct P as [Pp Pr]. rewrite <- Pr.
    exact (star_covers (m a) (m a') g k k' IHwidens Hk _ s s'
             (conj Pp Pr) Hm).
  - refine (IHwidens s s' _ _ P _ Hm). intros t t' Pt Ht.
    refine (Hk _ _ _ Ht). exact Pt.
  - pose proof (Hk s s' P) as Hs. destruct P as [Pp Pr]. rewrite <- Pp.
    destruct (prev s); auto.
  - pose proof (Hk s s' P) as Hs. destruct P as [Pp Pr]. rewrite <- Pr.
    destruct (rest s); auto.
  - pose proof (Hk s s' P) as Hs. destruct P as [Pp Pr].
    rewrite <- Pp, <- Pr. destruct (xorb _ _); auto.
Qed.

Lemma widens_refl r : widens r r.
Proof. induction r; constructor; auto. Qed.

Lemma same_place_refl s : same_place s s.
Proof. split; reflexivity. Qed.

Lemma m_trims r r' :
  trims r r' ->
  forall s s' k k', same_place s s' -> (forall t, k' t <> None) ->
    m r s k <> None -> m r' s' k' <> None.
Proof.
  induction 1 as [r r' W|a a' b W|a a' b b' W T IH];
    intros s s' k k' P Hk Hm.
  - refine (m_covers r r' W s s' k k' P _ Hm). intros t t' _ _. apply Hk.
  - cbn [m] in Hm.
    refine (m_covers a a' W s s' _ k' P _ Hm). intros t t' _ _. apply Hk.
  - cbn [m] in *.
    refine (m_covers a a' W s s' _ _ P _ Hm).
    intros t t' Pt Ht. exact (IH t t' k k' Pt Hk Ht).
Qed.

(** A string that [r] matches somewhere is matched by [r'] too. *)
Lemma test_trims r r' s :
  trims r r' -> test r s = true -> test r' s = true.
Proof.
  intros T. unfold test, exec. generalize 0%nat (@None N).
  assert (H : forall st x, m r st Some = Some x ->
                exists x', m r' st Some = Some x').
  { intros st x E.
    assert (N : m r' st Some <> None).
    { apply (m_trims r r' T st st Some Some (same_place_refl st)).
      - discriminate.
      - congruence. }
    destruct (m r' st Some) as [x'|]; [eauto|congruence]. }
  induction s as [|c s IH]; intros i p; cbn [search_from].
  - destruct (m r (at_ p []) Some) eqn:E; [|discriminate].
    destruct (H _ _ E) as [x' ->]. reflexivity.
  - destruct (m r (at_ p (c :: s)) Some) eqn:E.
    + destruct (H _ _ E) as [x' ->]. reflexivity.
    + intros F. destruct (m r' _ Some); auto.
Qed.

End ReFacts.

(* ================================================================== *)
(** * Selectors that are rejected *)
(* ================================================================== *)

Module ResolverSpec.

Import Re Effects Actions ReFacts Example.

(** What [selector.replace(/^-\s+/, '')] removes: nothing, or a dash
    and the white space after it. *)
Lemma listPrefix_strips (s : jsstring) :
  replace re_listPrefix [] s = s \/
  exists ws,
    s = 45%N :: ws ++ replace re_listPrefix [] s /\
    ws <> [] /\ forallb is_space ws = true.
Proof.
  unfold replace, re_listPrefix. rewrite exec_anchored.
  change (chr "-") with (Chr (is_char 45)).
  destruct (m _ (at_ None s) Some) as [s'|] eqn:E; [right|now left].
  cbn [index after firstn app].
  unfold Plus in E. cbn [m at_ rest prev caps] in E.
  destruct s as [|c t]; [discriminate|].
  destruct (is_char 45 c) eqn:C; [|discriminate].
  destruct t as [|c2 t2]; [discriminate|].
  destruct (is_space c2) eqn:Sp; [|discriminate].
  apply star_class_run in E. destruct E as (run & Hr & Hp).
  cbn [rest] in Hr. apply N.eqb_eq in C. subst c.
  exists (c2 :: run). repeat split.
  - cbn. now rewrite Hr.
  - discriminate.
  - cbn. now rewrite Sp.
Qed.

Lemma last_cons_default {A} (x : A) l d d' :
  last (x :: l) d = last (x :: l) d'.
Proof.
  revert x. induction l as [|a l IH]; intros x; [reflexivity|].
  change (last (a :: l) d = last (a :: l) d'). apply IH.
Qed.

(** Whether a search succeeds does not depend on the index it started
    counting from. *)
Lemma search_from_index r i j p s :
  found_some (search_from r i p s) = found_some (search_from r j p s).
Proof.
  revert i j p. induction s as [|c s IH]; intros i j p; cbn [search_from];
    destruct (m r _ Some); auto.
Qed.

Section WithRuntime.

Variable rt : Runtime.

Hypothesis canon_letters : lettersOnly rt.


Lemma ci_R_letter c :
  ci_char (canonicalize rt) 82 c = true -> is_upper c || is_lower c = true.
Proof.
  intros H. apply canon_letters. unfold ci_upper.
  apply existsb_exists. exists 82%N. split; [|exact H].
  vm_compute. tauto.
Qed.

Lemma space_not_letter c :
  is_space c = true -> is_upper c || is_lower c = false.
Proof.
  unfold is_space, is_upper, is_lower.
  rewrite ?orb_true_iff, ?andb_true_iff, ?orb_false_iff, ?andb_false_iff,
    ?N.leb_le, ?N.leb_gt, ?N.eqb_eq.
  lia.
Qed.

Lemma space_not_word c : is_space c = true -> is_word c = false.
Proof.
  unfold is_space, is_word, is_upper, is_lower, is_digit.
  rewrite ?orb_true_iff, ?andb_true_iff, ?orb_false_iff, ?andb_false_iff,
    ?N.leb_le, ?N.leb_gt, ?N.eqb_eq, ?N.eqb_neq.
  lia.
Qed.

(** A match of [/\bROOT\b/i] starts on an R. *)
Lemma root_needs_R p c t :
  ci_char (canonicalize rt) 82 c = false ->
  m (re_root rt) (at_ p (c :: t)) Some = None.
Proof.
  intros H. unfold re_root.
  change (lit "ROOT") with [82; 79; 79; 84]%N.
  cbn [m LitCI at_ rest prev caps]. rewrite H.
  destruct (xorb _ _); reflexivity.
Qed.

(** What precedes the match counts only as a word character or not. *)
Lemma root_prev p q s :
  is_word_opt p = is_word_opt q ->
  m (re_root rt) (at_ p s) Some = m (re_root rt) (at_ q s) Some.
Proof.
  intros H. unfold re_root.
  change (lit "ROOT") with [82; 79; 79; 84]%N.
  cbn [m LitCI at_ rest prev caps]. rewrite H. reflexivity.
Qed.

Lemma search_root_prev i j p q s :
  is_word_opt p = is_word_opt q ->
  found_some (search_from (re_root rt) i p s)
  = found_some (search_from (re_root rt) j q s).
Proof.
  intros H. pose proof (root_prev p q s H) as E.
  destruct s as [|c t]; cbn [search_from]; rewrite E; clear E;
    destruct (m _ _ Some); auto.
  apply search_from_index.
Qed.

(** The search walks over characters that are not an R. *)
Lemma search_root_skip ws : forall i p r,
  forallb (fun c => negb (ci_char (canonicalize rt) 82 c)) ws = true ->
  found_some (search_from (re_root rt) i p (ws ++ r))
  = found_some (search_from (re_root rt) i (last (map Some ws) p) r).
Proof.
  induction ws as [|c ws IH]; intros i p r H; [reflexivity|].
  cbn [forallb] in H. apply andb_prop in H as [Hc Hws].
  apply negb_true_iff in Hc.
  cbn [app search_from].
  rewrite (root_needs_R p c _ Hc).
  rewrite (IH (S i) (Some c) r Hws).
  rewrite (search_from_index _ (S i) i).
  destruct ws as [|x ws]; [reflexivity|].
  change (last (map Some (c :: x :: ws)) p)
    with (last (Some x :: map Some ws) p).
  cbn [map]. now rewrite (last_cons_default (Some x) _ (Some c) p).
Qed.

Lemma last_space x ws d :
  forallb is_space (x :: ws) = true ->
  exists w, last (map Some (x :: ws)) d = Some w /\ is_space w = true.
Proof.
  revert x. induction ws as [|y ws IH]; intros x H.
  - exists x. cbn in *. now rewrite andb_true_r in H.
  - cbn [forallb] in H. apply andb_prop in H as [_ H].
    destruct (IH y H) as (w & E & W). exists w. split; auto.
Qed.

(** Stripping the list prefix keeps the word ROOT. *)
Lemma root_survives_strip s :
  test (re_root rt) s = true ->
  test (re_root rt) (replace re_listPrefix [] s) = true.
Proof.
  destruct (listPrefix_strips s) as [->|(ws & Hs & Hne & Hws)]; auto.
  set (r := replace re_listPrefix [] s) in *. clearbody r. subst s.
  unfold test, exec.   change (45%N :: ws ++ r) with ((45%N :: ws) ++ r).
  rewrite search_root_skip.
  - intros H. rewrite <- H. apply search_root_prev.
    assert (L : exists w, last (map Some (45%N :: ws)) None = Some w
                          /\ is_space w = true).
    { destruct ws as [|x ws]; [congruence|].
      change (last (map Some (45%N :: x :: ws)) None)
        with (last (map Some (x :: ws)) None).
      apply last_space. exact Hws. }
    destruct L as (w & -> & Hw). cbn. symmetry. now apply space_not_word.
  - cbn [forallb]. apply andb_true_intro. split.
    + apply negb_true_iff. destruct (ci_char _ 82 45) eqn:E; auto.
      apply ci_R_letter in E. discriminate.
    + clear - Hws canon_letters. induction ws as [|w ws IH]; auto.
      cbn [forallb] in *. apply andb_prop in Hws as [Hw Hws].
      rewrite (IH Hws), andb_true_r. apply negb_true_iff.
      destruct (ci_char _ 82 w) eqn:E; auto.
      apply ci_R_letter in E. rewrite (space_not_letter w Hw) in E.
      discriminate.
Qed.

(** A selector that matches the tree-path pattern starts with a
    letter, so nothing is stripped from it. *)
Lemma treePath_not_stripped s :
  test (re_treePath rt) s = true -> replace re_listPrefix [] s = s.
Proof.
  intros H. destruct (listPrefix_strips s) as [E|(ws & Hs & _)]; auto.
  exfalso. revert H. rewrite Hs. unfold test, re_treePath.
  rewrite exec_anchored. unfold Plus.
  cbn [m at_ rest prev caps].
  destruct (ci_upper (canonicalize rt) 45) eqn:E; [|discriminate].
  apply canon_letters in E. discriminate.
Qed.

Lemma upper_ci_upper canon c : is_upper c = true -> ci_upper canon c = true.
Proof.
  intros H. unfold ci_upper. apply existsb_exists. exists c.
  split; [|apply N.eqb_refl].
  unfold is_upper in H. apply andb_prop in H as [L U].
  apply N.leb_le in L, U. apply in_map_iff. exists (N.to_nat c).
  split; [apply N2Nat.id|]. apply in_seq. lia.
Qed.

(** Every selector the pattern of the specification matches is matched
    by the pattern of the code. *)
Lemma claimed_treePath_covered s :
  test claimed_treePath s = true -> test (re_treePath rt) s = true.
Proof.
  apply test_trims. unfold claimed_treePath, re_treePath, Plus.
  assert (L : widens (Chr is_upper) (Chr (ci_upper (canonicalize rt))))
    by (constructor; apply upper_ci_upper).
  assert (P : widens (Seq (Chr is_upper) (Star true (Chr is_upper)))
                (Seq (Chr (ci_upper (canonicalize rt)))
                     (Star true (Chr (ci_upper (canonicalize rt))))))
    by (repeat constructor; apply upper_ci_upper).
  apply T_Seq; [constructor|].
  apply T_Seq; [exact P|].
  apply T_Seq; [apply widens_refl|].
  apply T_Seq; [apply widens_refl|].
  apply T_Seq; [apply widens_refl|].
  apply T_drop. exact P.
Qed.
(** C3, as the code has it: a selector that contains the word ROOT in
    any letter case, or that matches [^[A-Z]+\s*>\s*[A-Z]+] in any letter
    case and contains a number standing on its own ([\b\d+\b]), makes
    [resolveLocator] throw the error that names the selector and
    recommends the ARIA form; no locator is returned. *)
Theorem resolveLocator_rejects_tree_paths (selector : jsstring) :
  test (re_root rt) selector = true \/
  (test (re_treePath rt) selector = true /\ test re_index selector = true) ->
  resolveLocator rt (VStr selector)
  = inl (invalidSelector (replace re_listPrefix [] selector)).
Proof.
  intros H. unfold resolveLocator.
  destruct H as [H|[H1 H2]].
  - now rewrite (root_survives_strip selector H).
  - rewrite (treePath_not_stripped selector H1), H1, H2.
    now rewrite orb_true_r.
Qed.

End WithRuntime.

(** The example runtime folds case as the hypothesis of the theorem
    asks. *)
Lemma upperUnit_letters : lettersOnly runtime.
Proof.
  intros c H. unfold ci_upper in H. apply existsb_exists in H.
  destruct H as (x & Hin & E). apply N.eqb_eq in E.
  apply in_map_iff in Hin. destruct Hin as (n & <- & Hn).
  apply in_seq in Hn. cbn [canonicalize runtime] in E.
  assert (U : upperUnit (N.of_nat n) = N.of_nat n).
  { unfold upperUnit, is_lower.
    repeat match goal with
    | |- context [if ?b then _ else _] =>
      let B := fresh in destruct b eqn:B; auto;
      rewrite ?andb_true_iff, ?N.leb_le in B; try lia
    end. }
  rewrite U in E. clear U. revert E. unfold upperUnit, is_upper, is_lower.
  repeat match goal with
    | |- context [if ?b then _ else _] =>
      let B := fresh in destruct b eqn:B;
      rewrite ?andb_true_iff, ?andb_false_iff, ?N.leb_le, ?N.leb_gt in B
    end; intros E; rewrite ?orb_true_iff, ?andb_true_iff, ?N.leb_le; lia.
Qed.

Lemma resolveLocator_rejects_tree_paths_witness :
  let selector := lit "ROOT > DIV > 1" in
  lettersOnly runtime /\
  (test (re_root runtime) selector = true \/
   (test (re_treePath runtime) selector = true /\
    test re_index selector = true)) /\
  resolveLocator runtime (VStr selector)
  = inl (invalidSelector (replace re_listPrefix [] selector)).
Proof.
  intros selector.
  assert (H : test (re_root runtime) selector = true \/
              (test (re_treePath runtime) selector = true /\
               test re_index selector = true))
    by (left; vm_compute; reflexivity).
  split; [exact upperUnit_letters|]. split; [exact H|].
  exact (resolveLocator_rejects_tree_paths runtime upperUnit_letters
           selector H).
Defined.

(** C3 fails as stated: [DIV > SPAN1] matches the pattern of the
    specification, its digit being glued to a word, and resolves to a CSS
    locator. *)
Lemma resolveLocator_accepts_glued_digit :
  let selector := lit "DIV > SPAN1" in
  test claimed_treePath selector = true /\
  resolveLocator runtime (VStr selector) = inr (ByCss selector).
Proof. split; vm_compute; reflexivity. Qed.

End ResolverSpec.

(* ================================================================== *)
(** * The guard lets meta-tools through *)
(* ================================================================== *)

Module GuardSpec.

Import Effects Guard Example JsFacts.


(** C7: a meta-tool is allowed at once: [checkAction] returns [true],
    the confirm callback is not invoked, no operation is issued. *)
Theorem checkAction_meta_tools {W} (rt : Runtime) (env : Env W) (w : W)
    (toolCall : ToolCall) (pageContext : jsstring) :
  In (name (function toolCall)) META_TOOLS ->
  checkAction rt toolCall pageContext = Ret true /\
  run env (checkAction rt toolCall pageContext) w
  = {| returned := inr true; world := w; trace := [] |}.
Proof.
  intros Hin. unfold checkAction.
  assert (E : existsb (streq (name (function toolCall))) META_TOOLS = true).
  { apply existsb_exists. eexists. split; [exact Hin|].
    apply streq_refl. }
  rewrite E. split; reflexivity.
Qed.

Lemma checkAction_meta_tools_witness :
  let toolCall := toolCall "call_7" "navigate" "{}" in
  let env := steadyPage (lit "https://shop.example/") (lit "Checkout") in
  In (name (function toolCall)) META_TOOLS /\
  run env (checkAction runtime toolCall (lit "Checkout (https://shop.example/)"))
      0%nat
  = {| returned := inr true; world := 0%nat; trace := [] |}.
Proof.
  intros toolCall env.
  assert (H : In (name (function toolCall)) META_TOOLS)
    by (vm_compute; tauto).
  split; [exact H|].
  exact (proj2 (checkAction_meta_tools runtime env 0%nat toolCall
                  (lit "Checkout (https://shop.example/)") H)).
Defined.

End GuardSpec.

(* ================================================================== *)
(** * The conversation keeps its pairs *)
(* ================================================================== *)

Module ContextFacts.

Import Context.

(** Adding a string as a tool result appends the message and one history
    entry, and raises nothing. *)
Lemma addToolResult_string (rt : Runtime) (toolCall : ToolCall)
    (s : jsstring) (c : ContextManager) :
  let added := addToolResult rt toolCall (VStr s) c in
  raised added = None /\
  messages (state added)
  = messages c ++ [ToolResultMessage (id toolCall) (VStr s)] /\
  (exists entry, actionHistory (state added) = actionHistory c ++ [entry]) /\
  maxHistoryMessages (state added) = maxHistoryMessages c /\
  tokenBudget (state added) = tokenBudget c /\
  task (state added) = task c.
Proof.
  unfold addToolResult. cbn [sliceText].
  destruct (JSON_parse rt _) as [args|]; [destruct (entries args)|];
    cbn; repeat split; eauto.
Qed.

End ContextFacts.

Module ContextSpec.

Import Context Example.

Lemma carries_None i : ~ carries None i.
Proof. intros (calls & tc & H & _). discriminate. Qed.

Lemma paired_app owner a b :
  paired owner (a ++ b) <-> paired owner a /\ paired (ownerAfter owner a) b.
Proof.
  revert owner. induction a as [|msg a IH]; intros owner; simpl.
  - tauto.
  - destruct msg; rewrite ?IH; tauto.
Qed.

(** A paired log does not start with an orphan, so it is paired under
    any owner. *)
Lemma paired_any_owner owner ms : paired None ms -> paired owner ms.
Proof.
  destruct ms as [|[]]; simpl; auto.
  intros [H _]. now apply carries_None in H.
Qed.

Lemma paired_head ms msg :
  paired None ms -> hd_error ms = Some msg -> isTool msg = false.
Proof.
  destruct ms as [|[]]; simpl; intros H E; inversion E; subst; auto.
  destruct H as [H _]. now apply carries_None in H.
Qed.

(** Cutting a paired log at a message that is not a tool result leaves a
    paired log. *)
Lemma paired_skipn owner ms start msg :
  paired owner ms ->
  nth_error ms start = Some msg -> isTool msg = false ->
  paired None (skipn start ms).
Proof.
  revert owner start. induction ms as [|m ms IH]; intros owner start H E T.
  - destruct start; discriminate.
  - destruct start as [|start].
    + simpl in E. inversion E; subst m. simpl.
      destruct msg; simpl in *; auto; discriminate.
    + simpl in E |- *. destruct m; simpl in H; try destruct H; eauto.
Qed.

Lemma paired_answered owner ms :
  paired owner ms ->
  forall k i v,
    nth_error ms k = Some (ToolResultMessage i v) ->
    carries owner i \/
    exists j content tcs,
      (j < k)%nat /\
      nth_error ms j = Some (AssistantMessage content tcs) /\
      carries tcs i.
Proof.
  revert owner. induction ms as [|m ms IH]; intros owner H k i v E.
  - destruct k; discriminate.
  - destruct k as [|k].
    + simpl in E. inversion E; subst m. left. apply H.
    + simpl in E.
      assert (Hshift : forall o, paired o ms ->
                carries o i \/
                exists j content tcs, (j < S k)%nat /\
                  nth_error (m :: ms) j = Some (AssistantMessage content tcs)
                  /\ carries tcs i).
      { intros o Ho. destruct (IH o Ho k i v E) as [Hc|(j & c & t & L & N & C)];
          [now left|].
        right. exists (S j), c, t. repeat split; auto. lia. }
      destruct m; simpl in H.
      * destruct (Hshift None H) as [Hc|?]; auto. now apply carries_None in Hc.
      * destruct (Hshift None H) as [Hc|?]; auto. now apply carries_None in Hc.
      * destruct (Hshift tool_calls H) as [Hc|?]; auto.
        right. exists 0%nat, content, tool_calls. repeat split; auto. lia.
      * destruct H as [_ H]. apply (Hshift owner H).
Qed.

Corollary paired_None_answered ms : paired None ms -> answered ms.
Proof.
  intros H k i v E.
  destruct (paired_answered None ms H k i v E) as [Hc|?]; auto.
  now apply carries_None in Hc.
Qed.

(** What [findSafeWindowStart] returns is 0 or the index of a message
    that is not a tool result. *)
Lemma findSafeWindowStart_safe ms target start :
  findSafeWindowStart ms target = inr start ->
  start = 0%nat \/
  exists msg, nth_error ms start = Some msg /\ isTool msg = false.
Proof.
  induction target as [|t IH]; cbn [findSafeWindowStart]; intros H.
  - inversion H. now left.
  - destruct (nth_error ms (S t)) as [msg|] eqn:E; [|discriminate].
    destruct (isTool msg) eqn:T; auto.
    inversion H; subst. right. eauto.
Qed.

(** It throws only when asked to start past the end. *)
Lemma findSafeWindowStart_returns ms target :
  (target < length ms)%nat ->
  exists start, findSafeWindowStart ms target = inr start.
Proof.
  induction target as [|t IH]; cbn [findSafeWindowStart]; intros H; eauto.
  destruct (nth_error ms (S t)) as [msg|] eqn:E.
  - destruct (isTool msg); eauto. apply IH. lia.
  - apply nth_error_None in E. lia.
Qed.

Lemma paired_window ms target start :
  paired None ms ->
  findSafeWindowStart ms target = inr start ->
  paired None (skipn start ms).
Proof.
  intros H E.
  destruct (findSafeWindowStart_safe ms target start E)
    as [->|(msg & N & T)]; auto.
  eapply paired_skipn; eauto.
Qed.

Lemma paired_removeLastUser owner ms ms' :
  paired owner ms -> removeLastUser ms = Some ms' -> paired owner ms'.
Proof.
  revert owner ms'. induction ms as [|m ms IH]; intros owner ms' H E.
  - discriminate.
  - simpl in E. destruct (removeLastUser ms) as [rest|] eqn:R.
    + inversion E; subst ms'. destruct m; simpl in *;
        try destruct H; try split; eauto.
    + destruct (isUser m) eqn:U; [|discriminate].
      inversion E; subst ms'. destruct m; try discriminate.
      simpl in H. now apply paired_any_owner.
Qed.

Lemma awaiting_owner ms tc :
  awaiting ms tc -> carries (ownerAfter None ms) (id tc).
Proof.
  intros (before & content & calls & results & -> & T & I).
  assert (E : forall o a b, ownerAfter o (a ++ b) = ownerAfter (ownerAfter o a) b).
  { intros o a. revert o. induction a as [|[] a IHa]; intros; simpl; auto. }
  rewrite E. simpl.
  assert (R : forall o, ownerAfter o results = o).
  { clear - T. induction results as [|[] r IHr]; intros; simpl in *;
      try discriminate; auto. }
  rewrite R. exists calls, tc. auto.
Qed.

Section WithRuntime.

Variable rt : Runtime.
Variable buildSystemPrompt : jsstring -> jsstring.

Lemma addToolResult_messages toolCall result c :
  messages (state (addToolResult rt toolCall result c))
  = messages c ++ [ToolResultMessage (id toolCall) result].
Proof.
  unfold addToolResult.
  destruct result; cbn [state raise ok withMessages messages]; auto;
    repeat match goal with
    | |- context [match ?x with _ => _ end] => destruct x
    end; reflexivity.
Qed.

Lemma compressIfNeeded_paired c :
  paired None (messages c) ->
  paired None (messages (state (compressIfNeeded rt c))).
Proof.
  intros H. unfold compressIfNeeded.
  destruct (_ && _); auto.
  destruct (findSafeWindowStart _ _) as [e|start] eqn:E; auto.
  simpl. eapply paired_window; eauto.
Qed.

(** The log of a produced manager is paired. *)
Lemma produced_paired c : produced rt c -> paired None (messages c).
Proof.
  induction 1; try exact I.
  - apply compressIfNeeded_paired. simpl.
    apply paired_app. split; auto. destruct (ownerAfter None (messages c)); exact I.
  - simpl. apply paired_app. split; auto. exact I.
  - rewrite addToolResult_messages. apply paired_app. split; auto.
    simpl. split; auto. now apply awaiting_owner.
  - unfold removeLastObservation.
    destruct (removeLastUser (messages c)) eqn:R; auto.
    simpl. eapply paired_removeLastUser; eauto.
Qed.

Lemma getRecentMessages_paired c recent :
  paired None (messages c) ->
  getRecentMessages c = inr recent -> paired None recent.
Proof.
  intros H. unfold getRecentMessages.
  destruct (_ <=? _)%Z; [intros E; inversion E; subst; auto|].
  destruct (findSafeWindowStart _ _) as [e|start] eqn:E; [discriminate|].
  intros R; inversion R; subst. eapply paired_window; eauto.
Qed.

Lemma getRecentMessages_returns c :
  (1 <= maxHistoryMessages c)%Z ->
  exists recent, getRecentMessages c = inr recent.
Proof.
  intros H. unfold getRecentMessages, messageCount.
  destruct (_ <=? _)%Z eqn:L; eauto.
  apply Z.leb_gt in L.
  destruct (findSafeWindowStart_returns (messages c)
              (Z.to_nat (Z.of_nat (length (messages c))
                         - maxHistoryMessages c))) as [start E].
  - lia.
  - rewrite E. eauto.
Qed.

(** C4: for a log built by the manager's operations, each tool result
    added after the assistant message that carries its call, every tool
    result in the list [getMessages] returns has, earlier in that list,
    an assistant message whose tool calls include its id; the sliding
    window does not begin on a tool result; and, the window being at
    least one message wide, [getMessages] does return a list. *)
Theorem getMessages_keeps_pairs (c : ContextManager) :
  produced rt c ->
  (forall ms, getMessages buildSystemPrompt c = inr ms -> answered ms) /\
  (forall recent msg,
     getRecentMessages c = inr recent ->
     hd_error recent = Some msg -> isTool msg = false) /\
  ((1 <= maxHistoryMessages c)%Z ->
   exists ms, getMessages buildSystemPrompt c = inr ms).
Proof.
  intros Hp. apply produced_paired in Hp. repeat split.
  - intros ms. unfold getMessages.
    destruct (getRecentMessages c) as [e|recent] eqn:R; [discriminate|].
    intros E; inversion E; subst ms.
    apply paired_None_answered. cbn [app paired].
    pose proof (getRecentMessages_paired c recent Hp R) as Hr.
    destruct (0 <? _)%Z; exact Hr.
  - intros recent msg R. apply paired_head.
    eapply getRecentMessages_paired; eauto.
  - intros H. unfold getMessages.
    destruct (getRecentMessages_returns c H) as [recent ->]. eauto.
Qed.

End WithRuntime.

Lemma answeredTwice_produced : produced runtime answeredTwice.
Proof.
  unfold answeredTwice.
  apply P_addToolResult; [apply P_addToolResult|].
  - apply P_addAssistantMessage, P_addObservation, P_setTask, P_create.
  - exists [UserMessage (lit "[Step 1/50]")], None, [scrollCall; readCall], [].
    repeat split; simpl; auto.
  - exists [UserMessage (lit "[Step 1/50]")], None, [scrollCall; readCall],
      [ToolResultMessage (id scrollCall) (VStr (lit "Scrolled down."))].
    repeat split; simpl; auto.
Qed.

Lemma getMessages_keeps_pairs_witness :
  produced runtime answeredTwice /\
  exists ms,
    getMessages prompt answeredTwice = inr ms /\ answered ms /\
    skipn 2 ms
    = [AssistantMessage None (Some [scrollCall; readCall]);
       ToolResultMessage (id scrollCall) (VStr (lit "Scrolled down."));
       ToolResultMessage (id readCall) (VStr (lit "Page: Example"))].
Proof.
  split; [exact answeredTwice_produced|].
  destruct (getMessages_keeps_pairs runtime prompt answeredTwice
              answeredTwice_produced) as (A & _ & R).
  destruct (getMessages prompt answeredTwice) as [e|ms] eqn:E.
  - exfalso. destruct (R ltac:(vm_compute; congruence)) as [ms' E'].
    discriminate.
  - exists ms. split; [reflexivity|]. split; [exact (A ms eq_refl)|].
    vm_compute in E. inversion E. reflexivity.
Defined.

End ContextSpec.

(* ================================================================== *)
(** * Arguments that are not JSON *)
(* ================================================================== *)

Module ExecutorSpec.

Import Effects Executor Example.


(** C10: arguments that are not JSON end [execute] at once with the
    error string; nothing is asked of the page, of the guard or of the
    user, and the environment is left as it was. *)
Theorem execute_invalid_json {W} (rt : Runtime) (env : Env W) (w : W)
    (ex : ToolExecutor) (toolCall : ToolCall) (page : Page) :
  JSON_parse rt (arguments (function toolCall)) = None ->
  let message :=
    lit "Error: Invalid JSON arguments for tool " ++ DQ
    ++ name (function toolCall) ++ DQ ++ lit ": "
    ++ arguments (function toolCall) in
  let r := {| result := VStr message; isDone := false; doneSummary := None;
              needsUserInput := false; userQuestion := None |} in
  execute rt ex toolCall page = Ret r /\
  run env (execute rt ex toolCall page) w
  = {| returned := inr r; world := w; trace := [] |}.
Proof.
  intros H message r. unfold execute. rewrite H. split; reflexivity.
Qed.

Lemma execute_invalid_json_witness :
  let toolCall := toolCall "call_3" "click" "{selector:" in
  let env := steadyPage (lit "https://example.com/") (lit "Example") in
  let ex := {| actionsPage := 0%nat; extractorBudget := 6000 |} in
  JSON_parse runtime (arguments (function toolCall)) = None /\
  run env (execute runtime ex toolCall 0%nat) 5%nat
  = {| returned :=
         inr {| result := VStr (lit "Error: Invalid JSON arguments for tool "
                                ++ DQ ++ lit "click" ++ DQ
                                ++ lit ": {selector:");
                isDone := false; doneSummary := None;
                needsUserInput := false; userQuestion := None |};
       world := 5%nat; trace := [] |}.
Proof.
  intros toolCall env ex.
  assert (H : JSON_parse runtime (arguments (function toolCall)) = None)
    by reflexivity.
  split; [exact H|].
  exact (proj2 (execute_invalid_json runtime env 5%nat ex toolCall 0%nat H)).
Defined.

End ExecutorSpec.

(* ================================================================== *)
(** * Loop detection and the skipped call *)
(* ================================================================== *)

Module AgentSpec.

Import Effects Context Executor Agent Example JsFacts.

Lemma visitStep_visit l u v i :
  is_visit l u i -> visitStep l u v i = S v.
Proof.
  intros (e & He & Hu & Hp). unfold visitStep. rewrite He.
  apply streq_eq in Hu. rewrite Hu.
  destruct Hp as [->|(p & Hp & Hne)]; [reflexivity|].
  rewrite Hp. apply streq_neq in Hne. rewrite Hne. simpl.
  now rewrite orb_true_r.
Qed.

Lemma visitStep_mono l u v i : (v <= visitStep l u v i)%nat.
Proof.
  unfold visitStep. destruct (nth_error l i); auto.
  destruct (streq _ _); auto.
  destruct (_ || _); auto.
Qed.

Lemma visitStep_shift l u v i : visitStep l u (S v) i = S (visitStep l u v i).
Proof.
  unfold visitStep. destruct (nth_error l i); auto.
  destruct (streq _ _); auto.
  destruct (_ || _); auto.
Qed.

Lemma fold_visit_shift l u ixs v :
  fold_left (visitStep l u) ixs (S v) = S (fold_left (visitStep l u) ixs v).
Proof.
  revert v. induction ixs as [|i ixs IH]; intros v; simpl; auto.
  now rewrite visitStep_shift, IH.
Qed.

Lemma fold_visit_le l u ixs v w :
  (v <= w)%nat ->
  (fold_left (visitStep l u) ixs v <= fold_left (visitStep l u) ixs w)%nat.
Proof.
  induction 1; auto. rewrite fold_visit_shift. lia.
Qed.

(** Every visit among the indices scanned adds one to the counter. *)
Lemma fold_visit_count l u ixs : forall vs v,
  NoDup vs -> incl vs ixs -> NoDup ixs ->
  (forall i, In i vs -> is_visit l u i) ->
  (v + length vs <= fold_left (visitStep l u) ixs v)%nat.
Proof.
  induction ixs as [|i ixs IH]; intros vs v Hnd Hin Hnd' Hv.
  - destruct vs as [|x vs]; [simpl; lia|]. destruct (Hin x); now left.
  - simpl. inversion Hnd' as [|? ? Hni Hnd'']; subst.
    destruct (in_dec Nat.eq_dec i vs) as [Hi|Hi].
    + rewrite (visitStep_visit l u v i (Hv i Hi)).
      destruct (in_split _ _ Hi) as (a & b & ->).
      assert (Hnd2 : NoDup (a ++ b)) by (eapply NoDup_remove_1; eauto).
      assert (Hni2 : ~ In i (a ++ b)) by (eapply NoDup_remove_2; eauto).
      specialize (IH (a ++ b) (S v) Hnd2).
      rewrite !length_app in *. cbn [length].
      etransitivity; [|apply IH]; auto.
      * lia.
      * intros x Hx. assert (In x (a ++ i :: b)) as Hx'.
        { apply in_app_or in Hx. apply in_or_app.
          destruct Hx; [left|right; right]; auto. }
        destruct (Hin x Hx'); auto. subst. contradiction.
      * intros x Hx. apply Hv. apply in_app_or in Hx. apply in_or_app.
        destruct Hx; [left|right; right]; auto.
    + etransitivity; [apply (IH vs v)|]; auto.
      * intros x Hx. destruct (Hin x Hx); auto. subst. contradiction.
      * apply fold_visit_le, visitStep_mono.
Qed.

(** C5: when [recentActions] followed by the proposed entry holds three
    visits to the proposed url, at indices [i < j < k], [isStuck] returns
    [true].  A visit is an entry on that url that is the first entry or
    whose predecessor is on another url. *)
Theorem isStuck_oscillation (recentActions : list ActionEntry)
    (currentAction currentUrl : jsstring) (i j k : nat) :
  let allActions :=
    recentActions ++ [{| action := currentAction; url := currentUrl |}] in
  (i < j < k)%nat ->
  is_visit allActions currentUrl i ->
  is_visit allActions currentUrl j ->
  is_visit allActions currentUrl k ->
  isStuck recentActions currentAction currentUrl = true.
Proof.
  intros allActions Hlt Hi Hj Hk. unfold isStuck.
  destruct (_ && _); [reflexivity|]. fold allActions.
  assert (H : (0 + length [i; j; k]
               <= fold_left (visitStep allActions currentUrl)
                    (seq 0 (length allActions)) 0)%nat).
  { apply fold_visit_count.
    - repeat constructor; simpl; lia.
    - destruct Hi as (ei & Hei & _), Hj as (ej & Hej & _),
        Hk as (ek & Hek & _).
      assert (Bi : (i < length allActions)%nat) by (apply nth_error_Some; congruence).
      assert (Bj : (j < length allActions)%nat) by (apply nth_error_Some; congruence).
      assert (Bk : (k < length allActions)%nat) by (apply nth_error_Some; congruence).
      intros x [<-|[<-|[<-|[]]]]; apply in_seq; lia.
    - apply seq_NoDup.
    - intros x [<-|[<-|[<-|[]]]]; assumption. }
  simpl in H. apply Nat.leb_le in H. now rewrite H.
Qed.

Lemma isStuck_oscillation_witness :
  let proposed := lit "go_back()" in
  let allActions :=
    backAndForth ++ [{| action := proposed; url := lit "https://a/" |}] in
  ((0 < 2 < 4)%nat /\
   is_visit allActions (lit "https://a/") 0 /\
   is_visit allActions (lit "https://a/") 2 /\
   is_visit allActions (lit "https://a/") 4) /\
  isStuck backAndForth proposed (lit "https://a/") = true.
Proof.
  intros proposed allActions.
  assert (V0 : is_visit allActions (lit "https://a/") 0)
    by (eexists; split; [reflexivity|]; split; [reflexivity|now left]).
  assert (V2 : is_visit allActions (lit "https://a/") 2)
    by (eexists; split; [reflexivity|]; split; [reflexivity|]; right;
        eexists; split; [reflexivity|]; vm_compute; congruence).
  assert (V4 : is_visit allActions (lit "https://a/") 4)
    by (eexists; split; [reflexivity|]; split; [reflexivity|]; right;
        eexists; split; [reflexivity|]; vm_compute; congruence).
  split; [repeat split; auto; lia|].
  exact (isStuck_oscillation backAndForth proposed (lit "https://a/")
           0 2 4 ltac:(lia) V0 V2 V4).
Defined.

(** C6: when the last two entries of [recentActions] both are the
    proposed action on the proposed url, [isStuck] returns [true]: the
    third occurrence in a row is flagged. *)
Theorem isStuck_exact_repetition (earlier : list ActionEntry)
    (currentAction currentUrl : jsstring) :
  let e := {| action := currentAction; url := currentUrl |} in
  isStuck (earlier ++ [e; e]) currentAction currentUrl = true.
Proof.
  intros e. unfold isStuck. rewrite length_app. cbn [length].
  replace (length earlier + 2 - 1)%nat with (length earlier + 1)%nat by lia.
  replace (length earlier + 2 - 2)%nat with (length earlier + 0)%nat by lia.
  rewrite !nth_error_app2 by lia.
  replace (length earlier + 1 - length earlier)%nat with 1%nat by lia.
  replace (length earlier + 0 - length earlier)%nat with 0%nat by lia.
  cbn [nth_error e action url]. rewrite !streq_refl.
  replace (2 <=? length earlier + 2)%nat with true
    by (symmetry; apply Nat.leb_le; lia).
  reflexivity.
Qed.

(** C9: a tool call found stuck adds one tool result, the warning, to the
    conversation; no operation reaches the browser, the guard or the
    user, and [recentActions] is left as it was. *)
Theorem stuck_call_is_skipped {W} (rt : Runtime) (env : Env W) (w : W)
    (toolCall : ToolCall) (st : RunState) :
  isStuck (recentActions st) (toolDescription toolCall)
          (on_get env (PageUrl (page st)) w) = true ->
  let o := run env (processToolCall rt toolCall st) w in
  trace o = [] /\ world o = w /\
  exists st',
    returned o = inr (st', Next) /\
    messages (context st')
    = messages (context st)
      ++ [ToolResultMessage (id toolCall) (VStr (stuckMsg toolCall))] /\
    recentActions st' = recentActions st /\
    page st' = page st /\
    toolExecutor st' = toolExecutor st /\
    isDone st' = isDone st /\
    summary st' = summary st.
Proof.
  intros H o. subst o. unfold processToolCall.
  cbn [bind get run]. rewrite H.
  destruct (ContextFacts.addToolResult_string rt toolCall (stuckMsg toolCall)
              (context st)) as (Hr & Hm & _).
  rewrite Hr. cbn [run trace world returned].
  repeat split. eexists. split; [reflexivity|].
  cbn. repeat split. exact Hm.
Qed.

Lemma stuck_call_is_skipped_witness :
  let toolCall := toolCall "call_9" "click" "{}" in
  let env := steadyPage (lit "https://example.com/") (lit "Example") in
  isStuck (recentActions clickedTwice) (toolDescription toolCall)
          (on_get env (PageUrl (page clickedTwice)) 0%nat) = true /\
  trace (run env (processToolCall runtime toolCall clickedTwice) 0%nat) = []
  /\ world (run env (processToolCall runtime toolCall clickedTwice) 0%nat)
     = 0%nat.
Proof.
  intros toolCall env.
  assert (H : isStuck (recentActions clickedTwice) (toolDescription toolCall)
                (on_get env (PageUrl (page clickedTwice)) 0%nat) = true)
    by reflexivity.
  split; [exact H|].
  destruct (stuck_call_is_skipped runtime env 0%nat toolCall clickedTwice H)
    as (T & Wd & _).
  split; [exact T | exact Wd].
Defined.

End AgentSpec.

(* ================================================================== *)
(** * The agent keeps the discipline of the log *)
(* ================================================================== *)

Module AgentLog.

Import Effects Context Executor Manager Agent ProgFacts.

Section WithRuntime.

Variable rt : Runtime.

Lemma awaiting_after_result ms tc tc' v :
  awaiting ms tc' ->
  awaiting (ms ++ [ToolResultMessage (id tc) v]) tc'.
Proof.
  intros (before & content & calls & results & -> & T & I).
  exists before, content, calls, (results ++ [ToolResultMessage (id tc) v]).
  repeat split; auto.
  - now rewrite <- app_assoc.
  - rewrite forallb_app, T. reflexivity.
Qed.

Lemma addToolResult_waitingFor calls tc v c :
  waitingFor rt calls c -> awaiting (messages c) tc ->
  waitingFor rt calls (state (addToolResult rt tc v c)).
Proof.
  intros [Hp Hw] Ha. split.
  - now apply P_addToolResult.
  - intros tc' Hin.
    rewrite (ContextSpec.addToolResult_messages rt tc v c).
    apply awaiting_after_result. auto.
Qed.

Lemma processToolCall_waitingFor calls tc st :
  waitingFor rt calls (context st) -> awaiting (messages (context st)) tc ->
  always (fun r => waitingFor rt calls (context (fst r)))
         (processToolCall rt tc st).
Proof.
  intros Hw Ha. unfold processToolCall. cbn [bind get].
  constructor. intros currentUrl.
  destruct (isStuck _ _ _).
  - pose proof (addToolResult_waitingFor calls tc
                  (VStr (stuckMsg tc)) (context st) Hw Ha) as H.
    destruct (raised _); constructor; exact H.
  - eapply always_bind; [apply always_True|]. intros executed _.
    destruct executed as [e|result]; [constructor; exact Hw|].
    eapply (always_bind (fun st' => context st' = context st)).
    + apply always_try_catch; [|intros; constructor; reflexivity].
      eapply always_bind; [apply always_True|]. intros _ _.
      eapply always_bind; [apply always_True|]. intros active _.
      constructor. reflexivity.
    + intros st' E.
      pose proof (addToolResult_waitingFor calls tc
                    (Executor.result result) (context st)) as H.
      cbn [context withRecentActions] in H. specialize (H Hw Ha).
      rewrite E. cbn [context withRecentActions].
      destruct (raised _); [constructor; exact H|].
      destruct (Executor.isDone result); constructor; exact H.
Qed.

Lemma processToolCalls_produced calls : forall st,
  waitingFor rt calls (context st) ->
  always (fun r => produced rt (context (fst r)))
         (processToolCalls rt calls st).
Proof.
  assert (G : forall todo st,
            incl todo calls -> waitingFor rt calls (context st) ->
            always (fun r => produced rt (context (fst r)))
                   (processToolCalls rt todo st)).
  { induction todo as [|tc todo IH]; intros st Hi Hw; cbn [processToolCalls].
    - constructor. apply Hw.
    - eapply always_bind.
      + apply (processToolCall_waitingFor calls tc st Hw).
        apply Hw, Hi. now left.
      + intros [st' f] Hw'. cbn [fst snd] in *.
        destruct f; [|constructor; apply Hw'|constructor; apply Hw'].
        apply IH; auto. intros x Hx. apply Hi. now right. }
  intros st. apply G. apply incl_refl.
Qed.

(** The agent adds each tool result while the log is waiting for it: the
    tool-call branch of [run] takes a produced log to a produced log. *)
Lemma actOnToolCalls_produced content calls st :
  produced rt (context st) ->
  always (fun r => produced rt (context (fst r)))
         (actOnToolCalls rt content calls st).
Proof.
  intros Hp. unfold actOnToolCalls.
  eapply always_bind.
  - apply processToolCalls_produced. cbn [context withContext]. split.
    + now apply P_addAssistantMessage.
    + intros tc Hin. exists (messages (context st)), content, calls, [].
      repeat split; auto.
  - intros [st' e] H. cbn [fst snd] in *.
    destruct e; constructor; exact H.
Qed.

Corollary actOnToolCalls_run {W} (env : Env W) (w : W) content calls st
    st' e :
  produced rt (context st) ->
  returned (run env (actOnToolCalls rt content calls st) w) = inr (st', e) ->
  produced rt (context st').
Proof.
  intros Hp E.
  exact (always_run _ env _ w (st', e)
           (actOnToolCalls_produced content calls st Hp) E).
Qed.

End WithRuntime.

End AgentLog.

(* ================================================================== *)
(** * More on the actions *)
(* ================================================================== *)

Module ActionsSpec.

Import Re Effects Llm Actions Example JsFacts.

(** X1: whatever string [navigate] is given, the address it hands to
    [page.goto] carries a scheme: the string itself when it starts with
    [http://] or [https://], and the string after [https://] otherwise.
    That request is the first operation, and the only [goto]. *)
Theorem navigate_requests_scheme {W} (env : Env W) (w : W) (page : Page)
    (u : jsstring) :
  let url :=
    if startsWith u (lit "http://") || startsWith u (lit "https://")
    then u else lit "https://" ++ u in
  startsWith url (lit "http://") || startsWith url (lit "https://") = true /\
  exists others,
    trace (run env (navigate page (VStr u)) w)
    = Goto page url 30000 :: others /\
    Forall (fun c => match c with Goto _ _ _ => False | _ => True end)
           others.
Proof.
  intros url. split.
  - subst url.
    destruct (startsWith u (lit "http://") || startsWith u (lit "https://"))
      eqn:E; [exact E|].
    rewrite startsWith_app. apply orb_true_r.
  - unfold navigate.
    replace (if negb (startsWith u (lit "http://"))
                && negb (startsWith u (lit "https://"))
             then lit "https://" ++ u else u) with url
      by (subst url; destruct (startsWith u (lit "http://")),
            (startsWith u (lit "https://")); reflexivity).
    clearbody url.
    repeat (cbn [bind await try_catch run logged trace];
            match goal with
            | |- context [on_call env ?c ?w0] =>
              destruct (on_call env c w0) as [[?|?] ?]
            end);
      cbn [bind await try_catch run logged trace];
      eexists; (split; [reflexivity|repeat constructor]).
Qed.



(** X4: [goBack] does not take a navigation that went nowhere for a
    success.  When the address read after the navigation and the pause is
    the one read before, the string returned does not announce
    [Navigated back to]; and if the three operations went through it is
    the notice that the site routes on the client. *)
Theorem goBack_reports_same_url {W} (env : Env W) (w : W) (page : Page) :
  let back := on_call env (GoBack page 10000) w in
  let pause := on_call env (WaitForTimeout page (ofZ 800)) (snd back) in
  let urlAfter := on_get env (PageUrl page) (snd pause) in
  urlAfter = on_get env (PageUrl page) w ->
  exists s,
    returned (run env (goBack page) w) = inr s /\
    startsWith s (lit "Navigated back to ") = false /\
    forall title,
      fst back = Resolved tt -> fst pause = Resolved tt ->
      fst (on_call env (Title page) (snd pause)) = Resolved title ->
      s = lit "go_back did NOT work — the page is still " ++ DQ ++ title
          ++ DQ ++ lit " (" ++ urlAfter
          ++ lit "). This site uses client-side routing. Use navigate() with the target URL, or click a link/button to go where you need.".
Proof.
  intros back pause urlAfter H. subst urlAfter back pause.
  unfold goBack. cbn [bind get await try_catch run].
  destruct (on_call env (GoBack page 10000) w) as [[[]|e] w1];
    cbn [bind get await try_catch run logged returned fst snd] in *;
    [|eexists; split; [reflexivity|]; split; [reflexivity|];
      intros; discriminate].
  destruct (on_call env (WaitForTimeout page (ofZ 800)) w1)
    as [[[]|e] w2];
    cbn [bind get await try_catch run logged returned fst snd] in *;
    [|eexists; split; [reflexivity|]; split; [reflexivity|];
      intros; discriminate].
  destruct (on_call env (Title page) w2) as [[title|e] w3];
    cbn [bind get await try_catch run logged returned fst snd] in *;
    [|eexists; split; [reflexivity|]; split; [reflexivity|];
      intros; discriminate].
  rewrite H, streq_refl. cbn [run returned].
  eexists; split; [reflexivity|]; split; [reflexivity|].
  intros t _ _ E. inversion E; subst. reflexivity.
Qed.

Lemma goBack_reports_same_url_witness :
  let env := steadyPage (lit "https://app.example/#/inbox") (lit "Inbox") in
  on_get env (PageUrl 0%nat)
    (snd (on_call env (WaitForTimeout 0%nat (ofZ 800))
            (snd (on_call env (GoBack 0%nat 10000) 0%nat))))
  = on_get env (PageUrl 0%nat) 0%nat /\
  exists s,
    returned (run env (goBack 0%nat) 0%nat) = inr s /\
    startsWith s (lit "Navigated back to ") = false.
Proof.
  intros env.
  assert (H : on_get env (PageUrl 0%nat)
                (snd (on_call env (WaitForTimeout 0%nat (ofZ 800))
                        (snd (on_call env (GoBack 0%nat 10000) 0%nat))))
              = on_get env (PageUrl 0%nat) 0%nat)
    by (vm_compute; reflexivity).
  split; [exact H|].
  destruct (goBack_reports_same_url env 0%nat 0%nat H)
    as (s & R & N & _).
  exists s. split; [exact R | exact N].
Defined.

End ActionsSpec.

(* ================================================================== *)
(** * The selector forms [resolveLocator] accepts *)
(* ================================================================== *)

Module ResolverRules.

Import Re Effects Llm Actions ReFacts Example JsFacts.

(** A star over one class fails when what follows fails after every run
    of that class it could read. *)
Lemma star_class_fails p g k : forall fuel s,
  (forall s', (exists run, rest s = run ++ rest s' /\ forallb p run = true) ->
              k s' = None) ->
  star (m (Chr p)) g k fuel s = None.
Proof.
  induction fuel as [|fuel IH]; intros s Hk.
  - cbn. apply Hk. exists []. auto.
  - cbn [star m].
    assert (K : k s = None) by (apply Hk; exists []; auto).
    rewrite K.
    destruct (rest s) as [|c t] eqn:R; [destruct g; reflexivity|].
    destruct (p c) eqn:P; [|destruct g; reflexivity].
    cbn [rest].
    destruct (_ <? _)%nat; [|destruct g; reflexivity].
    rewrite IH; [destruct g; reflexivity|].
    intros s' (run & Hr & Hp). cbn [rest] in Hr.
    apply Hk. exists (c :: run). rewrite Hr. split; auto.
    cbn. now rewrite P.
Qed.

(** The same for [a+]. *)
Lemma plus_class_fails p g k s :
  (forall s', (exists run, rest s = run ++ rest s' /\ forallb p run = true) ->
              k s' = None) ->
  m (Plus g (Chr p)) s k = None.
Proof.
  intros Hk. unfold Plus. cbn [m].
  destruct (rest s) as [|c t] eqn:R; auto.
  destruct (p c) eqn:P; auto.
  apply star_class_fails. intros s' (run & Hr & Hp). cbn [rest] in Hr.
  apply Hk. exists (c :: run). rewrite Hr. split; auto. cbn. now rewrite P.
Qed.

(** A selector opens with a bare word when the word characters it
    starts with are followed by nothing, or by a character that is not
    white space. *)
Lemma run_of_word w tail run r :
  forallb is_word w = true ->
  match tail with c :: _ => is_word c = false | [] => True end ->
  w ++ tail = run ++ r -> forallb is_word run = true ->
  exists w2, r = w2 ++ tail /\ forallb is_word w2 = true.
Proof.
  revert run. induction w as [|x w IH]; intros run Hw Ht E Hr.
  - destruct run as [|y run].
    + exists []. auto.
    + cbn in E. subst tail. cbn in Hr. apply andb_prop in Hr as [Hy _].
      rewrite Hy in Ht. discriminate.
  - cbn in Hw. apply andb_prop in Hw as [Hx Hw].
    destruct run as [|y run].
    + exists (x :: w). cbn in *. rewrite Hx, Hw. auto.
    + cbn in E. inversion E; subst y. cbn in Hr.
      apply andb_prop in Hr as [_ Hr]. eauto.
Qed.

Lemma word_not_space c : is_word c = true -> is_space c = false.
Proof.
  intros H. destruct (is_space c) eqn:E; auto.
  apply ResolverSpec.space_not_word in E. congruence.
Qed.

(** The three ARIA patterns all start with [^(\w+)\s+]: they match no
    selector that opens with a bare word. *)
Lemma word_space_fails (R : regex) w tail k :
  forallb is_word w = true ->
  match tail with
  | c :: _ => is_word c = false /\ is_space c = false
  | [] => True
  end ->
  m (Seq (Grp 1 (Plus true (Chr is_word)))
         (Seq (Plus true (Chr is_space)) R))
    (at_ None (w ++ tail)) k = None.
Proof.
  intros Hw Ht. cbn [m]. apply plus_class_fails.
  intros s' (run & Hr & Hp). cbn [at_ rest] in Hr.
  destruct (run_of_word w tail run (rest s') Hw) as (w2 & E & Hw2); auto.
  { destruct tail; tauto. }
  unfold Plus. cbn [m rest prev caps]. rewrite E.
  destruct w2 as [|x w2].
  - destruct tail as [|c t]; auto. cbn. destruct Ht as [_ ->]. reflexivity.
  - cbn in Hw2. apply andb_prop in Hw2 as [Hx _].
    cbn. now rewrite (word_not_space x Hx).
Qed.

(** [(a + s).slice(a.length)] is [s]. *)
Lemma slice_from_app (a s : jsstring) : slice_from (a ++ s) (strlen a) = s.
Proof.
  unfold slice_from, slice. rewrite strlen_app. unfold strlen.
  destruct (Z.of_nat (length a) <? 0)%Z eqn:E1; [apply Z.ltb_lt in E1; lia|].
  destruct (Z.of_nat (length a) + Z.of_nat (length s) <? 0)%Z eqn:E2;
    [apply Z.ltb_lt in E2; lia|].
  rewrite Z.min_l, Z.min_l by lia.
  destruct (_ <=? _)%Z eqn:L.
  - apply Z.leb_le in L. destruct s; [reflexivity|cbn [length] in L; lia].
  - rewrite Nat2Z.id.
    replace (Z.to_nat _) with (length s) by lia.
    rewrite skipn_app, skipn_all, Nat.sub_diag. cbn [app skipn].
    apply firstn_all.
Qed.

Section WithRuntime.

Variable rt : Runtime.

Lemma aria_patterns_fail w tail :
  forallb is_word w = true ->
  match tail with
  | c :: _ => is_word c = false /\ is_space c = false
  | [] => True
  end ->
  nestedAria rt (w ++ tail) = None /\
  quotedAria rt (w ++ tail) = None /\
  unquotedAria rt (w ++ tail) = None.
Proof.
  intros Hw Ht. unfold nestedAria, quotedAria, unquotedAria.
  unfold re_nested, re_aria, re_ariaNoQuote. rewrite !exec_anchored.
  rewrite !word_space_fails by assumption. auto.
Qed.

Lemma no_dash_no_strip (s : jsstring) :
  startsWith s (lit "-") = false -> replace re_listPrefix [] s = s.
Proof.
  intros H. unfold replace, re_listPrefix. rewrite exec_anchored.
  change (chr "-") with (Chr (is_char 45)). change (lit "-") with [45%N] in H.
  cbn [m at_ rest]. destruct s as [|c t]; [reflexivity|].
  cbn in H. rewrite andb_true_r in H. unfold is_char. now rewrite H.
Qed.

(** X6: a selector that passes the tree-path screen and starts with
    [text=], [label=] or [placeholder=] resolves to [getByText],
    [getByLabel] or [getByPlaceholder] of what follows the prefix,
    whatever that is. *)
Theorem resolveLocator_prefixes (prefix : string)
    (build : jsstring -> Locator) (s : jsstring) :
  In (prefix, build)
     [("text=", ByText); ("label=", ByLabel);
      ("placeholder=", ByPlaceholder)]%string ->
  let selector := lit prefix ++ s in
  test (re_root rt) selector
  || test (re_treePath rt) selector && test re_index selector = false ->
  resolveLocator rt (VStr selector) = inr (build s).
Proof.
  intros Hin selector Hscreen.
  assert (Hshape : exists w,
             selector = w ++ 61%N :: s /\ forallb is_word w = true).
  { subst selector.
    destruct Hin as [E|[E|[E|[]]]]; inversion E; subst prefix build.
    - exists (lit "text"). split; reflexivity.
    - exists (lit "label"). split; reflexivity.
    - exists (lit "placeholder"). split; reflexivity. }
  destruct Hshape as (w & Ew & Hw).
  destruct (aria_patterns_fail w (61%N :: s) Hw) as (N1 & N2 & N3);
    [split; reflexivity|].
  rewrite <- Ew in N1, N2, N3.
  cbn [resolveLocator]. rewrite no_dash_no_strip.
  2:{ subst selector.
      destruct Hin as [E|[E|[E|[]]]]; inversion E; reflexivity. }
  fold selector. rewrite Hscreen, N1, N2, N3. cbn [orElse].
  subst selector. clear - Hin.
  destruct Hin as [E|[E|[E|[]]]]; inversion E; subst prefix build.
  - change (rolePrefix (lit "text=" ++ s)) with (@None Locator).
    cbn [orElse]. rewrite startsWith_app.
    change 5%Z with (strlen (lit "text=")). now rewrite slice_from_app.
  - change (rolePrefix (lit "label=" ++ s)) with (@None Locator).
    cbn [orElse].
    change (startsWith (lit "label=" ++ s) (lit "text=")) with false.
    cbv iota. rewrite startsWith_app.
    change 6%Z with (strlen (lit "label=")). now rewrite slice_from_app.
  - change (rolePrefix (lit "placeholder=" ++ s)) with (@None Locator).
    cbn [orElse].
    change (startsWith (lit "placeholder=" ++ s) (lit "text=")) with false.
    change (startsWith (lit "placeholder=" ++ s) (lit "label=")) with false.
    cbv iota. rewrite startsWith_app.
    change 12%Z with (strlen (lit "placeholder=")).
    now rewrite slice_from_app.
Qed.

(** X7: a selector that opens with a bare word (its leading word
    characters are followed by nothing or by a character that is not
    white space), passes the tree-path screen and starts with none of
    [-], [role=], [text=], [label=] and [placeholder=], is taken for a
    CSS selector when it holds one of [#.[]>:=@], and for a loose text
    match otherwise. *)
Theorem resolveLocator_bare_word (w tail : jsstring) :
  let selector := w ++ tail in
  forallb is_word w = true ->
  match tail with
  | c :: _ => is_word c = false /\ is_space c = false
  | [] => True
  end ->
  existsb (startsWith selector)
          (map lit ["-"; "role="; "text="; "label="; "placeholder="]%string)
    = false ->
  test (re_root rt) selector
  || test (re_treePath rt) selector && test re_index selector = false ->
  resolveLocator rt (VStr selector)
  = inr (if test re_cssChars selector then ByCss selector
         else ByTextLoose selector).
Proof.
  intros selector Hw Ht Hp Hscreen.
  destruct (aria_patterns_fail w tail Hw Ht) as (N1 & N2 & N3).
  fold selector in N1, N2, N3.
  cbn [map existsb] in Hp. rewrite !orb_false_iff in Hp.
  destruct Hp as (P0 & P1 & P2 & P3 & P4 & _).
  cbn [resolveLocator]. rewrite (no_dash_no_strip selector P0).
  rewrite Hscreen, N1, N2, N3. unfold rolePrefix. rewrite P1, P2, P3, P4.
  reflexivity.
Qed.

(** A greedy star over one class, with nothing to satisfy afterwards,
    reads the whole run of that class. *)
Lemma star_class_all p : forall ws fuel pv s cs,
  forallb p ws = true ->
  match s with c :: _ => p c = false | [] => True end ->
  (length ws <= fuel)%nat ->
  exists pv',
    star (m (Chr p)) true Some fuel
         {| prev := pv; rest := ws ++ s; caps := cs |}
    = Some {| prev := pv'; rest := s; caps := cs |}.
Proof.
  induction ws as [|c ws IH]; intros fuel pv s cs Hws Hs Hf.
  - exists pv. destruct fuel as [|fuel]; [reflexivity|].
    cbn [star m app rest]. destruct s as [|c t]; [reflexivity|].
    now rewrite Hs.
  - cbn [forallb] in Hws. apply andb_prop in Hws as [Hc Hws].
    destruct fuel as [|fuel]; [cbn in Hf; lia|].
    cbn [star m app rest caps]. rewrite Hc. cbn [rest].
    replace (length (ws ++ s) <? length (c :: ws ++ s))%nat with true
      by (symmetry; apply Nat.ltb_lt; cbn; lia).
    destruct (IH fuel (Some c) s cs Hws Hs) as [pv' E];
      [cbn in Hf; lia|].
    cbn [m] in E. rewrite E. eauto.
Qed.

(** X8: the marker of a list item copied with it from the snapshot
    changes nothing: a dash and white space in front of a selector that
    itself starts with neither are dropped before anything else is
    looked at. *)
Theorem resolveLocator_ignores_list_marker (ws s : jsstring) :
  ws <> [] -> forallb is_space ws = true ->
  match s with
  | c :: _ => is_space c = false /\ c <> 45%N
  | [] => True
  end ->
  resolveLocator rt (VStr (lit "-" ++ ws ++ s)) = resolveLocator rt (VStr s).
Proof.
  intros Hne Hws Hs.
  assert (E1 : replace re_listPrefix [] (lit "-" ++ ws ++ s) = s).
  { unfold replace, re_listPrefix. rewrite exec_anchored.
    change (chr "-") with (Chr (is_char 45)). change (lit "-") with [45%N].
    unfold Plus. cbn [m at_ rest app prev caps]. cbn [is_char N.eqb Pos.eqb].
    destruct ws as [|c ws]; [congruence|].
    cbn [forallb] in Hws. apply andb_prop in Hws as [Hc Hws].
    cbn [app]. rewrite Hc.
    destruct (star_class_all is_space ws (S (length (ws ++ s))) (Some c) s []
                Hws) as [pv' E].
    - destruct s as [|x t]; tauto.
    - rewrite length_app. lia.
    - cbn [m] in E. cbn [rest caps]. rewrite E. reflexivity. }
  assert (E2 : replace re_listPrefix [] s = s).
  { apply no_dash_no_strip. change (lit "-") with [45%N].
    destruct s as [|c t]; [reflexivity|]. cbn. rewrite andb_true_r.
    apply N.eqb_neq. tauto. }
  cbn [resolveLocator]. now rewrite E1, E2.
Qed.

End WithRuntime.

Lemma resolveLocator_prefixes_witness :
  let selector := lit "text=" ++ lit "Sign in" in
  In ("text="%string, ByText)
     [("text=", ByText); ("label=", ByLabel);
      ("placeholder=", ByPlaceholder)]%string /\
  test (re_root runtime) selector
  || test (re_treePath runtime) selector && test re_index selector = false /\
  resolveLocator runtime (VStr (lit "text=Sign in"))
  = inr (ByText (lit "Sign in")).
Proof.
  intros selector.
  assert (Hin : In ("text="%string, ByText)
                   [("text=", ByText); ("label=", ByLabel);
                    ("placeholder=", ByPlaceholder)]%string)
    by (left; reflexivity).
  assert (H : test (re_root runtime) selector
              || test (re_treePath runtime) selector
                 && test re_index selector = false)
    by (vm_compute; reflexivity).
  split; [exact Hin|]. split; [exact H|].
  exact (resolveLocator_prefixes runtime "text=" ByText (lit "Sign in")
           Hin H).
Defined.

Lemma resolveLocator_bare_word_witness :
  let w := lit "a" in
  let tail := lit ".nav-link" in
  forallb is_word w = true /\
  (is_word 46 = false /\ is_space 46 = false) /\
  existsb (startsWith (w ++ tail))
          (map lit ["-"; "role="; "text="; "label="; "placeholder="]%string)
    = false /\
  test (re_root runtime) (w ++ tail)
  || test (re_treePath runtime) (w ++ tail) && test re_index (w ++ tail)
    = false /\
  resolveLocator runtime (VStr (lit "a.nav-link"))
  = inr (ByCss (lit "a.nav-link")).
Proof.
  intros w tail.
  assert (H1 : forallb is_word w = true) by reflexivity.
  assert (H2 : is_word 46 = false /\ is_space 46 = false)
    by (split; reflexivity).
  assert (H3 : existsb (startsWith (w ++ tail))
                 (map lit ["-"; "role="; "text="; "label=";
                           "placeholder="]%string) = false)
    by (vm_compute; reflexivity).
  assert (H4 : test (re_root runtime) (w ++ tail)
               || test (re_treePath runtime) (w ++ tail)
                  && test re_index (w ++ tail) = false)
    by (vm_compute; reflexivity).
  split; [exact H1|]. split; [exact H2|]. split; [exact H3|].
  split; [exact H4|].
  exact (resolveLocator_bare_word runtime w tail H1 H2 H3 H4).
Defined.

Lemma resolveLocator_ignores_list_marker_witness :
  let s := lit "button " ++ DQ ++ lit "Submit" ++ DQ in
  [32%N] <> [] /\ forallb is_space [32%N] = true /\
  resolveLocator runtime (VStr (lit "- " ++ s))
  = resolveLocator runtime (VStr s) /\
  resolveLocator runtime (VStr s)
  = inr (ByRole (lit "button") (Some (lit "Submit"))).
Proof.
  intros s.
  assert (H1 : [32%N] <> []) by discriminate.
  assert (H2 : forallb is_space [32%N] = true) by reflexivity.
  split; [exact H1|]. split; [exact H2|]. split.
  - exact (resolveLocator_ignores_list_marker runtime [32%N] s H1 H2
             ltac:(split; [reflexivity|discriminate])).
  - vm_compute. reflexivity.
Defined.

End ResolverRules.

(* ================================================================== *)
(** * The selector of a role and a name *)
(* ================================================================== *)

Module RoleAndName.

Import Re Effects Llm Actions ReFacts Example JsFacts ResolverRules.

(** A run of a class read from the front of [w ++ tail], [tail] not
    starting in the class, stays inside [w]. *)
Lemma run_inside (p : N -> bool) (w tail run r : list N) :
  forallb p w = true ->
  match tail with c :: _ => p c = false | [] => True end ->
  w ++ tail = run ++ r -> forallb p run = true ->
  exists w2, r = w2 ++ tail /\ w = run ++ w2.
Proof.
  revert run. induction w as [|x w IH]; intros run Hw Ht E Hr.
  - destruct run as [|y run].
    + exists []. auto.
    + cbn in E. subst tail. cbn in Hr. apply andb_prop in Hr as [Hy _].
      rewrite Hy in Ht. discriminate.
  - cbn in Hw. apply andb_prop in Hw as [Hx Hw].
    destruct run as [|y run].
    + exists (x :: w). auto.
    + cbn in E. inversion E; subst y. cbn in Hr.
      apply andb_prop in Hr as [_ Hr].
      destruct (IH run Hw Ht H1 Hr) as (w2 & -> & ->). eauto.
Qed.

(** A greedy star over a class reads the whole run when what follows
    accepts that. *)
Lemma star_greedy_takes p k x : forall (ws : list N) fuel pv s cs,
  forallb p ws = true ->
  match s with c :: _ => p c = false | [] => True end ->
  (length ws <= fuel)%nat ->
  k {| prev := last (map Some ws) pv; rest := s; caps := cs |} = Some x ->
  star (m (Chr p)) true k fuel {| prev := pv; rest := ws ++ s; caps := cs |}
  = Some x.
Proof.
  induction ws as [|c ws IH]; intros fuel pv s cs Hws Hs Hf Hk.
  - cbn [map last app] in *. destruct fuel as [|fuel]; [exact Hk|].
    cbn [star m rest]. destruct s as [|c t]; [exact Hk|].
    rewrite Hs. exact Hk.
  - cbn [forallb] in Hws. apply andb_prop in Hws as [Hc Hws].
    destruct fuel as [|fuel]; [cbn in Hf; lia|].
    cbn [star m app rest caps]. rewrite Hc. cbn [rest].
    replace (length (ws ++ s) <? length (c :: ws ++ s))%nat with true
      by (symmetry; apply Nat.ltb_lt; cbn; lia).
    pose proof (IH fuel (Some c) s cs Hws Hs) as E. cbn [m] in E.
    rewrite E; [reflexivity|cbn in Hf; lia|].
    destruct ws as [|y ws]; [exact Hk|].
    cbn [map] in *.
    rewrite (ResolverSpec.last_cons_default (Some y) (map Some ws)
               (Some c) pv).
    exact Hk.
Qed.

(** A greedy star that reads to the end of the input gives back its
    last character when what follows needs one. *)
Lemma star_greedy_gives_back p k x d : forall (ws : list N) fuel pv cs,
  forallb p ws = true -> p d = true ->
  (length ws < fuel)%nat ->
  (forall s', rest s' = [] -> k s' = None) ->
  k {| prev := last (map Some ws) pv; rest := [d]; caps := cs |} = Some x ->
  star (m (Chr p)) true k fuel
       {| prev := pv; rest := ws ++ [d]; caps := cs |}
  = Some x.
Proof.
  induction ws as [|c ws IH]; intros fuel pv cs Hws Hd Hf Hend Hk.
  - cbn [map last app] in *. destruct fuel as [|fuel]; [lia|].
    cbn [star m rest caps]. rewrite Hd. cbn [rest length].
    cbn [Nat.ltb Nat.leb].
    assert (E : star (fun s k0 =>
                        match rest s with
                        | [] => None
                        | c :: t =>
                          if p c
                          then k0 {| prev := Some c; rest := t;
                                     caps := caps s |}
                          else None
                        end) true k fuel
                     {| prev := Some d; rest := []; caps := cs |} = None).
    { destruct fuel as [|fuel]; cbn [star rest]; rewrite Hend; auto. }
    rewrite E. exact Hk.
  - cbn [forallb] in Hws. apply andb_prop in Hws as [Hc Hws].
    destruct fuel as [|fuel]; [cbn in Hf; lia|].
    cbn [star m app rest caps]. rewrite Hc. cbn [rest].
    replace (length (ws ++ [d]) <? length (c :: ws ++ [d]))%nat with true
      by (symmetry; apply Nat.ltb_lt; cbn; lia).
    pose proof (IH fuel (Some c) cs Hws Hd) as E. cbn [m] in E.
    rewrite E; [reflexivity|cbn in Hf; lia|exact Hend|].
    destruct ws as [|y ws]; [exact Hk|].
    cbn [map] in *.
    rewrite (ResolverSpec.last_cons_default (Some y) (map Some ws)
               (Some c) pv).
    exact Hk.
Qed.

Lemma firstn_front {A} (a b : list A) :
  firstn (length (a ++ b) - length b) (a ++ b) = a.
Proof.
  rewrite length_app.
  replace (length a + length b - length b)%nat with (length a) by lia.
  rewrite firstn_app, Nat.sub_diag, firstn_O, app_nil_r. apply firstn_all.
Qed.

Lemma plus_greedy_takes p k x c (ws : list N) pv s cs :
  p c = true -> forallb p ws = true ->
  match s with d :: _ => p d = false | [] => True end ->
  k {| prev := last (map Some ws) (Some c); rest := s; caps := cs |}
  = Some x ->
  m (Plus true (Chr p)) {| prev := pv; rest := c :: ws ++ s; caps := cs |} k
  = Some x.
Proof.
  intros Hc Hws Hs Hk. unfold Plus.
  change ((if p c
           then star (m (Chr p)) true k (S (length (ws ++ s)))
                  {| prev := Some c; rest := ws ++ s; caps := cs |}
           else None) = Some x).
  rewrite Hc.
  rewrite (star_greedy_takes p k x ws (S (length (ws ++ s))) (Some c) s cs);
    auto.
  rewrite length_app. lia.
Qed.

Lemma plus_greedy_gives_back p k x c d (ws : list N) pv cs :
  p c = true -> forallb p ws = true -> p d = true ->
  (forall s', rest s' = [] -> k s' = None) ->
  k {| prev := last (map Some ws) (Some c); rest := [d]; caps := cs |}
  = Some x ->
  m (Plus true (Chr p)) {| prev := pv; rest := c :: ws ++ [d]; caps := cs |}
    k
  = Some x.
Proof.
  intros Hc Hws Hd Hend Hk. unfold Plus.
  change ((if p c
           then star (m (Chr p)) true k (S (length (ws ++ [d])))
                  {| prev := Some c; rest := ws ++ [d]; caps := cs |}
           else None) = Some x).
  rewrite Hc.
  rewrite (star_greedy_gives_back p k x d ws (S (length (ws ++ [d])))
             (Some c) cs); auto.
  rewrite length_app. cbn. lia.
Qed.

Lemma word_not_quote c : is_word c = true -> is_char 34 c = false.
Proof.
  unfold is_word, is_upper, is_lower, is_digit, is_char.
  rewrite ?orb_true_iff, ?andb_true_iff, ?N.leb_le, ?N.eqb_eq, ?N.eqb_neq.
  lia.
Qed.

Lemma space_not_quote c : is_space c = true -> is_char 34 c = false.
Proof.
  unfold is_space, is_char.
  rewrite ?orb_true_iff, ?andb_true_iff, ?N.leb_le, ?N.eqb_eq, ?N.eqb_neq.
  lia.
Qed.

Section Selector.

Variables (r0 : N) (role' : list N) (w0 : N) (ws' : list N)
          (n0 : N) (name' : list N).

Local Abbreviation role := (r0 :: role').
Local Abbreviation ws := (w0 :: ws').
Local Abbreviation name := (n0 :: name').
Local Abbreviation selector := (role ++ ws ++ DQ ++ name ++ DQ).

Hypothesis role_word : forallb is_word role = true.
Hypothesis ws_space : forallb is_space ws = true.
Hypothesis name_plain :
  forallb (fun c => is_dot c && negb (is_char 34 c)) name = true.

Lemma name_dot : forallb is_dot name = true.
Proof.
  clear - name_plain. induction name as [|c l IH]; auto.
  cbn [forallb] in *. apply andb_prop in name_plain as [H1 H2].
  apply andb_prop in H1 as [H1 _]. rewrite H1. cbn. auto.
Qed.

(** [/^(\w+)\s+"(.+)"(\s+\[.*\])?$/] reads the role and the name. *)
Lemma aria_matches :
  exists f,
    exec re_aria selector = Some f /\
    group 1 (groups f) = Some role /\ group 2 (groups f) = Some name.
Proof.
  unfold re_aria. rewrite exec_anchored.
  pose proof name_dot as Hdot.
  cbn [forallb] in role_word, ws_space, Hdot.
  apply andb_prop in role_word as [Hr0 Hrole].
  apply andb_prop in ws_space as [Hw0 Hws].
  apply andb_prop in Hdot as [Hn0 Hname].
  assert (M : exists x,
             m (Seq (Grp 1 (Plus true (Chr is_word)))
               (Seq (Plus true (Chr is_space))
               (Seq (Lit DQ) (Seq (Grp 2 (Plus true (Chr is_dot)))
               (Seq (Lit DQ)
               (Seq (Opt (Grp 3 (Seq (Plus true (Chr is_space))
                           (Seq (chr "[") (Seq (Star true (Chr is_dot))
                                               (chr "]"))))))
                Eol))))))
               (at_ None selector) Some = Some x /\
             group 1 (caps x) = Some role /\ group 2 (caps x) = Some name).
  { eexists. split.
    - unfold DQ, at_. cbn [app].
      cbn [m]. cbn [rest prev caps].
      apply plus_greedy_takes; auto;
        [cbn; now apply ResolverSpec.space_not_word|].
      cbn [m rest prev caps].
      apply plus_greedy_takes; auto.
      cbn [Lit m rest prev caps].
      change (is_char 34 34) with true. cbv iota.
      cbn [m rest prev caps].
      apply plus_greedy_gives_back; auto.
      + intros s' E. cbn [m Lit rest prev caps]. rewrite E. reflexivity.
      + cbn [Lit m rest prev caps]. change (is_char 34 34) with true.
        cbv iota. unfold Opt, Plus. cbn [m rest prev caps]. reflexivity.
    - cbn [caps group Nat.eqb].
      split; f_equal.
      + exact (firstn_front (r0 :: role')
                 (w0 :: ws' ++ 34%N :: n0 :: name' ++ [34%N])).
      + exact (firstn_front (n0 :: name') [34%N]). }
  destruct M as (x & -> & G1 & G2). eexists. split; [reflexivity|].
  cbn [groups]. auto.
Qed.

Lemma quote_is_last (l pre t : list N) c :
  forallb (fun c => is_dot c && negb (is_char 34 c)) l = true ->
  l ++ [34%N] = pre ++ c :: t -> is_char 34 c = true -> t = [].
Proof.
  revert pre. induction l as [|x l IH]; intros pre Hl E Hc.
  - destruct pre as [|y pre]; cbn in E.
    + now inversion E.
    + inversion E. destruct pre; discriminate.
  - cbn [forallb] in Hl. apply andb_prop in Hl as [Hx Hl].
    apply andb_prop in Hx as [_ Hx]. apply negb_true_iff in Hx.
    destruct pre as [|y pre]; cbn in E; inversion E; subst.
    + congruence.
    + eauto.
Qed.

Lemma forallb_suffix {A} (p : A -> bool) (a b : list A) :
  forallb p (a ++ b) = true -> forallb p b = true.
Proof. rewrite forallb_app. intros H. now apply andb_prop in H. Qed.

(** [/^(\w+)\s+"(.+?)"\s+(\w+)\s+"(.+)"$/] needs four quotes. *)
Lemma nested_fails : exec re_nested selector = None.
Proof.
  unfold re_nested. rewrite exec_anchored.
  match goal with
  | |- match ?x with _ => _ end = None => assert (E : x = None)
  end; [|now rewrite E].
  pose proof role_word as Hrole. pose proof ws_space as Hws.
  cbn [m]. apply plus_class_fails.
  intros s1 (run1 & Hr1 & Hp1). cbn [at_ rest] in Hr1.
  destruct (run_inside is_word role (ws ++ DQ ++ name ++ DQ) run1 (rest s1)
              Hrole) as (w2 & E1 & Erole); auto.
  { cbn. apply ResolverSpec.space_not_word.
    cbn [forallb] in Hws. now apply andb_prop in Hws as [H _]. }
  cbn [m rest prev caps]. rewrite E1. apply plus_class_fails.
  intros s2 (run2 & Hr2 & Hp2). cbn [rest] in Hr2.
  cbn [m Lit rest prev caps]. unfold DQ at 1. cbn [Lit m].
  destruct w2 as [|x w2].
  - cbn [app] in Hr2.
    destruct (run_inside is_space ws (DQ ++ name ++ DQ) run2 (rest s2) Hws)
      as (ws2 & E2 & Ews); auto.
    { reflexivity. }
    rewrite E2. destruct ws2 as [|y ws2].
    + unfold DQ at 1. cbn [app]. change (is_char 34 34) with true.
      cbv iota. cbn [m rest prev caps]. apply plus_class_fails.
      intros s3 (run3 & Hr3 & Hp3). cbn [rest] in Hr3.
      cbn [m Lit rest prev caps]. unfold DQ at 1. cbn [Lit m].
      destruct (rest s3) as [|c t] eqn:R3; [reflexivity|].
      cbn [rest prev caps].
      destruct (is_char 34 c) eqn:C; [|reflexivity].
      assert (t = []) as ->.
      { unfold DQ in Hr3. eapply quote_is_last; eauto. }
      cbn [m rest]. unfold Plus. cbn [m rest]. reflexivity.
    + cbn [app].
      assert (Hy : is_space y = true).
      { rewrite Ews in Hws. apply forallb_suffix in Hws.
        cbn [forallb] in Hws. now apply andb_prop in Hws as [H _]. }
      now rewrite (space_not_quote y Hy).
  - assert (Hx : is_word x = true).
    { rewrite Erole in Hrole. apply forallb_suffix in Hrole.
      cbn [forallb] in Hrole. now apply andb_prop in Hrole as [H _]. }
    destruct run2 as [|y run2].
    + cbn [app] in Hr2. rewrite <- Hr2. cbn [app].
      now rewrite (word_not_quote x Hx).
    + cbn [app] in Hr2. inversion Hr2; subst y.
      cbn [forallb] in Hp2. apply andb_prop in Hp2 as [Hs _].
      rewrite (word_not_space x Hx) in Hs. discriminate.
Qed.

End Selector.

Lemma word_not_dash c : is_word c = true -> N.eqb c 45 = false.
Proof.
  unfold is_word, is_upper, is_lower, is_digit.
  rewrite ?orb_true_iff, ?andb_true_iff, ?N.leb_le, ?N.eqb_eq, ?N.eqb_neq.
  lia.
Qed.

(** X5: the selector the prompt asks for, a role and a quoted name,
    resolves to [getByRole].  For a role of word characters that is an
    ARIA role once in lower case, white space, and a name between
    double quotes that holds neither a double quote nor a line
    terminator, a selector that passes the tree-path screen gives
    [getByRole(role.toLowerCase(), { name })]. *)
Theorem resolveLocator_role_and_name (rt : Runtime)
    (role ws name : jsstring) :
  role <> [] -> ws <> [] -> name <> [] ->
  forallb is_word role = true ->
  forallb is_space ws = true ->
  forallb (fun c => is_dot c && negb (N.eqb c 34)) name = true ->
  isAriaRole (toLowerCase rt role) = true ->
  let selector := role ++ ws ++ DQ ++ name ++ DQ in
  test (re_root rt) selector
  || test (re_treePath rt) selector && test re_index selector = false ->
  resolveLocator rt (VStr selector)
  = inr (ByRole (toLowerCase rt role) (Some name)).
Proof.
  intros Hr Hw Hn Hrole Hws Hname Haria selector Hscreen.
  destruct role as [|r0 role']; [congruence|].
  destruct ws as [|w0 ws']; [congruence|].
  destruct name as [|n0 name']; [congruence|].
  cbn [resolveLocator]. rewrite no_dash_no_strip.
  2:{ subst selector. change (lit "-") with [45%N]. cbn [app startsWith].
      cbn [forallb] in Hrole. apply andb_prop in Hrole as [H0 _].
      now rewrite (word_not_dash r0 H0). }
  rewrite Hscreen. unfold nestedAria, quotedAria. subst selector.
  rewrite (nested_fails r0 role' w0 ws' n0 name' Hrole Hws Hname).
  destruct (aria_matches r0 role' w0 ws' n0 name' Hrole Hws Hname)
    as (f & -> & -> & ->).
  unfold lower. rewrite Haria. reflexivity.
Qed.

Lemma resolveLocator_role_and_name_witness :
  let role := lit "button" in
  let ws := lit " " in
  let name := lit "Submit" in
  (role <> [] /\ ws <> [] /\ name <> [] /\
   forallb is_word role = true /\ forallb is_space ws = true /\
   forallb (fun c => is_dot c && negb (N.eqb c 34)) name = true /\
   isAriaRole (toLowerCase runtime role) = true /\
   test (re_root runtime) (role ++ ws ++ DQ ++ name ++ DQ)
   || test (re_treePath runtime) (role ++ ws ++ DQ ++ name ++ DQ)
      && test re_index (role ++ ws ++ DQ ++ name ++ DQ) = false) /\
  resolveLocator runtime (VStr (lit "button " ++ DQ ++ lit "Submit" ++ DQ))
  = inr (ByRole (lit "button") (Some (lit "Submit"))).
Proof.
  intros role ws name.
  assert (H1 : role <> []) by discriminate.
  assert (H2 : ws <> []) by discriminate.
  assert (H3 : name <> []) by discriminate.
  assert (H4 : forallb is_word role = true) by reflexivity.
  assert (H5 : forallb is_space ws = true) by reflexivity.
  assert (H6 : forallb (fun c => is_dot c && negb (N.eqb c 34)) name = true)
    by reflexivity.
  assert (H7 : isAriaRole (toLowerCase runtime role) = true)
    by (vm_compute; reflexivity).
  assert (H8 : test (re_root runtime) (role ++ ws ++ DQ ++ name ++ DQ)
               || test (re_treePath runtime) (role ++ ws ++ DQ ++ name ++ DQ)
                  && test re_index (role ++ ws ++ DQ ++ name ++ DQ) = false)
    by (vm_compute; reflexivity).
  split; [repeat split; assumption|].
  exact (resolveLocator_role_and_name runtime role ws name
           H1 H2 H3 H4 H5 H6 H7 H8).
Defined.

End RoleAndName.

(* ================================================================== *)
(** * [PageExtractor.extract] *)
(* ================================================================== *)

Module SnapshotSpec.

Import Re Effects Llm Extractor Snapshot ProgFacts Example Scenes JsFacts.
Local Open Scope Z_scope.

Lemma extract_neverThrows budget page : neverThrows (extract budget page).
Proof.
  unfold extract. apply try_catch_neverThrows. intros e. constructor.
Qed.

Lemma extract_opening budget page :
  always (fun s => startsWith s (lit "Page: ")
                   || startsWith s (lit "Error extracting page content: ")
                   = true)
         (extract budget page).
Proof.
  unfold extract. apply always_try_catch.
  - eapply always_bind; [apply always_True|]. intros _ _.
    eapply always_bind; [apply always_True|]. intros url _.
    eapply always_bind; [apply always_True|]. intros title _.
    eapply always_bind; [apply always_True|]. intros ariaTree _.
    eapply always_bind; [apply always_True|]. intros scrollInfo _.
    constructor. cbn [join]. rewrite <- app_assoc.
    now rewrite startsWith_app.
  - intros e. constructor. rewrite startsWith_app. apply orb_true_r.
Qed.

(** X9: [extract] never throws.  In every environment it returns a
    string, and that string opens with [Page: ], the snapshot, or with
    [Error extracting page content: ]. *)
Theorem extract_returns_snapshot {W} (env : Env W) (w : W) (budget : Z)
    (page : Page) :
  exists s,
    returned (run env (extract budget page) w) = inr s /\
    startsWith s (lit "Page: ")
    || startsWith s (lit "Error extracting page content: ") = true.
Proof.
  destruct (neverThrows_run env _ w (extract_neverThrows budget page))
    as [s E].
  exists s. split; [exact E|].
  exact (always_run _ env _ w s (extract_opening budget page) E).
Qed.

(** X10: on a page that hangs, every operation losing to its timer,
    [extract] gives up on each of its five operations in turn and
    returns the snapshot made of the fall-backs; a budget of seven
    tokens is enough to leave the place-holder of the tree whole. *)
Theorem extract_on_hanging_page {W} (env : Env W) (w : W) (budget : Z)
    (page : Page) :
  (forall ms c w0, fst (on_race env ms c w0) = None) ->
  7 <= budget ->
  let o := run env (extract budget page) w in
  let url :=
    on_get env (PageUrl page)
           (snd (on_race env 10000 (WaitForLoadState page) w)) in
  trace o = [WaitForLoadState page; Title page; AriaSnapshot page 10000;
             EvaluateWalk page; EvaluateScrollInfo page] /\
  returned o
  = inr (join LF [lit "Page: Loading..."; lit "URL: " ++ url;
                  lit "Scroll: unknown"; []; lit "Accessibility Tree:";
                  lit "[Page content unavailable]"]).
Proof.
  intros Hang Hb o url. subst o url. unfold extract, withTimeout.
  assert (T : truncateToTokenBudget budget (lit "[Page content unavailable]")
              = lit "[Page content unavailable]").
  { unfold truncateToTokenBudget.
    replace (strlen (lit "[Page content unavailable]") <=? budget * 4)
      with true; [reflexivity|].
    symmetry. apply Z.leb_le. change (strlen _) with 26. lia. }
  repeat (cbn [bind get try_catch run logged trace returned snd streq];
          match goal with
          | |- context [on_race env ?ms ?c ?w0] =>
            let H := fresh "H" in
            pose proof (Hang ms c w0) as H;
            destruct (on_race env ms c w0) as [? ?];
            cbn [fst] in H; subst
          end).
  cbn [bind get try_catch run logged trace returned snd streq].
  rewrite T. split; reflexivity.
Qed.

Lemma extract_on_hanging_page_witness :
  let env := hangingPage (lit "https://slow.example/") (lit "Slow") in
  (forall ms c w0, fst (on_race env ms c w0) = None) /\ 7 <= 6000 /\
  returned (run env (extract 6000 0%nat) 0%nat)
  = inr (join LF [lit "Page: Loading..."; lit "URL: https://slow.example/";
                  lit "Scroll: unknown"; []; lit "Accessibility Tree:";
                  lit "[Page content unavailable]"]).
Proof.
  intros env.
  assert (H : forall ms c w0, fst (on_race env ms c w0) = None)
    by reflexivity.
  split; [exact H|]. split; [lia|].
  exact (proj2 (extract_on_hanging_page env 0%nat 6000 0%nat H
                  ltac:(lia))).
Defined.

End SnapshotSpec.

(* ================================================================== *)
(** * What the guard asks about *)
(* ================================================================== *)

Module GuardRules.

Import Re Effects Llm Guard Example JsFacts.

Lemma existsb_streq_false name names :
  ~ In name names -> existsb (streq name) names = false.
Proof.
  intros H. destruct (existsb (streq name) names) eqn:E; auto.
  apply existsb_exists in E as (x & Hx & Ex). apply streq_eq in Ex.
  subst x. contradiction.
Qed.

Section WithRuntime.

Variable rt : Runtime.

(** Outside [click], [type], [press_key] and [select_option] nothing is
    destructive. *)
Lemma isDestructiveAction_other_tools name argsStr pageContext :
  ~ In name CONTEXT_TOOLS ->
  isDestructiveAction rt name argsStr pageContext = false.
Proof.
  intros H. unfold isDestructiveAction.
  rewrite (existsb_streq_false name CONTEXT_TOOLS H).
  cbn [DESTRUCTIVE_TOOL_PATTERNS existsb fst snd].
  assert (C : streq name (lit "click") = false).
  { apply streq_neq. intros ->. apply H. vm_compute. tauto. }
  assert (P : streq name (lit "press_key") = false).
  { apply streq_neq. intros ->. apply H. vm_compute. tauto. }
  rewrite C, P. reflexivity.
Qed.

(** X11: the user is asked about [click], [type], [press_key] and
    [select_option] only.  Every other tool, known or not, is allowed
    whatever its arguments and the page say, and the confirm callback is
    not invoked. *)
Theorem checkAction_asks_about_four_tools (toolCall : ToolCall)
    (pageContext : jsstring) :
  ~ In (name (function toolCall)) CONTEXT_TOOLS ->
  isDestructiveAction rt (name (function toolCall))
    (arguments (function toolCall)) pageContext = false /\
  checkAction rt toolCall pageContext = Ret true.
Proof.
  intros H. pose proof (isDestructiveAction_other_tools _
                          (arguments (function toolCall)) pageContext H) as D.
  split; [exact D|]. unfold checkAction. rewrite D.
  destruct (existsb _ META_TOOLS); reflexivity.
Qed.

(** A literal matches itself under the [i] flag. *)
Lemma m_LitCI_self canon l : forall p post cs k,
  exists p',
    m (LitCI canon l) {| prev := p; rest := l ++ post; caps := cs |} k
    = k {| prev := p'; rest := post; caps := cs |}.
Proof.
  induction l as [|c l IH]; intros p post cs k; cbn [LitCI m app rest caps].
  - eauto.
  - unfold ci_char at 1. rewrite N.eqb_refl. apply IH.
Qed.

Lemma anyOfCI_matches (alts : list string) (a : string) p post :
  In a alts ->
  m (anyOfCI rt alts) (at_ p (lit a ++ post)) Some <> None.
Proof.
  induction alts as [|x alts IH]; intros Hin; [destruct Hin|].
  cbn [anyOfCI fold_right m].
  fold (anyOfCI rt alts).
  destruct Hin as [->|Hin].
  - unfold at_.
    destruct (m_LitCI_self (canonicalize rt) (lit a) p post [] Some)
      as [p' ->]. discriminate.
  - destruct (m (LitCI _ _) _ Some); [discriminate|]. now apply IH.
Qed.

(** A search finds what matches further on. *)
Lemma search_from_later r pre : forall i p s,
  (forall q, m r (at_ q s) Some <> None) ->
  found_some (search_from r i p (pre ++ s)) = true.
Proof.
  induction pre as [|c pre IH]; intros i p s H.
  - cbn [app]. specialize (H p).
    destruct s as [|x s]; cbn [search_from];
      destruct (m r _ Some); auto; congruence.
  - cbn [app search_from]. destruct (m r _ Some); auto.
Qed.

Lemma anyOfCI_test (alts : list string) (a : string) pre post :
  In a alts -> test (anyOfCI rt alts) (pre ++ lit a ++ post) = true.
Proof.
  intros Hin. unfold test, exec. apply search_from_later.
  intros q. now apply anyOfCI_matches.
Qed.

(** X12: a [click] whose arguments hold one of the thirteen words of its
    pattern, and a [press_key] whose arguments hold [Enter], are
    destructive on every page: [checkAction] puts the question to the
    user, once, and allows the action only on an answer that starts
    with [y] once in lower case. *)
Theorem checkAction_pattern_words {W} (env : Env W) (w : W)
    (tool word : string) (words : list string) (id pre post : jsstring)
    (pageContext : jsstring) :
  In (tool, words)
     [("click", ["удалить"; "delete"; "pay"; "оплат"; "submit"; "отправ";
                 "купить"; "buy"; "checkout"; "заказ"; "order"; "confirm";
                 "подтверд"]);
      ("press_key", ["Enter"])]%string ->
  In word words ->
  let argsStr := pre ++ lit word ++ post in
  let toolCall :=
    {| Llm.id := id;
       function := {| name := lit tool; arguments := argsStr |} |} in
  let question := Confirm (confirmPrompt (lit tool) argsStr pageContext) in
  let o := run env (checkAction rt toolCall pageContext) w in
  isDestructiveAction rt (lit tool) argsStr pageContext = true /\
  trace o = [question] /\
  forall answer,
    fst (on_call env question w) = Resolved answer ->
    returned o = inr (startsWith (toLowerCase rt answer) (lit "y")).
Proof.
  intros Htool Hword argsStr toolCall question o.
  assert (D : isDestructiveAction rt (lit tool) argsStr pageContext = true).
  { unfold isDestructiveAction.
    cbn [DESTRUCTIVE_TOOL_PATTERNS existsb fst snd].
    destruct Htool as [E|[E|[]]]; inversion E; subst tool words.
    - rewrite streq_refl. unfold argsStr.
      rewrite (anyOfCI_test _ word pre post Hword). reflexivity.
    - change (streq (lit "press_key") (lit "click")) with false.
      rewrite streq_refl. unfold argsStr.
      rewrite (anyOfCI_test _ word pre post Hword). reflexivity. }
  split; [exact D|].
  subst o. unfold checkAction. cbn [name function arguments toolCall].
  replace (existsb (streq (lit tool)) META_TOOLS) with false
    by (destruct Htool as [E|[E|[]]]; inversion E; reflexivity).
  rewrite D. cbn [bind await run]. fold question.
  destruct (on_call env question w) as [[answer|e] w'];
    cbn [bind run logged trace returned fst].
  - split; [reflexivity|]. intros a E. inversion E. reflexivity.
  - split; [reflexivity|]. intros a E. discriminate.
Qed.

End WithRuntime.

Lemma checkAction_asks_about_four_tools_witness :
  let toolCall := toolCall "call_4" "screenshot" "{}" in
  ~ In (name (function toolCall)) CONTEXT_TOOLS /\
  checkAction runtime toolCall (lit "Checkout (https://shop.example/)")
  = Ret true.
Proof.
  intros toolCall.
  assert (H : ~ In (name (function toolCall)) CONTEXT_TOOLS).
  { vm_compute. intros [E|[E|[E|[E|[]]]]]; discriminate. }
  split; [exact H|].
  exact (proj2 (checkAction_asks_about_four_tools runtime toolCall
                  (lit "Checkout (https://shop.example/)") H)).
Defined.

Lemma checkAction_pattern_words_witness :
  let env := steadyPage (lit "https://example.com/") (lit "Example") in
  let pre := lit "{" ++ DQ ++ lit "key" ++ DQ ++ lit ":" ++ DQ in
  let post := DQ ++ lit "}" in
  let toolCall :=
    {| id := lit "call_5";
       function := {| name := lit "press_key";
                      arguments := pre ++ lit "Enter" ++ post |} |} in
  let pageContext := lit "Example (https://example.com/)" in
  let question :=
    Confirm (confirmPrompt (lit "press_key") (pre ++ lit "Enter" ++ post)
                           pageContext) in
  In "Enter"%string ["Enter"%string] /\
  fst (on_call env question 0%nat) = Resolved (lit "n") /\
  trace (run env (checkAction runtime toolCall pageContext) 0%nat)
    = [question] /\
  returned (run env (checkAction runtime toolCall pageContext) 0%nat)
    = inr false.
Proof.
  intros env pre post toolCall pageContext question.
  assert (H : In "Enter"%string ["Enter"%string]) by (left; reflexivity).
  assert (A : fst (on_call env question 0%nat) = Resolved (lit "n"))
    by reflexivity.
  split; [exact H|]. split; [exact A|].
  destruct (checkAction_pattern_words runtime env 0%nat "press_key" "Enter"
              ["Enter"%string] (lit "call_5") pre post pageContext
              ltac:(right; left; reflexivity) H) as (_ & T & R).
  split; [exact T|]. exact (R (lit "n") A).
Defined.

End GuardRules.

(* ================================================================== *)
(** * More on [ToolExecutor.execute] *)
(* ================================================================== *)

Module RunFacts.

Import Re Effects Llm ProgFacts.

(** Running [p] and then [f]: the run of [p], followed, when [p]
    returns, by the run of [f] from where [p] left the environment. *)
Lemma run_bind {W A B} (env : Env W) (p : prog A) (f : A -> prog B) (w : W) :
  run env (bind p f) w
  = match returned (run env p w) with
    | inl e => {| returned := inl e; world := world (run env p w);
                  trace := trace (run env p w) |}
    | inr a =>
      let o := run env (f a) (world (run env p w)) in
      {| returned := returned o; world := world o;
         trace := trace (run env p w) ++ trace o |}
    end.
Proof.
  revert w. induction p as [a|e|q k IH|c k IH|ms c k IH]; intros w;
    cbn [bind run returned world trace app].
  - destruct (run env (f a) w); reflexivity.
  - reflexivity.
  - apply IH.
  - destruct (on_call env c w) as [r w']. rewrite IH.
    cbn [logged returned world trace].
    destruct (returned (run env (k r) w')); reflexivity.
  - destruct (on_race env ms c w) as [r w']. rewrite IH.
    cbn [logged returned world trace].
    destruct (returned (run env (k r) w')); reflexivity.
Qed.

(** A [try] around a program that returns changes nothing. *)
Lemma run_try_catch_returns {W A} (env : Env W) (p : prog A)
    (h : thrown -> prog A) (w : W) (a : A) :
  returned (run env p w) = inr a -> run env (try_catch p h) w = run env p w.
Proof.
  revert w. induction p as [a0|e|q k IH|c k IH|ms c k IH]; intros w;
    cbn [try_catch run returned].
  - reflexivity.
  - discriminate.
  - apply IH.
  - destruct (on_call env c w) as [r w']. cbn [logged returned].
    intros E. now rewrite IH.
  - destruct (on_race env ms c w) as [r w']. cbn [logged returned].
    intros E. now rewrite IH.
Qed.

End RunFacts.

Module ExecutorRules.

Import Re Effects Llm Guard Executor ProgFacts RunFacts Example Scenes
  JsFacts GuardRules.

Section WithRuntime.

Variable rt : Runtime.

Lemma getPageContextForSecurity_neverThrows page :
  neverThrows (getPageContextForSecurity page).
Proof.
  unfold getPageContextForSecurity. apply try_catch_neverThrows.
  intros e. constructor.
Qed.

Lemma guarded_dispatch_neverThrows ex name args page (allowed : bool) :
  neverThrows
    (if negb allowed then
       Ret (plainResult
              (lit "Action was blocked by user (security check). Try a different approach or ask the user."))
     else
       try_catch (dispatch rt ex name args page)
         (fun error =>
            Ret (plainResult
                   (lit "Tool " ++ DQ ++ name ++ DQ
                    ++ lit " execution error: " ++ errorText error)))).
Proof.
  destruct allowed; cbn [negb]; [|constructor].
  apply try_catch_neverThrows. intros e. constructor.
Qed.

(** X13: [execute] lets one exception through, the one the confirm
    callback rejects with.  Whatever else fails (the arguments, the
    page, the action, [wait] included) comes back as a result. *)
Theorem execute_throws_what_confirm_rejects {W} (env : Env W) (w : W)
    (ex : ToolExecutor) (toolCall : ToolCall) (page : Page) (e : thrown) :
  returned (run env (execute rt ex toolCall page) w) = inl e ->
  exists question w0,
    fst (on_call env (Confirm question) w0) = Rejected e.
Proof.
  unfold execute.
  destruct (JSON_parse rt _) as [args|]; [|discriminate].
  rewrite run_bind.
  destruct (neverThrows_run env _ w (getPageContextForSecurity_neverThrows page))
    as [pageContext ->].
  cbv zeta. cbn [returned].
  set (w1 := world (run env (getPageContextForSecurity page) w)).
  clearbody w1.
  rewrite run_bind. unfold checkAction.
  assert (Safe : forall allowed w0,
            exists r,
              returned
                (run env
                   (if negb allowed then
                      Ret (plainResult
                             (lit "Action was blocked by user (security check). Try a different approach or ask the user."))
                    else
                      try_catch
                        (dispatch rt ex (name (function toolCall)) args page)
                        (fun error =>
                           Ret (plainResult
                                  (lit "Tool " ++ DQ
                                   ++ name (function toolCall) ++ DQ
                                   ++ lit " execution error: "
                                   ++ errorText error)))) w0) = inr r).
  { intros allowed w0. apply neverThrows_run.
    apply guarded_dispatch_neverThrows. }
  destruct (existsb _ META_TOOLS).
  - cbn [run returned world].
    destruct (Safe true w1) as [r ->]. discriminate.
  - destruct (isDestructiveAction rt _ _ _).
    + cbn [bind await run].
      destruct (on_call env (Confirm _) w1) as [[answer|e'] w2] eqn:Q;
        cbn [bind run logged returned world].
      * destruct (Safe (startsWith (toLowerCase rt answer) (lit "y")) w2)
          as [r ->].
        discriminate.
      * intros E. inversion E; subst e'. eexists _, w1. now rewrite Q.
    + cbn [run returned world].
      destruct (Safe true w1) as [r ->]. discriminate.
Qed.

Lemma not_named name (tool : string) :
  ~ In name toolNames -> In (lit tool) toolNames -> named name tool = false.
Proof.
  intros H Hin. unfold named. apply streq_neq. intros ->. contradiction.
Qed.

Lemma dispatch_flags ex name args page :
  always (fun r =>
            (isDone r = true ->
             name = lit "done" /\ doneSummary r = Some (result r)) /\
            (needsUserInput r = true -> name = lit "ask_user"))
         (dispatch rt ex name args page).
Proof.
  unfold dispatch.
  repeat match goal with
         | |- always _ (if named name ?t then _ else _) =>
           destruct (named name t) eqn:?
         end;
    repeat (eapply always_bind; [apply always_True|]; intros ? _);
    constructor; cbn [plainResult isDone needsUserInput doneSummary result];
    split; intros; try discriminate.
  - match goal with
    | E : named name "ask_user" = true |- _ => apply streq_eq in E; exact E
    end.
  - match goal with
    | E : named name "done" = true |- _ => apply streq_eq in E; auto
    end.
Qed.

Lemma execute_flags ex toolCall page :
  always (fun r =>
            (isDone r = true ->
             name (function toolCall) = lit "done"
             /\ doneSummary r = Some (result r)) /\
            (needsUserInput r = true ->
             name (function toolCall) = lit "ask_user"))
         (execute rt ex toolCall page).
Proof.
  unfold execute. destruct (JSON_parse rt _) as [args|].
  - eapply always_bind; [apply always_True|]. intros pageContext _.
    eapply always_bind; [apply always_True|]. intros allowed _.
    destruct (negb allowed).
    + constructor. cbn. split; discriminate.
    + apply always_try_catch; [apply dispatch_flags|].
      intros e. constructor. cbn. split; discriminate.
  - constructor. cbn. split; discriminate.
Qed.

(** X14: [done] alone ends a run, and [ask_user] alone reports a question
    put to the user.  A result with [isDone] comes from a [done] call and
    carries its result as the summary; a result with [needsUserInput]
    comes from an [ask_user] call. *)
Theorem execute_finishes_on_done_only {W} (env : Env W) (w : W)
    (ex : ToolExecutor) (toolCall : ToolCall) (page : Page)
    (r : ToolExecutionResult) :
  returned (run env (execute rt ex toolCall page) w) = inr r ->
  (isDone r = true ->
   name (function toolCall) = lit "done"
   /\ doneSummary r = Some (result r)) /\
  (needsUserInput r = true -> name (function toolCall) = lit "ask_user").
Proof.
  intros E.
  exact (always_run _ env _ w r (execute_flags ex toolCall page) E).
Qed.

(** X15: a tool the executor does not know is not run.  Once its
    arguments have parsed, [execute] reads the title of the page for the
    guard, which lets the call pass, and answers with the list of the
    twelve tools. *)
Theorem execute_unknown_tool {W} (env : Env W) (w : W) (ex : ToolExecutor)
    (toolCall : ToolCall) (page : Page) (args : jsval) :
  JSON_parse rt (arguments (function toolCall)) = Some args ->
  ~ In (name (function toolCall)) toolNames ->
  let o := run env (execute rt ex toolCall page) w in
  returned o
  = inr (plainResult
           (lit "Unknown tool: " ++ DQ ++ name (function toolCall) ++ DQ
            ++ lit ". Available tools: navigate, click, type, scroll, read_page, go_back, select_option, press_key, hover, wait, ask_user, done"))
  /\ trace o = [Title page].
Proof.
  intros Hargs Hname o. subst o. unfold execute. rewrite Hargs.
  assert (Hmeta : existsb (streq (name (function toolCall))) META_TOOLS
                  = false).
  { apply existsb_streq_false. intros Hin. apply Hname.
    revert Hin. generalize (name (function toolCall)). intros n.
    vm_compute. tauto. }
  assert (Hctx : ~ In (name (function toolCall)) CONTEXT_TOOLS).
  { intros Hin. apply Hname.
    revert Hin. generalize (name (function toolCall)). intros n.
    vm_compute. tauto. }
  unfold checkAction. rewrite Hmeta.
  assert (D : dispatch rt ex (name (function toolCall)) args page
              = Ret (plainResult
                       (lit "Unknown tool: " ++ DQ
                        ++ name (function toolCall) ++ DQ
                        ++ lit ". Available tools: "
                        ++ join (lit ", ") toolNames))).
  { unfold dispatch.
    rewrite !not_named by (auto; vm_compute; tauto). reflexivity. }
  rewrite D.
  unfold getPageContextForSecurity. cbn [bind await get try_catch run].
  destruct (on_call env (Title page) w) as [[title|e] w1];
    cbn [bind await get try_catch run logged trace returned];
    rewrite (isDestructiveAction_other_tools rt _ _ _ Hctx);
    cbn [bind try_catch run negb trace returned]; split; reflexivity.
Qed.

(** X16: an action the user refuses is not run.  When the call is
    destructive on the page as the guard sees it, and the answer to the
    question does not start with [y] once in lower case, [execute] has
    read the title, put the question, and nothing more: it returns the
    notice that the action was blocked. *)
Theorem execute_blocked_action {W} (env : Env W) (w : W) (ex : ToolExecutor)
    (toolCall : ToolCall) (page : Page) (args : jsval) (answer : jsstring) :
  let name := name (function toolCall) in
  let argsStr := arguments (function toolCall) in
  let titled := on_call env (Title page) w in
  let pageContext :=
    match fst titled with
    | Resolved title =>
      title ++ lit " (" ++ on_get env (PageUrl page) (snd titled) ++ lit ")"
    | Rejected _ => lit "unknown page"
    end in
  let question := Confirm (confirmPrompt name argsStr pageContext) in
  JSON_parse rt argsStr = Some args ->
  ~ In name META_TOOLS ->
  isDestructiveAction rt name argsStr pageContext = true ->
  fst (on_call env question (snd titled)) = Resolved answer ->
  startsWith (toLowerCase rt answer) (lit "y") = false ->
  run env (execute rt ex toolCall page) w
  = {| returned :=
         inr (plainResult
                (lit "Action was blocked by user (security check). Try a different approach or ask the user."));
       world := snd (on_call env question (snd titled));
       trace := [Title page; question] |}.
Proof.
  intros name argsStr titled pageContext question Hargs Hmeta Hd Hans Hno.
  subst name argsStr. unfold execute. rewrite Hargs.
  unfold checkAction.
  rewrite (existsb_streq_false _ _ Hmeta).
  unfold getPageContextForSecurity. cbn [bind await get try_catch run].
  subst question pageContext titled.
  destruct (on_call env (Title page) w) as [[title|e] w1];
    cbn [fst snd bind await get try_catch run logged] in *;
    rewrite Hd; cbn [bind await run];
    destruct (on_call env (Confirm _) w1) as [[a|e'] w2];
    cbn [fst snd] in Hans; inversion Hans; subst;
    cbn [bind run logged]; rewrite Hno; reflexivity.
Qed.

End WithRuntime.

Lemma execute_throws_what_confirm_rejects_witness :
  let env := closedPage (lit "https://example.com/") in
  returned (run env (execute runtime executor deleteCall 0%nat) 0%nat)
    = inl pageClosed /\
  exists question w0,
    fst (on_call env (Confirm question) w0) = Rejected pageClosed.
Proof.
  intros env.
  assert (H : returned (run env (execute runtime executor deleteCall 0%nat)
                          0%nat) = inl pageClosed)
    by (vm_compute; reflexivity).
  split; [exact H|].
  exact (execute_throws_what_confirm_rejects runtime env 0%nat executor
           deleteCall 0%nat pageClosed H).
Defined.

Lemma execute_finishes_on_done_only_witness :
  let env := steadyPage (lit "https://example.com/") (lit "Example") in
  let r := {| result := VStr (lit "Found 3 flights."); isDone := true;
              doneSummary := Some (VStr (lit "Found 3 flights."));
              needsUserInput := false; userQuestion := None |} in
  returned (run env (execute runtime executor doneCall 0%nat) 0%nat) = inr r
  /\ (isDone r = true ->
      name (function doneCall) = lit "done"
      /\ doneSummary r = Some (result r)).
Proof.
  intros env r.
  assert (H : returned (run env (execute runtime executor doneCall 0%nat)
                          0%nat) = inr r)
    by (vm_compute; reflexivity).
  split; [exact H|].
  exact (proj1 (execute_finishes_on_done_only runtime env 0%nat executor
                  doneCall 0%nat r H)).
Defined.

Lemma execute_unknown_tool_witness :
  let env := steadyPage (lit "https://example.com/") (lit "Example") in
  JSON_parse runtime (arguments (function zoomCall)) = Some (VObj []) /\
  ~ In (name (function zoomCall)) toolNames /\
  trace (run env (execute runtime executor zoomCall 0%nat) 0%nat)
    = [Title 0%nat].
Proof.
  intros env.
  assert (H1 : JSON_parse runtime (arguments (function zoomCall))
               = Some (VObj [])) by reflexivity.
  assert (H2 : ~ In (name (function zoomCall)) toolNames).
  { vm_compute. intuition discriminate. }
  split; [exact H1|]. split; [exact H2|].
  exact (proj2 (execute_unknown_tool runtime env 0%nat executor zoomCall
                  0%nat (VObj []) H1 H2)).
Defined.

Lemma execute_blocked_action_witness :
  let env := steadyPage (lit "https://example.com/") (lit "Example") in
  let pageContext := lit "Example (https://example.com/)" in
  let question :=
    Confirm (confirmPrompt (lit "click")
               (arguments (function deleteCall)) pageContext) in
  (JSON_parse runtime (arguments (function deleteCall))
   = Some (VObj [(lit "selector", VStr (lit "text=Delete"))]) /\
   ~ In (name (function deleteCall)) META_TOOLS /\
   isDestructiveAction runtime (lit "click")
     (arguments (function deleteCall)) pageContext = true /\
   fst (on_call env question 1%nat) = Resolved (lit "n") /\
   startsWith (toLowerCase runtime (lit "n")) (lit "y") = false) /\
  trace (run env (execute runtime executor deleteCall 0%nat) 0%nat)
    = [Title 0%nat; question].
Proof.
  intros env pageContext question.
  assert (H1 : JSON_parse runtime (arguments (function deleteCall))
               = Some (VObj [(lit "selector", VStr (lit "text=Delete"))]))
    by (vm_compute; reflexivity).
  assert (H2 : ~ In (name (function deleteCall)) META_TOOLS).
  { vm_compute. intuition discriminate. }
  assert (H3 : isDestructiveAction runtime (lit "click")
                 (arguments (function deleteCall)) pageContext = true)
    by (vm_compute; reflexivity).
  assert (H4 : fst (on_call env question 1%nat) = Resolved (lit "n"))
    by reflexivity.
  assert (H5 : startsWith (toLowerCase runtime (lit "n")) (lit "y") = false)
    by reflexivity.
  split; [repeat split; assumption|].
  exact (f_equal trace
           (execute_blocked_action runtime env 0%nat executor deleteCall
              0%nat _ (lit "n") H1 H2 H3 H4 H5)).
Defined.

End ExecutorRules.

(* ================================================================== *)
(** * [BrowserManager] *)
(* ================================================================== *)

Module ManagerSpec.

Import Re Effects Llm Manager ProgFacts RunFacts Example.

(** Reading which pages are open asks nothing of the browser. *)
Lemma run_keepOpen {W} (env : Env W) (w : W) (pages : list Page) :
  run env (keepOpen pages) w
  = {| returned :=
         inr (filter (fun p => negb (on_get env (PageIsClosed p) w)) pages);
       world := w; trace := [] |}.
Proof.
  induction pages as [|p pages IH]; [reflexivity|].
  cbn [keepOpen bind get run]. rewrite run_bind, IH.
  cbn [returned world trace run filter app].
  destruct (on_get env (PageIsClosed p) w); reflexivity.
Qed.

Lemma run_openPages {W} (env : Env W) (w : W) :
  run env openPages w
  = {| returned :=
         inr (filter (fun p => negb (on_get env (PageIsClosed p) w))
                     (on_get env ContextPages w));
       world := w; trace := [] |}.
Proof. unfold openPages. cbn [bind get run]. apply run_keepOpen. Qed.

(** X17: [getActivePage] answers with the last page of the context that
    is not closed, and throws when the browser was not launched or no
    page is open.  It asks nothing of the browser. *)
Theorem getActivePage_last_open {W} (env : Env W) (w : W)
    (bm : BrowserManager) :
  let open :=
    filter (fun p => negb (on_get env (PageIsClosed p) w))
           (on_get env ContextPages w) in
  run env (getActivePage bm) w
  = {| returned :=
         if launched bm then
           match rev open with
           | active :: _ => inr active
           | [] => inl (ErrorObj (lit "No pages open in browser"))
           end
         else inl (ErrorObj (lit "Browser not launched"));
       world := w; trace := [] |}.
Proof.
  intros open. unfold getActivePage.
  destruct (launched bm); cbn [negb]; [|reflexivity].
  rewrite run_bind, run_openPages. cbn [returned world trace app].
  fold open. destruct (rev open); reflexivity.
Qed.

Lemma run_closeAllBut {W} (env : Env W) (active : Page) (pages : list Page) :
  forall w,
    returned (run env (closeAllBut active pages) w) = inr tt /\
    trace (run env (closeAllBut active pages) w)
    = map ClosePage (filter (fun p => negb (Nat.eqb p active)) pages).
Proof.
  induction pages as [|p pages IH]; intros w; [split; reflexivity|].
  cbn [closeAllBut filter]. rewrite run_bind.
  destruct (negb (Nat.eqb p active)).
  - unfold await_quiet. cbn [run].
    destruct (on_call env (ClosePage p) w) as [r w'].
    cbn [logged returned world trace run app map].
    destruct (IH w') as [R T]. rewrite R, T. split; reflexivity.
  - cbn [run returned world trace app].
    destruct (IH w) as [R T]. rewrite R, T. split; reflexivity.
Qed.

(** X18: [closeExtraTabs] closes the open pages other than the last one,
    each once and in order, and nothing when fewer than two pages are
    open; the page [getActivePage] answers with is not closed.  A page
    that fails to close does not stop it: it never throws. *)
Theorem closeExtraTabs_spares_active {W} (env : Env W) (w : W)
    (bm : BrowserManager) :
  let open :=
    filter (fun p => negb (on_get env (PageIsClosed p) w))
           (on_get env ContextPages w) in
  let o := run env (closeExtraTabs bm) w in
  returned o = inr tt /\
  trace o
  = (if launched bm then
       match rev open with
       | active :: _ :: _ =>
         map ClosePage (filter (fun p => negb (Nat.eqb p active)) open)
       | _ => []
       end
     else []) /\
  forall active,
    returned (run env (getActivePage bm) w) = inr active ->
    ~ In (ClosePage active) (trace o).
Proof.
  intros open o.
  assert (H : returned o = inr tt /\
              trace o
              = (if launched bm then
                   match rev open with
                   | active :: _ :: _ =>
                     map ClosePage
                         (filter (fun p => negb (Nat.eqb p active)) open)
                   | _ => []
                   end
                 else [])).
  { subst o. unfold closeExtraTabs.
    destruct (launched bm); cbn [negb]; [|split; reflexivity].
    rewrite run_bind, run_openPages. cbn [returned world trace app].
    fold open. destruct (rev open) as [|a [|b l]]; try (split; reflexivity).
    apply run_closeAllBut. }
  destruct H as [R T]. split; [exact R|]. split; [exact T|].
  intros active. unfold getActivePage. rewrite T.
  destruct (launched bm); cbn [negb]; [|discriminate].
  rewrite run_bind, run_openPages. cbn [returned world trace app].
  fold open.
  destruct (rev open) as [|a [|b l]]; try discriminate.
  - intros _ [].
  - cbn [run returned]. intros E. inversion E; subst a. intros Hin.
    apply in_map_iff in Hin as (p & Ep & Hp). inversion Ep; subst p.
    apply filter_In in Hp as [_ Hp]. now rewrite Nat.eqb_refl in Hp.
Qed.

End ManagerSpec.

(* ================================================================== *)
(** * The window and the observations *)
(* ================================================================== *)

Module ContextRules.

Import Re Effects Llm Context Example.
Local Open Scope Z_scope.

(** What [findSafeWindowStart] returns is at most where it was asked to
    start, and what lies between is tool results. *)
Lemma findSafeWindowStart_back ms target start :
  findSafeWindowStart ms target = inr start ->
  (start <= target)%nat /\
  forall i, (start < i <= target)%nat ->
    exists msg, nth_error ms i = Some msg /\ isTool msg = true.
Proof.
  induction target as [|t IH]; cbn [findSafeWindowStart]; intros H.
  - inversion H. split; [lia|]. intros i Hi. lia.
  - destruct (nth_error ms (S t)) as [msg|] eqn:E; [|discriminate].
    destruct (isTool msg) eqn:T.
    + destruct (IH H) as [L B]. split; [lia|].
      intros i Hi. destruct (Nat.eq_dec i (S t)) as [->|Hne]; eauto.
      apply B. lia.
    + inversion H; subst. split; [lia|]. intros i Hi. lia.
Qed.

(** X19: the window of [getRecentMessages] is the end of the log from
    some index [start] on.  It holds the last [maxHistoryMessages]
    messages; where those would begin on a tool result it reaches back,
    over tool results only, to a message that is not one, or to the
    beginning of the log. *)
Theorem getRecentMessages_window (c : ContextManager)
    (recent : list Message) :
  getRecentMessages c = inr recent ->
  exists start : nat,
    recent = skipn start (messages c) /\
    Z.of_nat start <= Z.max 0 (messageCount c - maxHistoryMessages c) /\
    (forall i : nat,
       Z.of_nat start < Z.of_nat i
         <= messageCount c - maxHistoryMessages c ->
       exists msg, nth_error (messages c) i = Some msg /\ isTool msg = true)
    /\ (start = 0%nat \/
        exists msg,
          nth_error (messages c) start = Some msg /\ isTool msg = false).
Proof.
  unfold getRecentMessages, messageCount.
  destruct (_ <=? _) eqn:L.
  - intros E. inversion E; subst recent. apply Z.leb_le in L.
    exists 0%nat. split; [reflexivity|]. split; [lia|].
    split; [intros i Hi; lia | now left].
  - apply Z.leb_gt in L.
    destruct (findSafeWindowStart _ _) as [e|start] eqn:F; [discriminate|].
    intros E. inversion E; subst recent.
    destruct (findSafeWindowStart_back _ _ _ F) as [Hle Hback].
    exists start. split; [reflexivity|]. split; [lia|]. split.
    + intros i Hi. apply Hback. lia.
    + eapply ContextSpec.findSafeWindowStart_safe; eauto.
Qed.

Lemma getRecentMessages_window_witness :
  getRecentMessages answeredTwice
  = inr [AssistantMessage None (Some [scrollCall; readCall]);
         ToolResultMessage (id scrollCall) (VStr (lit "Scrolled down."));
         ToolResultMessage (id readCall) (VStr (lit "Page: Example"))] /\
  exists start : nat,
    Z.of_nat start
      <= Z.max 0 (messageCount answeredTwice
                  - maxHistoryMessages answeredTwice) /\
    (start = 0%nat \/
     exists msg,
       nth_error (messages answeredTwice) start = Some msg
       /\ isTool msg = false).
Proof.
  assert (H : getRecentMessages answeredTwice
              = inr [AssistantMessage None (Some [scrollCall; readCall]);
                     ToolResultMessage (id scrollCall)
                       (VStr (lit "Scrolled down."));
                     ToolResultMessage (id readCall)
                       (VStr (lit "Page: Example"))])
    by (vm_compute; reflexivity).
  split; [exact H|].
  destruct (getRecentMessages_window answeredTwice _ H)
    as (start & _ & B & _ & S).
  exists start. split; [exact B | exact S].
Defined.

Lemma removeLastUser_last ms content :
  removeLastUser (ms ++ [UserMessage content]) = Some ms.
Proof.
  induction ms as [|m ms IH]; [reflexivity|].
  cbn [app removeLastUser]. now rewrite IH.
Qed.

Section WithRuntime.

Variable rt : Runtime.

(** Where the window starts when it is cut at all. *)
Lemma findSafeWindowStart_inside ms target start :
  findSafeWindowStart ms target = inr start ->
  start = 0%nat \/ (start < length ms)%nat.
Proof.
  intros F. destruct (findSafeWindowStart_back _ _ _ F) as [Hle _].
  destruct target as [|t]; [left; lia|]. right.
  cbn [findSafeWindowStart] in F.
  destruct (nth_error ms (S t)) eqn:E; [|discriminate].
  assert (S t < length ms)%nat by (apply nth_error_Some; congruence).
  lia.
Qed.

(** Compression never drops the observation just added. *)
Lemma addObservation_last (content : jsstring) (c : ContextManager) :
  exists n : nat,
    messages (state (addObservation rt content c))
    = skipn n (messages c) ++ [UserMessage content] /\
    actionHistory (state (addObservation rt content c)) = actionHistory c /\
    (messageCount c < maxHistoryMessages c -> n = 0%nat).
Proof.
  unfold addObservation, compressIfNeeded.
  set (c1 := withMessages c (messages c ++ [UserMessage content])).
  destruct (gt _ _ && _) eqn:G.
  - apply andb_prop in G as [_ G]. apply Z.ltb_lt in G.
    unfold messageCount, c1 in G.
    cbn [withMessages messages maxHistoryMessages] in G.
    rewrite length_app in G. cbn [length] in G.
    destruct (findSafeWindowStart _ _) as [e|start] eqn:F.
    + exists 0%nat. cbn [state raise]. auto.
    + cbn [state ok]. exists start.
      assert (Hs : (start <= length (messages c))%nat).
      { destruct (findSafeWindowStart_inside _ _ _ F) as [->|H]; [lia|].
        unfold c1 in H. cbn [withMessages messages] in H.
        rewrite length_app in H. cbn [length] in H. lia. }
      repeat split.
      * cbn [withMessages messages c1]. rewrite skipn_app.
        replace (start - length (messages c))%nat with 0%nat by lia.
        reflexivity.
      * unfold messageCount. intros Hlt. lia.
  - exists 0%nat. cbn [state ok]. auto.
Qed.

(** X20: an observation can be taken back.  [addObservation] leaves the
    log as some end of the old log followed by the new observation,
    which compression never drops, and [removeLastObservation] then
    leaves that end of the old log: the whole of it when the old log
    was shorter than the window. *)
Theorem removeLastObservation_undoes_addObservation (content : jsstring)
    (c : ContextManager) :
  let added := state (addObservation rt content c) in
  exists n : nat,
    messages added = skipn n (messages c) ++ [UserMessage content] /\
    messages (removeLastObservation added) = skipn n (messages c) /\
    actionHistory (removeLastObservation added) = actionHistory c /\
    (messageCount c < maxHistoryMessages c -> n = 0%nat).
Proof.
  intros added. subst added.
  destruct (addObservation_last content c) as (n & E & H & Z0).
  exists n. unfold removeLastObservation.
  rewrite E, removeLastUser_last. cbn [withMessages messages actionHistory].
  auto.
Qed.

End WithRuntime.

End ContextRules.

(* ================================================================== *)
(** * What [isStuck] flags *)
(* ================================================================== *)

Module StuckRules.

Import Re Effects Llm Context Executor Agent Example JsFacts.

(** Whether index [i] is a visit, as [visitStep] tests it. *)
Lemma visitStep_cases l u v i :
  (visitStep l u v i = S v /\ is_visit l u i) \/ visitStep l u v i = v.
Proof.
  unfold visitStep, is_visit.
  destruct (nth_error l i) as [e|] eqn:E; auto.
  destruct (streq (url e) u) eqn:U; auto. apply streq_eq in U.
  destruct (i =? 0)%nat eqn:Z.
  - apply Nat.eqb_eq in Z. left. split; auto. exists e. auto.
  - cbn [orb]. destruct (nth_error l (i - 1)) as [p|] eqn:P; auto.
    destruct (streq (url p) u) eqn:Up; cbn [negb]; auto.
    apply streq_neq in Up. left. split; auto.
    exists e. repeat split; auto. right. exists p. auto.
Qed.

(** The counter of [isStuck] counts visits and nothing else: what it
    adds, it adds for as many distinct visits among the indices. *)
Lemma fold_visit_sound l u ixs : forall v,
  NoDup ixs ->
  exists vs,
    NoDup vs /\ incl vs ixs /\ (forall i, In i vs -> is_visit l u i) /\
    fold_left (visitStep l u) ixs v = (v + length vs)%nat.
Proof.
  induction ixs as [|i ixs IH]; intros v Hnd.
  - exists []. cbn. repeat split; auto using NoDup_nil, incl_nil_l.
    + intros i [].
  - inversion Hnd as [|? ? Hni Hnd']; subst. cbn [fold_left].
    destruct (visitStep_cases l u v i) as [[E V]|E]; rewrite E.
    + destruct (IH (S v) Hnd') as (vs & N & I & Vs & F).
      exists (i :: vs). repeat split.
      * constructor; auto.
      * intros x [<-|Hx]; [now left|right; auto].
      * intros x [<-|Hx]; auto.
      * rewrite F. cbn [length]. lia.
    + destruct (IH v Hnd') as (vs & N & I & Vs & F).
      exists vs. repeat split; auto.
      intros x Hx. right. auto.
Qed.

Lemma three_visits l u :
  (3 <= fold_left (visitStep l u) (seq 0 (length l)) 0)%nat ->
  exists i j k,
    (i < j < k)%nat /\ is_visit l u i /\ is_visit l u j /\ is_visit l u k.
Proof.
  intros H.
  destruct (fold_visit_sound l u (seq 0 (length l)) 0 (seq_NoDup _ _))
    as (vs & N & _ & V & F).
  rewrite F in H. cbn in H.
  destruct vs as [|a [|b [|c vs]]]; cbn in H; try lia.
  assert (Va : is_visit l u a) by (apply V; cbn; auto).
  assert (Vb : is_visit l u b) by (apply V; cbn; auto).
  assert (Vc : is_visit l u c) by (apply V; cbn; auto).
  inversion N as [|? ? Na N']; subst. inversion N' as [|? ? Nb N'']; subst.
  assert (a <> b) by (intros ->; apply Na; cbn; auto).
  assert (a <> c) by (intros ->; apply Na; cbn; auto).
  assert (b <> c) by (intros ->; apply Nb; cbn; auto).
  destruct (Nat.lt_total a b) as [?|[?|?]]; try contradiction;
    destruct (Nat.lt_total a c) as [?|[?|?]]; try contradiction;
    destruct (Nat.lt_total b c) as [?|[?|?]]; try contradiction;
    try lia;
    [ exists a, b, c | exists a, c, b | exists c, a, b
    | exists b, a, c | exists b, c, a | exists c, b, a ];
    repeat split; auto; lia.
Qed.

(** The first check of [isStuck], spelled out. *)
Lemma exact_repetition recent a u :
  (2 <=? length recent)%nat
  && match nth_error recent (length recent - 1),
           nth_error recent (length recent - 2) with
     | Some last, Some secondLast =>
       streq (action last) a && streq (url last) u
       && streq (action secondLast) a && streq (url secondLast) u
     | _, _ => false
     end = true ->
  exists earlier x y,
    recent = earlier ++ [x; y] /\
    action x = a /\ url x = u /\ action y = a /\ url y = u.
Proof.
  intros H. apply andb_prop in H as [L H]. apply Nat.leb_le in L.
  destruct (nth_error recent (length recent - 1)) as [y|] eqn:Ey;
    [|discriminate].
  destruct (nth_error recent (length recent - 2)) as [x|] eqn:Ex;
    [|discriminate].
  rewrite !andb_true_iff in H. destruct H as [[[A1 U1] A2] U2].
  apply streq_eq in A1, U1, A2, U2.
  exists (firstn (length recent - 2) recent), x, y. repeat split; auto.
  rewrite <- (firstn_skipn (length recent - 2) recent) at 1. f_equal.
  assert (Hs : length (skipn (length recent - 2) recent) = 2%nat)
    by (rewrite length_skipn; lia).
  destruct (skipn (length recent - 2) recent) as [|x' [|y' [|z r]]] eqn:S;
    try discriminate.
  assert (Nx : nth_error recent (length recent - 2 + 0) = Some x')
    by (rewrite <- nth_error_skipn, S; reflexivity).
  assert (Ny : nth_error recent (length recent - 2 + 1) = Some y')
    by (rewrite <- nth_error_skipn, S; reflexivity).
  rewrite Nat.add_0_r in Nx.
  replace (length recent - 2 + 1)%nat with (length recent - 1)%nat in Ny
    by lia.
  congruence.
Qed.

(** X21: [isStuck] flags the two loops it is written for and nothing
    else.  When it returns [true], either the last two entries of
    [recentActions] are the proposed action on the proposed url, or
    [recentActions] followed by the proposed entry holds three visits to
    that url. *)
Theorem isStuck_flags_loops_only (recentActions : list ActionEntry)
    (currentAction currentUrl : jsstring) :
  isStuck recentActions currentAction currentUrl = true ->
  let allActions :=
    recentActions ++ [{| action := currentAction; url := currentUrl |}] in
  (exists earlier x y,
     recentActions = earlier ++ [x; y] /\
     action x = currentAction /\ url x = currentUrl /\
     action y = currentAction /\ url y = currentUrl) \/
  (exists i j k,
     (i < j < k)%nat /\ is_visit allActions currentUrl i /\
     is_visit allActions currentUrl j /\ is_visit allActions currentUrl k).
Proof.
  intros H allActions. unfold isStuck in H.
  destruct (_ && _) eqn:E.
  - left. now apply exact_repetition.
  - right. fold allActions in H.
    destruct (3 <=? _)%nat eqn:V; [|discriminate].
    apply Nat.leb_le in V. now apply three_visits.
Qed.

Lemma isStuck_flags_loops_only_witness :
  isStuck backAndForth (lit "go_back()") (lit "https://a/") = true /\
  let allActions :=
    backAndForth
    ++ [{| action := lit "go_back()"; url := lit "https://a/" |}] in
  (exists earlier x y,
     backAndForth = earlier ++ [x; y] /\
     action x = lit "go_back()" /\ url x = lit "https://a/" /\
     action y = lit "go_back()" /\ url y = lit "https://a/") \/
  (exists i j k,
     (i < j < k)%nat /\ is_visit allActions (lit "https://a/") i /\
     is_visit allActions (lit "https://a/") j /\
     is_visit allActions (lit "https://a/") k).
Proof.
  assert (H : isStuck backAndForth (lit "go_back()") (lit "https://a/")
              = true) by reflexivity.
  split; [exact H|].
  exact (isStuck_flags_loops_only backAndForth (lit "go_back()")
           (lit "https://a/") H).
Defined.

(** X22: work on one page is not taken for a loop.  While every entry of
    [recentActions] is on the proposed url, [isStuck] returns [true]
    only when the last two entries are the proposed action itself. *)
Theorem isStuck_spares_one_page (recentActions : list ActionEntry)
    (currentAction currentUrl : jsstring) :
  Forall (fun e => url e = currentUrl) recentActions ->
  isStuck recentActions currentAction currentUrl = true ->
  exists earlier x y,
    recentActions = earlier ++ [x; y] /\
    action x = currentAction /\ action y = currentAction.
Proof.
  intros Hall H. unfold isStuck in H.
  destruct (_ && _) eqn:E.
  - destruct (exact_repetition _ _ _ E) as (earlier & x & y & R & A & _ & B & _).
    exists earlier, x, y. auto.
  - exfalso.
    set (allActions :=
           recentActions ++ [{| action := currentAction; url := currentUrl |}])
      in *.
    destruct (3 <=? _)%nat eqn:V; [|discriminate].
    apply Nat.leb_le in V.
    destruct (three_visits _ _ V) as (i & j & k & L & _ & Vj & _).
    destruct Vj as (e & Ne & _ & [->|(p & Np & Up)]); [lia|].
    apply Up.
    assert (Hall' : Forall (fun e => url e = currentUrl) allActions).
    { apply Forall_app. split; auto. }
    rewrite Forall_forall in Hall'. apply Hall'.
    eapply nth_error_In; eauto.
Qed.

Lemma isStuck_spares_one_page_witness :
  let recent := recentActions clickedTwice in
  Forall (fun e => url e = lit "https://example.com/") recent /\
  isStuck recent (lit "click({})") (lit "https://example.com/") = true /\
  exists earlier x y,
    recent = earlier ++ [x; y] /\
    action x = lit "click({})" /\ action y = lit "click({})".
Proof.
  intros recent.
  assert (H1 : Forall (fun e => url e = lit "https://example.com/") recent)
    by (repeat constructor).
  assert (H2 : isStuck recent (lit "click({})") (lit "https://example.com/")
               = true) by reflexivity.
  split; [exact H1|]. split; [exact H2|].
  exact (isStuck_spares_one_page recent (lit "click({})")
           (lit "https://example.com/") H1 H2).
Defined.

End StuckRules.

(* ================================================================== *)
(** * A [done] call without a summary *)
(* ================================================================== *)

Module ToolCallRules.

Import Re Effects Llm Context Guard Executor Manager Agent ProgFacts RunFacts
  Example Scenes JsFacts.

Section WithRuntime.

Variable rt : Runtime.

(** What [execute] makes of a [done] call. *)
Lemma execute_done ex toolCall page fields :
  name (function toolCall) = lit "done" ->
  JSON_parse rt (arguments (function toolCall)) = Some (VObj fields) ->
  neverThrows (execute rt ex toolCall page) /\
  always (fun r =>
            r = {| Executor.result := lookup (lit "summary") fields;
                   Executor.isDone := true;
                   doneSummary := Some (lookup (lit "summary") fields);
                   needsUserInput := false; userQuestion := None |})
         (execute rt ex toolCall page).
Proof.
  intros Hname Hargs. unfold execute, checkAction. rewrite Hargs, Hname.
  change (existsb (streq (lit "done")) META_TOOLS) with true.
  cbn [bind negb]. split.
  - apply bind_neverThrows.
    + unfold getPageContextForSecurity. apply try_catch_neverThrows.
      intros e. constructor.
    + intros pageContext. apply try_catch_neverThrows. intros e. constructor.
  - eapply always_bind; [apply always_True|]. intros pageContext _.
    unfold dispatch.
    change (named (lit "done") "navigate") with false.
    change (named (lit "done") "click") with false.
    change (named (lit "done") "type") with false.
    change (named (lit "done") "scroll") with false.
    change (named (lit "done") "read_page") with false.
    change (named (lit "done") "go_back") with false.
    change (named (lit "done") "select_option") with false.
    change (named (lit "done") "press_key") with false.
    change (named (lit "done") "hover") with false.
    change (named (lit "done") "wait") with false.
    change (named (lit "done") "ask_user") with false.
    change (named (lit "done") "done") with true.
    cbv iota. cbn [prop bind try_catch]. constructor. reflexivity.
Qed.

(** X23: a [done] call without a summary does not end the run.  Its
    result, [undefined] or [null], is logged as a tool result; then
    [addToolResult] throws on reading its length, before the history is
    written and before [run] has set [isDone]: the pass ends in the
    [catch] of the iteration. *)
Theorem done_without_summary {W} (env : Env W) (w : W)
    (toolCall : ToolCall) (st : RunState)
    (fields : list (jsstring * jsval)) (missing : jsval) :
  name (function toolCall) = lit "done" ->
  JSON_parse rt (arguments (function toolCall)) = Some (VObj fields) ->
  lookup (lit "summary") fields = missing ->
  missing = VUndefined \/ missing = VNull ->
  isStuck (recentActions st) (toolDescription toolCall)
          (on_get env (PageUrl (page st)) w) = false ->
  exists st',
    returned (Effects.run env (processToolCall rt toolCall st) w)
    = inr (st', Raise (cannotRead missing (lit "length"))) /\
    isDone st' = isDone st /\ summary st' = summary st /\
    messages (context st')
    = messages (context st) ++ [ToolResultMessage (id toolCall) missing] /\
    actionHistory (context st') = actionHistory (context st).
Proof.
  intros Hname Hargs Hmiss Hkind Hstuck. unfold processToolCall.
  cbn [bind get Effects.run]. rewrite Hstuck.
  set (st1 := withRecentActions st _).
  destruct (execute_done (toolExecutor st1) toolCall (page st1) fields
              Hname Hargs) as [Hn Ha].
  rewrite Hmiss in Ha.
  destruct (neverThrows_run env _ w Hn) as [r Er].
  pose proof (always_run _ env _ w r Ha Er) as Hr.
  rewrite run_bind.
  rewrite (run_try_catch_returns env _ _ w (inr r))
    by (rewrite run_bind, Er; reflexivity).
  rewrite run_bind, Er. cbn [returned world trace Effects.run].
  rewrite run_bind.
  set (w1 := world (Effects.run env (execute rt _ _ _) w)).
  assert (Hrefresh :
            always (fun st2 => context st2 = context st
                               /\ isDone st2 = isDone st
                               /\ summary st2 = summary st)
                   (try_catch
                      (bind (closeExtraTabs (browserManager st1)) (fun _ =>
                       bind (getActivePage (browserManager st1))
                            (fun active => Ret (withPage st1 active))))
                      (fun _ => Ret st1))).
  { apply always_try_catch; [|intros e; constructor; cbn; auto].
    eapply always_bind; [apply always_True|]. intros _ _.
    eapply always_bind; [apply always_True|]. intros active _.
    constructor. cbn. auto. }
  match goal with
  | |- context [Effects.run env (try_catch ?p ?h) w1] =>
    destruct (neverThrows_run env (try_catch p h) w1) as [st2 E2];
      [apply try_catch_neverThrows; intros e; constructor|];
    pose proof (always_run _ env _ w1 st2 Hrefresh E2) as (C2 & D2 & S2);
    rewrite E2
  end.
  cbv zeta. cbv beta in Hr. subst r.
  cbn [Executor.result Executor.isDone doneSummary].
  rewrite C2.
  destruct Hkind as [->| ->]; cbn [addToolResult raised state raise];
    cbn [Effects.run returned]; eexists; (split; [reflexivity|]);
    cbn [isDone summary context withContext messages actionHistory
         withMessages]; auto.
Qed.



End WithRuntime.

Lemma done_without_summary_witness :
  let env := steadyPage (lit "https://example.com/") (lit "Example") in
  (name (function bareDoneCall) = lit "done" /\
   JSON_parse runtime (arguments (function bareDoneCall)) = Some (VObj []) /\
   lookup (lit "summary") [] = VUndefined /\
   isStuck (recentActions fresh) (toolDescription bareDoneCall)
           (on_get env (PageUrl (page fresh)) 0%nat) = false) /\
  exists st',
    returned (Effects.run env (processToolCall runtime bareDoneCall fresh)
                          0%nat)
    = inr (st', Raise (cannotRead VUndefined (lit "length"))) /\
    isDone st' = false.
Proof.
  intros env.
  assert (H1 : name (function bareDoneCall) = lit "done") by reflexivity.
  assert (H2 : JSON_parse runtime (arguments (function bareDoneCall))
               = Some (VObj [])) by reflexivity.
  assert (H3 : lookup (lit "summary") [] = VUndefined) by reflexivity.
  assert (H4 : isStuck (recentActions fresh) (toolDescription bareDoneCall)
                 (on_get env (PageUrl (page fresh)) 0%nat) = false)
    by reflexivity.
  split; [repeat split; assumption|].
  destruct (done_without_summary runtime env 0%nat bareDoneCall fresh []
              VUndefined H1 H2 H3 (or_introl eq_refl) H4)
    as (st' & R & D & _).
  exists st'. split; [exact R | exact D].
Defined.

End ToolCallRules.

(* ================================================================== *)
(** * The agent loop: it returns, and how often it asks *)
(* ================================================================== *)

Module LoopFacts.

Import Re Effects Llm Context Executor Manager Agent Loop ProgFacts Example
  Scenes.

(** Running [p] and then [f]. *)
Lemma perform_andThen {W L A B} (env : Env W) (llm : Model L)
    (p : agent A) (f : A -> agent B) (w : W) (l : L) :
  let first := perform env llm p w l in
  let second :=
    perform env llm (f (value first)) (browserState first)
            (modelState first) in
  perform env llm (andThen p f) w l
  = {| value := value second; browserState := browserState second;
       modelState := modelState second;
       events := events first ++ events second |}.
Proof.
  revert w l. induction p as [a|X q k IH|ms ts k IH]; intros w l;
    cbn [andThen perform value browserState modelState events app].
  - destruct (perform env llm (f a) w l); reflexivity.
  - rewrite IH. cbn [value browserState modelState events].
    now rewrite app_assoc.
  - destruct (on_chat llm ms ts l) as [r l']. rewrite IH. reflexivity.
Qed.

(** What [holds] promises of a run. *)
Lemma holds_perform {W L A} (env : Env W) (llm : Model L)
    (Ask : list Message -> list jsstring -> Prop) (P : A -> Prop)
    (p : agent A) :
  holds Ask P p ->
  forall w l,
    P (value (perform env llm p w l)) /\
    forall ms ts, In (Asked ms ts) (events (perform env llm p w l)) ->
                  Ask ms ts.
Proof.
  induction 1 as [a Ha|X q k Q Hq _ IHe _ IHx|X q k Q Hq Hn _ IHx
                  |ms ts k Hask _ IH]; intros w l;
    cbn [perform value events].
  - split; [exact Ha|]. intros ms ts [].
  - assert (Hk : P (value (perform env llm (k (returned (Effects.run env q w)))
                              (world (Effects.run env q w)) l)) /\
                 forall ms ts,
                   In (Asked ms ts)
                      (events (perform env llm (k (returned (Effects.run env q w)))
                                 (world (Effects.run env q w)) l)) -> Ask ms ts).
    { destruct (returned (Effects.run env q w)) as [e|x] eqn:R; [apply IHe|].
      apply IHx. exact (always_run Q env q w x Hq R). }
    destruct Hk as [Hv He]. split; [exact Hv|].
    intros ms ts Hin. apply in_app_or in Hin as [Hin|Hin]; [|eauto].
    apply in_map_iff in Hin as (c & Ec & _). discriminate.
  - assert (Hk : P (value (perform env llm (k (returned (Effects.run env q w)))
                              (world (Effects.run env q w)) l)) /\
                 forall ms ts,
                   In (Asked ms ts)
                      (events (perform env llm (k (returned (Effects.run env q w)))
                                 (world (Effects.run env q w)) l)) -> Ask ms ts).
    { destruct (neverThrows_run env q w Hn) as [x R]. rewrite R.
      apply IHx. exact (always_run Q env q w x Hq R). }
    destruct Hk as [Hv He]. split; [exact Hv|].
    intros ms ts Hin. apply in_app_or in Hin as [Hin|Hin]; [|eauto].
    apply in_map_iff in Hin as (c & Ec & _). discriminate.
  - destruct (on_chat llm ms ts l) as [r l'].
    cbn [value events]. destruct (IH r w l') as [Hv He].
    split; [exact Hv|]. intros ms' ts' [E|Hin]; [|eauto].
    inversion E; subst. exact Hask.
Qed.

Lemma holds_andThen {A B} Ask (Q : A -> Prop) (P : B -> Prop)
    (p : agent A) (f : A -> agent B) :
  holds Ask Q p -> (forall a, Q a -> holds Ask P (f a)) ->
  holds Ask P (andThen p f).
Proof.
  induction 1; intros Hf; cbn [andThen]; auto.
  - eapply H_Browser; eauto.
  - eapply H_Quiet; eauto.
  - apply H_Chat; auto.
Qed.

Lemma holds_weaken {A} (Ask Ask' : list Message -> list jsstring -> Prop)
    (P P' : A -> Prop) (p : agent A) :
  (forall ms ts, Ask ms ts -> Ask' ms ts) -> (forall a, P a -> P' a) ->
  holds Ask P p -> holds Ask' P' p.
Proof.
  intros HA HP. induction 1.
  - apply H_Done; auto.
  - eapply H_Browser; eauto.
  - eapply H_Quiet; eauto.
  - apply H_Chat; auto.
Qed.

(** Nothing is promised of an arbitrary program, and that much holds. *)
Lemma holds_anything {A} (p : agent A) :
  holds (fun _ _ => True) (fun _ => True) p.
Proof.
  induction p as [a|X q k IH|ms ts k IH].
  - now apply H_Done.
  - apply (H_Browser _ _ X q k (fun _ => True)); auto. apply always_True.
  - apply H_Chat; auto.
Qed.

(** ** Methods that do not throw *)

Lemma returns_ret {A} (a : A) : returns (ret a).
Proof. intros st _. apply H_Done. cbn. eauto. Qed.

Lemma returns_read : returns read.
Proof. intros st _. apply H_Done. cbn. eauto. Qed.

Lemma returns_assign f : returns (assign f).
Proof. intros st _. apply H_Done. cbn. eauto. Qed.

Lemma returns_seq {A B} (p : method A) (f : A -> method B) :
  returns p -> (forall a, returns (f a)) -> returns (seq_ p f).
Proof.
  intros Hp Hf st _. unfold seq_.
  eapply holds_andThen; [apply (Hp st I)|].
  intros [st' r] [a E]. cbn [fst snd] in *. subst r. apply (Hf a st' I).
Qed.

(** A [try] whose handler does not throw does not throw. *)
Lemma returns_attempt {A} (p : method A) (h : thrown -> method A) :
  (forall e, returns (h e)) -> returns (attempt p h).
Proof.
  intros Hh st _. unfold attempt.
  eapply holds_andThen; [apply holds_anything|].
  intros [st' [e|a]] _; cbn [fst snd].
  - apply (Hh e st' I).
  - apply H_Done. cbn. eauto.
Qed.

(** ** Counting the requests *)

Lemma asks_more {A} n n' (p : agent A) :
  (n <= n')%nat -> asks n p -> asks n' p.
Proof.
  intros Hle H. revert n' Hle.
  induction H as [n a|n X q k _ IH|n ms ts k _ IH]; intros n' Hle.
  - constructor.
  - constructor. auto.
  - destruct n' as [|n']; [lia|]. constructor. intros r. apply IH. lia.
Qed.

Lemma asks_andThen {A B} n n' (p : agent A) (f : A -> agent B) :
  asks n p -> (forall a, asks n' (f a)) -> asks (n + n') (andThen p f).
Proof.
  intros H Hf. induction H as [n a|n X q k _ IH|n ms ts k _ IH];
    cbn [andThen].
  - apply (asks_more n'); [lia|auto].
  - constructor. auto.
  - cbn [Nat.add]. constructor. auto.
Qed.

Lemma asks_perform {W L A} (env : Env W) (llm : Model L) n (p : agent A) :
  asks n p ->
  forall w l,
    (length (filter isRequest (events (perform env llm p w l))) <= n)%nat.
Proof.
  induction 1 as [n a|n X q k _ IH|n ms ts k _ IH]; intros w l;
    cbn [perform events].
  - cbn. lia.
  - rewrite filter_app.
    assert (E : filter isRequest (map Op (trace (Effects.run env q w))) = []).
    { induction (trace (Effects.run env q w)); auto. }
    rewrite E. apply IH.
  - destruct (on_chat llm ms ts l) as [r l']. cbn [events filter isRequest].
    cbn [length]. specialize (IH r w l'). lia.
Qed.

(** A method that asks the model at most [n] times. *)
Lemma asks_seq {A B} n n' (p : method A) (f : A -> method B) :
  (forall st, asks n (p st)) -> (forall a st, asks n' (f a st)) ->
  forall st, asks (n + n') (seq_ p f st).
Proof.
  intros Hp Hf st. unfold seq_. apply asks_andThen; [apply Hp|].
  intros [st' [e|a]]; cbn [fst snd]; [constructor|apply Hf].
Qed.

Lemma asks_attempt {A} n n' (p : method A) (h : thrown -> method A) :
  (forall st, asks n (p st)) -> (forall e st, asks n' (h e st)) ->
  forall st, asks (n + n') (attempt p h st).
Proof.
  intros Hp Hh st. unfold attempt. apply asks_andThen; [apply Hp|].
  intros [st' [e|a]]; cbn [fst snd]; [apply Hh|constructor].
Qed.

(** The steps that do not ask. *)
Ltac quiet :=
  repeat first
    [ progress intros
    | apply (asks_seq 0 0)
    | apply (asks_attempt 0 0)
    | match goal with
      | |- asks _ (match ?x with _ => _ end _) => destruct x
      | |- asks _ (match ?x with _ => _ end) => destruct x
      | |- asks _ ((if ?b then _ else _) _) => destruct b
      | |- asks _ (if ?b then _ else _) => destruct b
      end
    | progress cbv [ret read assign pure browser act Loop.addObservation
                    Loop.getMessages throw retryText]
    | constructor ].

Section WithRuntime.

Variable rt : Runtime.
Variable buildSystemPrompt : jsstring -> jsstring.

Lemma returns_iterate iteration maxIterations :
  returns (iterate rt buildSystemPrompt iteration maxIterations).
Proof.
  unfold iterate. apply returns_attempt. intros e.
  repeat (apply returns_seq; [|intros ?]);
    auto using returns_assign, returns_read, returns_ret.
  destruct (_ <? _)%Z; auto using returns_assign, returns_ret.
Qed.

Lemma returns_iterations count : forall iteration maxIterations,
  returns (iterations rt buildSystemPrompt count iteration maxIterations).
Proof.
  induction count as [|count IH]; intros iteration maxIterations;
    cbn [iterations]; [apply returns_ret|].
  apply returns_seq; [apply returns_read|]. intros st.
  destruct (isDone st); [apply returns_ret|].
  apply returns_seq; [apply returns_iterate|].
  intros [v|]; [apply returns_ret | apply IH].
Qed.

Lemma returns_generateFinalSummary maxIterations task :
  returns (generateFinalSummary rt buildSystemPrompt maxIterations task).
Proof.
  unfold generateFinalSummary. apply returns_attempt. intros e.
  apply returns_ret.
Qed.

Lemma returns_run maxIterations task :
  returns (Loop.run rt buildSystemPrompt maxIterations task).
Proof.
  unfold Loop.run. apply returns_seq; [apply returns_assign|]. intros _.
  apply returns_seq; [apply returns_iterations|]. intros [v|].
  - apply returns_ret.
  - apply returns_seq; [apply returns_read|]. intros st.
    apply returns_seq.
    + destruct (negb (isDone st)); [|apply returns_ret].
      apply returns_seq; [apply returns_generateFinalSummary|].
      intros s. apply returns_assign.
    + intros _. apply returns_seq; [apply returns_read|]. intros st'.
      apply returns_ret.
Qed.


Lemma asks_actOnText text finishReason st :
  asks 0 (actOnText rt text finishReason st).
Proof. unfold actOnText, retryText. revert st. quiet. Qed.

Lemma asks_observeThinkAct iteration maxIterations st :
  asks 1 (observeThinkAct rt buildSystemPrompt iteration maxIterations st).
Proof.
  unfold observeThinkAct. revert st.
  apply (asks_seq 0 1); [quiet|]. intros recovered.
  destruct (negb recovered); [quiet|].
  apply (asks_seq 0 1); [quiet|]. intros st0.
  apply (asks_seq 0 1); [quiet|]. intros pageContent.
  apply (asks_seq 0 1); [quiet|]. intros _.
  apply (asks_seq 0 1); [quiet|]. intros _.
  apply (asks_seq 0 1); [quiet|]. intros messages.
  apply (asks_seq 1 0).
  - intros st. constructor. intros r. constructor.
  - intros response.
    destruct (toolCalls response) as [[|toolCall more]|];
      destruct (content response) as [[|c text]|];
      try (apply (asks_seq 0 0); [|quiet]); quiet;
      apply asks_actOnText.
Qed.

Lemma asks_iterate iteration maxIterations st :
  asks 1 (iterate rt buildSystemPrompt iteration maxIterations st).
Proof.
  unfold iterate. revert st. apply (asks_attempt 1 0).
  - intros st. apply asks_observeThinkAct.
  - quiet.
Qed.

Lemma asks_iterations count : forall iteration maxIterations st,
  asks count
       (iterations rt buildSystemPrompt count iteration maxIterations st).
Proof.
  induction count as [|count IH]; intros iteration maxIterations;
    cbn [iterations]; [quiet|].
  apply (asks_seq 0 (S count)); [quiet|]. intros st.
  destruct (isDone st); [quiet|].
  apply (asks_seq 1 count); [intros; apply asks_iterate|].
  intros [v|]; [quiet | apply IH].
Qed.

Lemma asks_generateFinalSummary maxIterations task st :
  asks 1 (generateFinalSummary rt buildSystemPrompt maxIterations task st).
Proof.
  unfold generateFinalSummary. revert st. apply (asks_attempt 1 0); [|quiet].
  apply (asks_seq 0 1); [quiet|]. intros messages.
  apply (asks_seq 1 0).
  - intros st. constructor. intros r. constructor.
  - intros response. quiet.
Qed.


End WithRuntime.



End LoopFacts.

(* ================================================================== *)
(** * The agent loop: the messages it sends *)
(* ================================================================== *)

Module LoopLog.

Import Re Effects Llm Context Executor Manager Agent Prompts Loop ProgFacts
  LoopFacts Example Scenes.

Lemma ensures_seq {A B} Ask (Pre : RunState -> Prop)
    (Mid : A -> RunState -> Prop) (Post : RunState -> thrown + B -> Prop)
    (p : method A) (f : A -> method B) :
  ensures Ask Pre p
          (fun st r => match r with
                       | inl e => Post st (inl e)
                       | inr a => Mid a st
                       end) ->
  (forall a, ensures Ask (Mid a) (f a) Post) ->
  ensures Ask Pre (seq_ p f) Post.
Proof.
  intros Hp Hf st HPre. unfold seq_.
  eapply holds_andThen; [apply (Hp st HPre)|].
  intros [st' [e|a]] H; cbn [fst snd] in *.
  - now apply H_Done.
  - now apply Hf.
Qed.

Lemma ensures_attempt {A} Ask (Pre : RunState -> Prop)
    (Mid : thrown -> RunState -> Prop)
    (Post : RunState -> thrown + A -> Prop)
    (p : method A) (h : thrown -> method A) :
  ensures Ask Pre p
          (fun st r => match r with
                       | inl e => Mid e st
                       | inr a => Post st (inr a)
                       end) ->
  (forall e, ensures Ask (Mid e) (h e) Post) ->
  ensures Ask Pre (attempt p h) Post.
Proof.
  intros Hp Hh st HPre. unfold attempt.
  eapply holds_andThen; [apply (Hp st HPre)|].
  intros [st' [e|a]] H; cbn [fst snd] in *.
  - now apply Hh.
  - now apply H_Done.
Qed.

Section WithRuntime.

Variable rt : Runtime.
Variable buildSystemPrompt : jsstring -> jsstring.

Lemma keeps_seq {A B} (p : method A) (f : A -> method B) :
  keeps rt p -> (forall a, keeps rt (f a)) -> keeps rt (seq_ p f).
Proof.
  intros Hp Hf. apply (ensures_seq _ _ (fun _ st => logged rt st)); auto.
  intros st H. eapply holds_weaken; [| |apply (Hp st H)]; auto.
  intros [st' [e|a]]; auto.
Qed.

Lemma keeps_attempt {A} (p : method A) (h : thrown -> method A) :
  keeps rt p -> (forall e, keeps rt (h e)) -> keeps rt (attempt p h).
Proof.
  intros Hp Hh. apply (ensures_attempt _ _ (fun _ st => logged rt st)); auto.
  intros st H. eapply holds_weaken; [| |apply (Hp st H)]; auto.
  intros [st' [e|a]]; auto.
Qed.

Lemma keeps_ret {A} (a : A) : keeps rt (ret a).
Proof. intros st H. now apply H_Done. Qed.

Lemma keeps_read : keeps rt read.
Proof. intros st H. now apply H_Done. Qed.

Lemma keeps_pure {A} (r : thrown + A) : keeps rt (pure r).
Proof. intros st H. now apply H_Done. Qed.

Lemma keeps_assign f :
  (forall st, logged rt st -> logged rt (f st)) -> keeps rt (assign f).
Proof. intros Hf st H. apply H_Done. cbn. auto. Qed.

Lemma keeps_browser {X} (p : prog X) : keeps rt (browser p).
Proof.
  intros st H. unfold browser.
  apply (H_Browser _ _ X p _ (fun _ => True)).
  - apply always_True.
  - intros e. now apply H_Done.
  - intros x _. now apply H_Done.
Qed.

Lemma keeps_chat ms ts : paired None ms -> keeps rt (chat ms ts).
Proof.
  intros Hms st H. unfold chat. apply H_Chat; [exact Hms|].
  intros r. now apply H_Done.
Qed.

Lemma keeps_addObservation content : keeps rt (Loop.addObservation rt content).
Proof.
  intros st H. unfold Loop.addObservation. apply H_Done.
  cbn [fst snd]. unfold logged. cbn [context withContext].
  now apply P_addObservation.
Qed.

Lemma keeps_act content calls : keeps rt (act rt content calls).
Proof.
  intros st H. unfold act.
  apply (H_Browser _ _ _ _ _
           (fun r => produced rt (context (fst r)))).
  - now apply AgentLog.actOnToolCalls_produced.
  - intros e. now apply H_Done.
  - intros [st' [e|]] Hp; now apply H_Done.
Qed.

(** The messages [getMessages] builds from a produced log are paired. *)
Lemma getMessages_paired c ms :
  produced rt c -> Context.getMessages buildSystemPrompt c = inr ms ->
  paired None ms.
Proof.
  intros Hp. apply (ContextSpec.produced_paired rt) in Hp.
  unfold Context.getMessages.
  destruct (getRecentMessages c) as [e|recent] eqn:R; [discriminate|].
  intros E. inversion E; subst ms. cbn [app paired].
  pose proof (ContextSpec.getRecentMessages_paired c recent Hp R) as Hr.
  destruct (0 <? _)%Z; exact Hr.
Qed.

Lemma getMessages_then {B} (f : list Message -> method B) :
  (forall ms, paired None ms -> keeps rt (f ms)) ->
  keeps rt (seq_ (Loop.getMessages buildSystemPrompt) f).
Proof.
  intros Hf.
  apply (ensures_seq _ _ (fun ms st => logged rt st /\ paired None ms)).
  - intros st H. unfold Loop.getMessages. apply H_Done. cbn [fst snd].
    destruct (Context.getMessages _ _) as [e|ms] eqn:E; auto.
    split; auto. eapply getMessages_paired; eauto.
  - intros ms st [H Hms]. now apply Hf.
Qed.

Ltac keep1 :=
  first
    [ match goal with
      | |- ?G => lazymatch G with forall _, _ => intro end
      end
    | apply keeps_ret
    | apply keeps_read
    | apply keeps_pure
    | apply keeps_browser
    | apply keeps_addObservation
    | apply keeps_act
    | apply keeps_assign; intros ? ?; assumption
    | match goal with
      | |- keeps rt (match ?x with _ => _ end) => destruct x
      | |- keeps rt (if ?b then _ else _) => destruct b
      | |- keeps rt (seq_ _ _) => apply keeps_seq
      end ].

Ltac keep := repeat keep1.

Lemma keeps_actOnText text finishReason :
  keeps rt (actOnText rt text finishReason).
Proof.
  unfold actOnText, retryText. apply keeps_seq.
  - apply keeps_assign. intros st H. unfold logged in *.
    cbn [context withContext]. now apply P_addAssistantMessage.
  - keep.
Qed.

Lemma keeps_observeThinkAct iteration maxIterations :
  keeps rt (observeThinkAct rt buildSystemPrompt iteration maxIterations).
Proof.
  unfold observeThinkAct. apply keeps_seq.
  - apply keeps_attempt; keep.
  - intros recovered. destruct (negb recovered); [keep|].
    apply keeps_seq; [keep|]. intros st.
    apply keeps_seq; [keep|]. intros pageContent.
    apply keeps_seq; [keep|]. intros _.
    apply keeps_seq; [keep|]. intros _.
    apply getMessages_then. intros ms Hms.
    apply keeps_seq; [now apply keeps_chat|]. intros response.
    destruct (toolCalls response) as [[|toolCall more]|];
      destruct (content response) as [[|c text]|];
      first [ apply keeps_seq; [apply keeps_actOnText|keep] | keep ].
Qed.

Lemma keeps_iterate iteration maxIterations :
  keeps rt (iterate rt buildSystemPrompt iteration maxIterations).
Proof.
  unfold iterate. apply keeps_attempt; [apply keeps_observeThinkAct|].
  intros e. apply keeps_seq; [keep|]. intros _.
  apply keeps_seq.
  - apply keeps_assign. intros st H. unfold logged in *.
    cbn [context withContext]. now apply P_removeLastObservation.
  - keep.
Qed.

Lemma keeps_iterations count : forall iteration maxIterations,
  keeps rt (iterations rt buildSystemPrompt count iteration maxIterations).
Proof.
  induction count as [|count IH]; intros iteration maxIterations;
    cbn [iterations]; [keep|].
  apply keeps_seq; [keep|]. intros st. destruct (isDone st); [keep|].
  apply keeps_seq; [apply keeps_iterate|]. intros [v|]; [keep|apply IH].
Qed.

Lemma keeps_generateFinalSummary maxIterations task :
  keeps rt (generateFinalSummary rt buildSystemPrompt maxIterations task).
Proof.
  unfold generateFinalSummary. apply keeps_attempt; [|keep].
  apply getMessages_then. intros ms Hms. apply keeps_seq.
  - apply keeps_chat. apply ContextSpec.paired_app. split; [exact Hms|].
    cbn. destruct (ownerAfter None ms); exact I.
  - intros response. keep.
Qed.

Lemma keeps_run maxIterations task :
  keeps rt (Loop.run rt buildSystemPrompt maxIterations task).
Proof.
  unfold Loop.run. apply keeps_seq.
  - apply keeps_assign. intros st H. unfold logged in *.
    cbn [context]. now apply P_setTask.
  - intros _. apply keeps_seq; [apply keeps_iterations|].
    intros [v|]; [keep|].
    apply keeps_seq; [keep|]. intros st. apply keeps_seq; [|keep].
    destruct (negb (isDone st)); [|keep].
    apply keeps_seq; [apply keeps_generateFinalSummary|]. keep.
Qed.

(** X26: every list of messages that [run] sends to the model is well
    formed: each tool result in it has, earlier in the list, an
    assistant message whose tool calls include its id.  This holds for
    the requests of every pass, after failures and compressions too,
    and for the request of the final summary. *)
Theorem run_sends_paired_messages {W L} (env : Env W) (llm : Model L)
    (w : W) (l : L) (maxIterations : Z) (task : jsstring) (st : RunState)
    (messages : list Message) (tools : list jsstring) :
  countable maxIterations ->
  produced rt (context st) ->
  In (Asked messages tools)
     (events (perform env llm
                (Loop.run rt buildSystemPrompt maxIterations task st) w l)) ->
  answered messages.
Proof.
  intros _ Hp Hin. apply ContextSpec.paired_None_answered.
  exact (proj2 (holds_perform env llm _ _ _
                  (keeps_run maxIterations task st Hp) w l)
               messages tools Hin).
Qed.

End WithRuntime.

Lemma run_sends_paired_messages_witness :
  let env := steadyPage (lit "https://example.com/") (lit "Example") in
  let script := [calling [scrollCall; readCall]; calling [doneCall]] in
  let r :=
    perform env scripted
      (Loop.run runtime prompt 5 (lit "find flights") fresh) 0%nat script in
  (countable 5 /\ produced runtime (context fresh)) /\
  exists messages tools,
    In (Asked messages tools) (events r) /\
    existsb isTool messages = true /\ answered messages.
Proof.
  intros env script r.
  assert (Hp : produced runtime (context fresh)) by apply P_create.
  assert (Hc : countable 5) by (unfold countable; cbn; lia).
  split; [split; [exact Hc | exact Hp]|].
  assert (H : exists messages tools,
             nth_error (filter isRequest (events r)) 1
             = Some (Asked messages tools)
             /\ existsb isTool messages = true).
  { vm_compute. eexists _, _. split; reflexivity. }
  destruct H as (messages & tools & N & T).
  assert (Hin : In (Asked messages tools) (events r)).
  { exact (proj1 (proj1 (filter_In isRequest _ (events r))
                           (nth_error_In _ _ N))). }
  exists messages, tools. split; [exact Hin|]. split; [exact T|].
  exact (run_sends_paired_messages runtime prompt env scripted 0%nat script
           5 (lit "find flights") fresh messages tools Hc Hp Hin).
Defined.

End LoopLog.

(* ================================================================== *)
(** * The agent loop: three runs *)
(* ================================================================== *)

Module LoopRuns.

Import Re Effects Llm Context Executor Manager Agent Prompts Loop ProgFacts
  RunFacts LoopFacts Example Scenes.
Local Open Scope Z_scope.

(** [getActivePage] only reads. *)
Lemma getActivePage_quiet {W} (env : Env W) (w : W) (bm : BrowserManager) :
  world (Effects.run env (getActivePage bm) w) = w /\
  trace (Effects.run env (getActivePage bm) w) = [].
Proof.
  unfold getActivePage. destruct (launched bm); cbn [negb]; [|auto].
  rewrite run_bind, ManagerSpec.run_openPages.
  cbn [returned world trace app]. destruct (rev _); auto.
Qed.

Ltac go :=
  cbn [seq_ attempt read browser assign ret pure andThen fst snd perform
       value negb events browserState modelState].

Section WithRuntime.

Variable rt : Runtime.
Variable buildSystemPrompt : jsstring -> jsstring.

(** X27: with no page to work on, [run] gives up at once.  When
    [getActivePage] throws at the start of the first pass, the run
    returns [Task aborted: Browser windows closed.] without an operation
    on the browser and without a request to the model. *)
Theorem run_aborts_without_a_page {W L} (env : Env W) (llm : Model L)
    (w : W) (l : L) (maxIterations : Z) (task : jsstring) (st : RunState)
    (e : thrown) :
  countable maxIterations ->
  1 <= maxIterations ->
  returned (Effects.run env (getActivePage (browserManager st)) w) = inl e ->
  let r :=
    perform env llm (Loop.run rt buildSystemPrompt maxIterations task st)
            w l in
  snd (value r) = inr (VStr (lit "Task aborted: Browser windows closed."))
  /\ events r = [] /\ browserState r = w /\ modelState r = l.
Proof.
  intros _ Hmax Hpage r. subst r.
  destruct (Z.to_nat maxIterations) as [|count] eqn:C; [lia|].
  unfold Loop.run. rewrite C.
  cbn [iterations seq_ assign read andThen fst snd isDone iterate attempt
       observeThinkAct browser ret perform browserManager].
  destruct (getActivePage_quiet env w (browserManager st)) as [Hw Ht].
  rewrite Hpage, Hw, Ht.
  cbn [andThen fst snd negb perform value events browserState modelState
       map app].
  auto.
Qed.

(** X28: the final summary costs one request, made with the [done]
    tool alone.  From a log that [getMessages] can read,
    [generateFinalSummary] sends those messages followed by the prompt
    of [buildFinalSummaryPrompt], offers no tool but [done], touches
    neither the browser nor the fields of the agent, and returns; when
    the request fails, or the answer holds neither a tool call nor
    text, what it returns is the notice that the task is incomplete. *)
Theorem generateFinalSummary_offers_done {W L} (env : Env W)
    (llm : Model L) (w : W) (l : L) (maxIterations : Z) (task : jsstring)
    (st : RunState) (messages : list Message) :
  countable maxIterations ->
  Context.getMessages buildSystemPrompt (context st) = inr messages ->
  let request := messages ++ [UserMessage (buildFinalSummaryPrompt task)] in
  let r :=
    perform env llm
      (generateFinalSummary rt buildSystemPrompt maxIterations task st)
      w l in
  events r = [Asked request [lit "done"]] /\
  fst (value r) = st /\ browserState r = w /\
  (exists summary, snd (value r) = inr summary) /\
  (match fst (on_chat llm request [lit "done"] l) with
   | Rejected _ => True
   | Resolved response =>
     match toolCalls response, content response with
     | Some (_ :: _), _ | _, Some (_ :: _) => False
     | _, _ => True
     end
   end ->
   snd (value r) = inr (incomplete maxIterations)).
Proof.
  intros _ Hms request r. subst r.
  unfold generateFinalSummary, attempt, seq_, Loop.getMessages, chat.
  cbn [andThen fst snd]. rewrite Hms. cbn [andThen fst snd perform].
  change (filter (fun t => streq t (lit "done")) getDefinitions)
    with [lit "done"].
  fold request.
  destruct (on_chat llm request [lit "done"] l) as [[response|e] l'];
    cbn [andThen fst snd perform value events browserState ret];
    [|repeat split; eauto].
  destruct (toolCalls response) as [[|first more]|];
    destruct (content response) as [[|c text]|];
    repeat (cbn [andThen fst snd perform value events browserState ret
                 pure];
            match goal with
            | |- context [parse rt ?x] => destruct (parse rt x)
            | |- context [summaryOf ?a] => destruct (summaryOf a)
            end);
    cbn [andThen fst snd perform value events browserState ret pure];
    (split; [reflexivity|]); (split; [reflexivity|]);
    (split; [reflexivity|]); (split; [eauto|]);
    first [ intros []; fail | reflexivity | intros _; reflexivity ].
Qed.

Section DeafModel.

Context {W L : Type} (env : Env W) (llm : Model L) (bm : BrowserManager).

Hypothesis open_page :
  forall w, exists active,
    returned (Effects.run env (getActivePage bm) w) = inr active.

Hypothesis deaf :
  forall ms ts l, exists e, fst (on_chat llm ms ts l) = Rejected e.

(** While the model does not answer, the [try] of a pass ends in an
    exception, with the counters as they were. *)
Lemma observeThinkAct_fails iteration maxIterations st w l :
  browserManager st = bm ->
  exists st' e,
    value (perform env llm
             (observeThinkAct rt buildSystemPrompt iteration maxIterations
                              st) w l)
    = (st', inl e) /\
    browserManager st' = bm /\
    consecutiveFailures st' = consecutiveFailures st /\
    isDone st' = isDone st /\ summary st' = summary st.
Proof.
  intros Hbm. unfold observeThinkAct. go.
  rewrite Hbm. destruct (open_page w) as [active ->]. go.
  match goal with
  | |- context [returned (Effects.run env ?p ?w0)] =>
    destruct (returned (Effects.run env p w0)) as [e|pageContent]
  end; go; [eexists _, _; split; [reflexivity|]; cbn; auto|].
  match goal with
  | |- context [returned (Effects.run env ?p ?w0)] =>
    destruct (returned (Effects.run env p w0)) as [e|[]]
  end; go; [eexists _, _; split; [reflexivity|]; cbn; auto|].
  unfold Loop.addObservation at 1. go.
  match goal with
  | |- context [raised ?x] => destruct (raised x) as [e|]
  end; go; [eexists _, _; split; [reflexivity|]; cbn; auto|].
  unfold Loop.getMessages at 1. go.
  match goal with
  | |- context [Context.getMessages buildSystemPrompt ?c] =>
    destruct (Context.getMessages buildSystemPrompt c) as [e|messages]
  end; go; [eexists _, _; split; [reflexivity|]; cbn; auto|].
  unfold chat at 1. go.
  match goal with
  | |- context [on_chat llm ?ms ?ts ?l0] =>
    destruct (deaf ms ts l0) as [e He];
    destruct (on_chat llm ms ts l0) as [r l']
  end.
  cbn [fst] in He. subst r. go.
  eexists _, _; split; [reflexivity|]; cbn; auto.
Qed.

(** Such a pass is caught: one more failure is counted, and the fourth
    in a row ends the run. *)
Lemma iterate_fails iteration maxIterations st w l :
  browserManager st = bm ->
  exists st',
    value (perform env llm
             (iterate rt buildSystemPrompt iteration maxIterations st) w l)
    = (st', inr None) /\
    browserManager st' = bm /\
    consecutiveFailures st' = consecutiveFailures st + 1 /\
    (if 3 <? consecutiveFailures st + 1
     then isDone st' = true /\ summary st' = gaveUp
     else isDone st' = isDone st /\ summary st' = summary st).
Proof.
  intros Hbm. unfold iterate, attempt. rewrite perform_andThen. cbv zeta.
  destruct (observeThinkAct_fails iteration maxIterations st w l Hbm)
    as (st1 & e & -> & B & C & D & S).
  go. cbn [consecutiveFailures withCounters withContext].
  rewrite C. destruct (3 <? consecutiveFailures st + 1); go;
    eexists; (split; [reflexivity|]); cbn; auto.
Qed.

Lemma iterations_done count iteration maxIterations st w l :
  isDone st = true ->
  value (perform env llm
           (iterations rt buildSystemPrompt count iteration maxIterations st)
           w l)
  = (st, inr None).
Proof.
  intros H. destruct count as [|count]; cbn [iterations]; go; [reflexivity|].
  rewrite H. reflexivity.
Qed.

Lemma iterations_give_up maxIterations count :
  forall iteration st w l,
    browserManager st = bm -> isDone st = false ->
    0 <= consecutiveFailures st <= 3 ->
    4 - consecutiveFailures st <= Z.of_nat count ->
    exists st',
      value (perform env llm
               (iterations rt buildSystemPrompt count iteration
                           maxIterations st) w l)
      = (st', inr None) /\
      isDone st' = true /\ summary st' = gaveUp.
Proof.
  induction count as [|count IH]; intros iteration st w l Hbm Hd Hk Hc;
    [lia|].
  cbn [iterations]. go. rewrite Hd.
  unfold seq_. rewrite perform_andThen. cbv zeta.
  destruct (iterate_fails iteration maxIterations st w l Hbm)
    as (st1 & -> & B & C & D).
  go. destruct (3 <? consecutiveFailures st + 1) eqn:T.
  - destruct D as [D S]. rewrite iterations_done by exact D. eauto.
  - destruct D as [D S]. apply Z.ltb_ge in T.
    apply IH; auto; try lia. congruence.
Qed.

End DeafModel.

(** X29: a model that does not answer ends the run after four passes.
    While a page is open and every request to the model is rejected, a
    run of four passes or more returns [Task failed: Too many
    consecutive errors.]. *)
Theorem run_gives_up_on_a_deaf_model {W L} (env : Env W) (llm : Model L)
    (w : W) (l : L) (maxIterations : Z) (task : jsstring) (st : RunState) :
  countable maxIterations ->
  4 <= maxIterations ->
  (forall w0, exists active,
     returned (Effects.run env (getActivePage (browserManager st)) w0)
     = inr active) ->
  (forall ms ts l0, exists e, fst (on_chat llm ms ts l0) = Rejected e) ->
  snd (value (perform env llm
                (Loop.run rt buildSystemPrompt maxIterations task st) w l))
  = inr (VStr (lit "Task failed: Too many consecutive errors.")).
Proof.
  intros _ Hmax Hpage Hdeaf. unfold Loop.run, seq_ at 1. go.
  unfold seq_ at 1. rewrite perform_andThen. cbv zeta.
  match goal with
  | |- context [iterations rt buildSystemPrompt ?n ?i ?mx ?s] =>
    destruct (iterations_give_up env llm (browserManager st) Hpage Hdeaf
                mx n i s w l) as (st' & E & D & S)
  end; cbn [browserManager isDone consecutiveFailures]; auto; try lia.
  rewrite E. go. rewrite D. go. exact (f_equal inr S).
Qed.

End WithRuntime.

Lemma run_aborts_without_a_page_witness :
  let env := closedPage (lit "https://example.com/") in
  let r :=
    perform env deafModel
      (Loop.run runtime prompt 50 (lit "find flights") fresh) 0%nat 0%nat in
  (countable 50 /\ 1 <= 50 /\
   returned (Effects.run env (getActivePage (browserManager fresh)) 0%nat)
   = inl (ErrorObj (lit "No pages open in browser"))) /\
  snd (value r) = inr (VStr (lit "Task aborted: Browser windows closed."))
  /\ events r = [].
Proof.
  intros env r.
  assert (H : returned (Effects.run env
                          (getActivePage (browserManager fresh)) 0%nat)
              = inl (ErrorObj (lit "No pages open in browser")))
    by reflexivity.
  assert (Hc : countable 50) by (unfold countable; cbn; lia).
  split; [split; [exact Hc|split; [lia|exact H]]|].
  destruct (run_aborts_without_a_page runtime prompt env deafModel 0%nat
              0%nat 50 (lit "find flights") fresh _ Hc ltac:(lia) H)
    as (V & E & _).
  split; [exact V | exact E].
Defined.

Lemma generateFinalSummary_offers_done_witness :
  let env := steadyPage (lit "https://example.com/") (lit "Example") in
  let r :=
    perform env deafModel
      (generateFinalSummary runtime prompt 50 (lit "find flights") fresh)
      0%nat 0%nat in
  (countable 50 /\
   Context.getMessages prompt (context fresh)
   = inr [SystemMessage (prompt [])]) /\
  events r
  = [Asked [SystemMessage (prompt []);
            UserMessage (buildFinalSummaryPrompt (lit "find flights"))]
           [lit "done"]] /\
  snd (value r) = inr (incomplete 50).
Proof.
  intros env r.
  assert (H : Context.getMessages prompt (context fresh)
              = inr [SystemMessage (prompt [])]) by reflexivity.
  assert (Hc : countable 50) by (unfold countable; cbn; lia).
  split; [split; [exact Hc | exact H]|].
  destruct (generateFinalSummary_offers_done runtime prompt env deafModel
              0%nat 0%nat 50 (lit "find flights") fresh _ Hc H)
    as (E & _ & _ & _ & I).
  split; [exact E|]. exact (I Logic.I).
Defined.

Lemma run_gives_up_on_a_deaf_model_witness :
  let env := steadyPage (lit "https://example.com/") (lit "Example") in
  (countable 50 /\ 4 <= 50 /\
   (forall w0, exists active,
      returned (Effects.run env (getActivePage (browserManager fresh)) w0)
      = inr active) /\
   (forall ms ts l0, exists e,
      fst (on_chat deafModel ms ts l0) = Rejected e)) /\
  snd (value (perform env deafModel
                (Loop.run runtime prompt 50 (lit "find flights") fresh)
                0%nat 0%nat))
  = inr (VStr (lit "Task failed: Too many consecutive errors.")).
Proof.
  intros env.
  assert (H1 : forall w0, exists active,
             returned (Effects.run env (getActivePage (browserManager fresh))
                                   w0) = inr active)
    by (intros w0; exists 0%nat; reflexivity).
  assert (H2 : forall ms ts l0, exists e,
             fst (on_chat deafModel ms ts l0) = Rejected e)
    by (intros; eexists; reflexivity).
  assert (Hc : countable 50) by (unfold countable; cbn; lia).
  split; [split; [exact Hc|split; [lia|split; assumption]]|].
  exact (run_gives_up_on_a_deaf_model runtime prompt env deafModel 0%nat
           0%nat 50 (lit "find flights") fresh Hc ltac:(lia) H1 H2).
Defined.

End LoopRuns.

(* ================================================================== *)
(** * The agent loop: what a request ends with *)
(* ================================================================== *)

Module LoopRequests.

Import Re Effects Llm Context Executor Manager Agent Prompts Loop ProgFacts
  LoopFacts LoopLog ContextRules Example Scenes.
Local Open Scope Z_scope.

(** A program that does not ask satisfies whatever is required of the
    requests. *)
Lemma silent_holds {A} Ask (p : agent A) :
  asks 0 p -> holds Ask (fun _ => True) p.
Proof.
  intros H. remember 0%nat as n eqn:E.
  induction H as [n a|n X q k _ IH|n ms ts k _ IH].
  - now apply H_Done.
  - apply (H_Browser _ _ X q k (fun _ => True)); auto. apply always_True.
  - discriminate.
Qed.

Lemma silent_ensures {A} Ask (m : method A) :
  (forall st, asks 0 (m st)) -> ensures Ask anyState m (fun _ _ => True).
Proof. intros H st _. apply silent_holds, H. Qed.

Lemma free_seq {A B} Ask (p : method A) (f : A -> method B) :
  ensures Ask anyState p (fun _ _ => True) ->
  (forall a, ensures Ask anyState (f a) (fun _ _ => True)) ->
  ensures Ask anyState (seq_ p f) (fun _ _ => True).
Proof.
  intros Hp Hf. apply (ensures_seq _ _ (fun _ _ => True)).
  - intros st H. eapply holds_weaken; [| |apply (Hp st H)]; auto.
    intros [st' [e|a]]; auto.
  - intros a st _. now apply Hf.
Qed.

Lemma free_attempt {A} Ask (p : method A) (h : thrown -> method A) :
  ensures Ask anyState p (fun _ _ => True) ->
  (forall e, ensures Ask anyState (h e) (fun _ _ => True)) ->
  ensures Ask anyState (attempt p h) (fun _ _ => True).
Proof.
  intros Hp Hh. apply (ensures_attempt _ _ (fun _ _ => True)).
  - intros st H. eapply holds_weaken; [| |apply (Hp st H)]; auto.
    intros [st' [e|a]]; auto.
  - intros e st _. now apply Hh.
Qed.

Section WithRuntime.

Variable rt : Runtime.
Variable buildSystemPrompt : jsstring -> jsstring.

(** What [getMessages] returns ends as the log does. *)
Lemma getMessages_last c kept msg ms :
  messages c = kept ++ [msg] ->
  Context.getMessages buildSystemPrompt c = inr ms ->
  exists before, ms = before ++ [msg].
Proof.
  intros Hc. unfold Context.getMessages.
  destruct (getRecentMessages c) as [e|recent] eqn:R; [discriminate|].
  intros E. inversion E; subst ms. clear E.
  assert (Hr : exists before, recent = before ++ [msg]).
  { unfold getRecentMessages in R. destruct (_ <=? _).
    - inversion R; subst. eauto.
    - destruct (findSafeWindowStart _ _) as [e|start] eqn:F; [discriminate|].
      inversion R; subst recent.
      assert (Hs : (start <= length kept)%nat).
      { destruct (findSafeWindowStart_inside _ _ _ F) as [->|H]; [lia|].
        rewrite Hc, length_app in H. cbn [length] in H. lia. }
      exists (skipn start kept). rewrite Hc, skipn_app.
      replace (start - length kept)%nat with 0%nat by lia. reflexivity. }
  destruct Hr as [before ->].
  set (summary := if 0 <? _ then _ else _).
  exists ([SystemMessage (buildSystemPrompt (Context.task c))] ++ summary
          ++ before).
  now rewrite <- !app_assoc.
Qed.

Variable maxIterations : Z.
Variable task : jsstring.

Local Abbreviation free :=
  (fun m => ensures (addressed maxIterations task) anyState m
                    (fun _ _ => True)).

Lemma free_observeThinkAct iteration :
  free (observeThinkAct rt buildSystemPrompt iteration maxIterations).
Proof.
  unfold observeThinkAct. apply free_seq.
  - apply silent_ensures. quiet.
  - intros recovered. destruct (negb recovered);
      [apply silent_ensures; quiet|].
    apply free_seq; [apply silent_ensures; quiet|]. intros st.
    apply free_seq; [apply silent_ensures; quiet|].
    intros pageContent.
    apply free_seq; [apply silent_ensures; quiet|]. intros _.
    set (obs := formatObservation pageContent (ofZ iteration)
                                  (ofZ maxIterations)).
    apply (ensures_seq _ _
             (fun _ st' => exists kept,
                  messages (context st') = kept ++ [UserMessage obs])).
    { intros st0 _. unfold Loop.addObservation. apply H_Done.
      cbn [fst snd context withContext].
      destruct (raised _); auto.
      destruct (addObservation_last rt obs (context st0)) as (n & E & _).
      eauto. }
    intros _.
    apply (ensures_seq _ _
             (fun ms _ => exists before, ms = before ++ [UserMessage obs])).
    { intros st0 [kept Hk]. unfold Loop.getMessages. apply H_Done.
      cbn [fst snd].
      destruct (Context.getMessages _ _) as [e|ms] eqn:E; auto.
      eapply getMessages_last; eauto. }
    intros ms.
    apply (ensures_seq _ _ (fun _ _ => True)).
    { intros st0 [before Hb]. unfold chat. apply H_Chat.
      - left. exists before, pageContent, iteration. auto.
      - intros [response|e]; now apply H_Done. }
    intros response st0 _.
    apply silent_holds. revert st0.
    destruct (toolCalls response) as [[|toolCall more]|];
      destruct (content response) as [[|c text]|];
      try (apply (asks_seq 0 0);
           [intros; apply asks_actOnText|quiet]);
      quiet.
Qed.

Lemma free_iterations count : forall iteration,
  free (iterations rt buildSystemPrompt count iteration maxIterations).
Proof.
  induction count as [|count IH]; intros iteration; cbn [iterations].
  - apply silent_ensures. quiet.
  - apply free_seq; [apply silent_ensures; quiet|]. intros st.
    destruct (isDone st); [apply silent_ensures; quiet|].
    apply free_seq.
    + unfold iterate. apply free_attempt; [apply free_observeThinkAct|].
      intros e. apply silent_ensures. quiet.
    + intros [v|]; [apply silent_ensures; quiet|apply IH].
Qed.

Lemma free_generateFinalSummary :
  free (generateFinalSummary rt buildSystemPrompt maxIterations task).
Proof.
  unfold generateFinalSummary. apply free_attempt;
    [|intros; apply silent_ensures; quiet].
  apply free_seq; [apply silent_ensures; quiet|]. intros ms.
  apply free_seq.
  - intros st _. unfold chat. apply H_Chat.
    + right. eexists. split; reflexivity.
    + intros [response|e]; now apply H_Done.
  - intros response. apply silent_ensures. quiet.
Qed.


End WithRuntime.


End LoopRequests.
